(** * Entry maintenance of the open source games database

    A shallow embedding of [code/maintenance_entries.py] (class
    [EntriesMaintainer] and its helpers) together with the constants of
    [code/utils/constants.py] it consults.

    Conventions of the embedding:
    - a Python [str] is a [string]; the characters are the bytes of its UTF-8
      encoding, so comparison by code point is comparison byte by byte;
      [str.lower] and [str.capitalize], which the code applies to the
      constants of [constants.py] only, are modelled on the ASCII letters;
      [str.casefold] and [str.strip] depend on the Unicode tables and are
      taken from outside;
    - a Python [float] obtained from a quotient of two integers is the exact
      rational ([Qc]); rounding of the binary representation and the
      [{:.1f}] formatting are not part of the model;
    - a [dict] is a [gmap] (or a record where the set of keys is fixed), the
      file system is a pair of maps from names to contents, [print] appends a
      line to [stdout];
    - a method of the maintainer is a computation in a state and exception
      monad over the [World]. *)

From Stdlib Require Import Ascii String QArith Qcanon.
From stdpp Require Import base decidable option list sorting numbers strings gmap pretty.

Local Open Scope string_scope.

(** ** Strings *)

Module Str.

(** The line feed and the double quote, which have no escape in a literal. *)
Definition nl : string := String "010"%char "".
Definition dq : string := String "034"%char "".

(** [s.startswith(p)], returning what follows the prefix. *)
Fixpoint strip_prefix (p s : string) : option string :=
  match p with
  | "" => Some s
  | String a p' =>
      match s with
      | "" => None
      | String b s' => if decide (a = b) then strip_prefix p' s' else None
      end
  end.

Definition startswith (s p : string) : bool := bool_decide (is_Some (strip_prefix p s)).

(** Leftmost occurrence of [m] in [s]: the text before it and the text after it. *)
Fixpoint find_sub (m s : string) : option (string * string) :=
  match strip_prefix m s with
  | Some rest => Some ("", rest)
  | None =>
      match s with
      | "" => None
      | String c s' =>
          match find_sub m s' with
          | Some (a, b) => Some (String c a, b)
          | None => None
          end
      end
  end.

(** [m in s] on strings. *)
Definition contains (s m : string) : bool := bool_decide (is_Some (find_sub m s)).

(** Number of positions of [s] at which [m] starts. *)
Fixpoint count_sub (m s : string) : nat :=
  (if decide (is_Some (strip_prefix m s)) then 1 else 0) +
  match s with
  | "" => 0
  | String _ s' => count_sub m s'
  end.

Definition lower_ascii (c : ascii) : ascii :=
  let n := nat_of_ascii c in
  if decide (65 ≤ n ≤ 90)%nat then ascii_of_nat (n + 32) else c.

Definition upper_ascii (c : ascii) : ascii :=
  let n := nat_of_ascii c in
  if decide (97 ≤ n ≤ 122)%nat then ascii_of_nat (n - 32) else c.

Fixpoint map_chars (f : ascii → ascii) (s : string) : string :=
  match s with
  | "" => ""
  | String c s' => String (f c) (map_chars f s')
  end.

Definition lower : string → string := map_chars lower_ascii.

Definition capitalize (s : string) : string :=
  match s with
  | "" => ""
  | String c s' => String (upper_ascii c) (lower s')
  end.

(** [s.replace(a, b)] for single characters. *)
Definition replace_char (a b : ascii) : string → string :=
  map_chars (λ c, if decide (c = a) then b else c).

(** [sep.join(l)]. *)
Fixpoint join (sep : string) (l : list string) : string :=
  match l with
  | [] => ""
  | [x] => x
  | x :: l' => x +:+ sep +:+ join sep l'
  end.

(** [''.join(l)]. *)
Definition concat (l : list string) : string := foldr String.app "" l.

(** [a <= b] on strings. *)
Definition leb (a b : string) : bool := String.leb a b.

End Str.

(** ** [list.sort]: a stable sort *)

Section Sort.
Context {A : Type}.

(** [le x y] decides [key x <= key y]; an element is put in front of the
    first element of the sorted tail that is not smaller, so elements with
    equal keys keep the order they had. *)
Fixpoint insert_by (le : A → A → bool) (x : A) (l : list A) : list A :=
  match l with
  | [] => [x]
  | y :: l' => if le x y then x :: y :: l' else y :: insert_by le x l'
  end.

Definition sort_by (le : A → A → bool) (l : list A) : list A :=
  foldr (insert_by le) [] l.

(** The order a sort by [le] yields on a list that was in the order [R]:
    by [le], and by [R] among the elements [le] does not tell apart. *)
Definition then_by (le : A → A → bool) (R : relation A) : relation A :=
  λ x y, le x y = true ∧ (le y x = true → R x y).

End Sort.

(** ** Entries *)

(** Modelled from the spec: the value class of [utils/osg.py], a value being
    [{text, optional comment}]; a value compares equal to a string when its
    text does, which is what [s in entry[field]] relies on. *)
Record Value := mkValue { value : string; comment : option string }.

Global Instance Value_eq_dec : EqDecision Value.
Proof. solve_decision. Defined.

(** The text of each value: [[x.value for x in l]]. *)
Definition values (l : list Value) : list string := value <$> l.

(** [s in l] for a string [s] and a list of values [l]. *)
Definition val_in (s : string) (l : list Value) : bool := bool_decide (s ∈ values l).

(** An entry is a dictionary. The fields of [constants.essential_fields] are
    in every entry and so is the [Building] dictionary, which
    [update_statistics] reads without a test; they are the fields of the
    record. The other fields that hold a list of values ([Media],
    [Inspirations], [Play], [Download], [Platform], [Code dependencies],
    [Assets license], [Developer]) are looked up in [optional]. *)
Record Entry := mkEntry {
  File : string;
  Title : string;
  Home : list Value;
  State : list Value;
  Keywords : list Value;
  Code_repository : list Value;
  Code_language : list Value;
  Code_license : list Value;
  optional : gmap string (list Value);
  Note : option string;
  Building : gmap string (list Value)
}.

Global Instance Entry_eq_dec : EqDecision Entry.
Proof. solve_decision. Defined.

Module c.

Definition essential_fields : list string :=
  ["File"; "Title"; "Home"; "State"; "Keywords"; "Code repository"; "Code language"; "Code license"].

Definition valid_platforms : list string :=
  ["Windows"; "Linux"; "macOS"; "Android"; "iOS"; "Web"].

Definition recommended_keywords : list string :=
  ["action"; "arcade"; "adventure"; "visual novel"; "sports"; "platform"; "puzzle"; "role playing";
   "simulation"; "strategy"; "cards"; "board"; "music"; "educational"; "tool"; "game engine";
   "framework"; "library"; "remake"].

Definition code_dependencies_aliases : list (string * list string) :=
  [("Simple DirectMedia Layer", ["SDL"; "SDL2"]);
   ("Simple and Fast Multimedia Library", ["SFML"]);
   ("Boost (C++ Libraries)", ["Boost"]);
   ("SGE Game Engine", ["SGE"]);
   ("MegaGlest", ["MegaGlest Engine"])].

(** The keys of [general_code_dependencies_without_entry], in the order of the literal. *)
Definition general_code_dependencies_without_entry : list string :=
  ["OpenGL"; "GLUT"; "WebGL"; "Unity"; ".NET"; "Vulkan"; "KDE Frameworks"; "jQuery"; "node.js";
   "GNU Guile"; "tkinter"].

(** Paths, relative to [root_path]. *)
Definition readme_file : string := "README.md".
Definition statistics_file : string := "statistics.md".

End c.

(** [k in entry]. *)
Definition has_field (e : Entry) (k : string) : bool :=
  if decide (k ∈ c.essential_fields) then true
  else if decide (k = "Building") then true
  else if decide (k = "Note") then bool_decide (is_Some (Note e))
  else bool_decide (is_Some (optional e !! k)).

(** [entry[k]] for an optional field known to be there, [entry.get(k, [])] otherwise. *)
Definition get_field (e : Entry) (k : string) : list Value := default [] (optional e !! k).

(** ** The world and the monad of the methods *)

Inductive exn :=
| RuntimeError (msg : string)
| TypeError (msg : string)
| ZeroDivisionError
| FileNotFoundError (path : string).

Global Instance exn_eq_dec : EqDecision exn.
Proof. solve_decision. Defined.

Inductive res (A : Type) :=
| Ok (a : A)
| Raise (e : exn).
Global Arguments Ok {A} a.
Global Arguments Raise {A} e.

Global Instance res_ret : MRet res := λ A a, Ok a.
Global Instance res_bind : MBind res := λ A B f m,
  match m with
  | Ok a => f a
  | Raise e => Raise e
  end.

(** [self.entries] ([None] until [read_entries] ran), the directory
    [entries/tocs] (file name to content), the other files (path below the
    root to content) and the lines printed so far. *)
Record World := mkWorld {
  entries : option (list Entry);
  tocs : gmap string string;
  files : gmap string string;
  stdout : list string
}.

Definition M (A : Type) : Type := World → res A * World.

Global Instance M_ret : MRet M := λ A a w, (Ok a, w).
Global Instance M_bind : MBind M := λ A B f m w,
  match m w with
  | (Ok a, w') => f a w'
  | (Raise e, w') => (Raise e, w')
  end.

Definition raise {A} (e : exn) : M A := λ w, (Raise e, w).
Definition lift {A} (r : res A) : M A := λ w, (r, w).

Definition print (line : string) : M unit :=
  λ w, (Ok (), mkWorld (entries w) (tocs w) (files w) (stdout w ++ [line])%list).

Definition get_entries : M (option (list Entry)) := λ w, (Ok (entries w), w).

Definition set_entries (l : list Entry) : M unit :=
  λ w, (Ok (), mkWorld (Some l) (tocs w) (files w) (stdout w)).

(** [utils.read_text] and [utils.write_text] on a file below the root. *)
Definition read_text (path : string) : M string :=
  λ w, match files w !! path with
       | Some t => (Ok t, w)
       | None => (Raise (FileNotFoundError path), w)
       end.

Definition write_text (path text : string) : M unit :=
  λ w, (Ok (), mkWorld (entries w) (tocs w) (<[path := text]> (files w)) (stdout w)).

(** [utils.write_text] on a file of [c.tocs_path]. *)
Definition write_toc (file text : string) : M unit :=
  λ w, (Ok (), mkWorld (entries w) (<[file := text]> (tocs w)) (files w) (stdout w)).

(** [for file in os.listdir(c.tocs_path): os.remove(...)]. *)
Definition remove_tocs : M unit :=
  λ w, (Ok (), mkWorld (entries w) ∅ (files w) (stdout w)).

(** Iterating over [self.entries]: [None] is not iterable. *)
Definition iter_entries : M (list Entry) :=
  λ w, match entries w with
       | Some l => (Ok l, w)
       | None => (Raise (TypeError "'NoneType' object is not iterable"), w)
       end.

(** [a / b] on integers. *)
Definition pydiv (a b : nat) : res Qc :=
  if decide (b = 0%nat) then Raise ZeroDivisionError
  else Ok (Qc_of_Z (Z.of_nat a) / Qc_of_Z (Z.of_nat b))%Qc.

(** [[f(x) for x in l]] where [f] may raise. *)
Fixpoint map_res {A B} (f : A → res B) (l : list A) : res (list B) :=
  match l with
  | [] => Ok []
  | x :: l' => y ← f x; ys ← map_res f l'; mret (y :: ys)
  end.

(** ** Regular expressions

    The fragment of [re] the maintainer uses, under [re.DOTALL]: literals,
    the lazy and the greedy [.*], sequence and capturing groups (not nested
    in one another's tail, so groups close in the order they open). The
    matcher backtracks the way [re] does: a continuation receives the rest
    of the input and the groups captured so far, and an alternative is
    tried when the continuation fails. *)

Module re.

Inductive regex :=
| Lit (s : string)
| AnyLazy
| AnyGreedy
| Seq (r1 r2 : regex)
| Group (r : regex).

(** What was read between the input [s] and its suffix [s']. *)
Fixpoint take (n : nat) (s : string) : string :=
  match n, s with
  | S n', String a s' => String a (take n' s')
  | _, _ => ""
  end.

Definition consumed (s s' : string) : string :=
  take (String.length s - String.length s') s.

Section Match.
Context {R : Type}.

(** [.*?]: the shortest text first. *)
Fixpoint lazy_any (s : string) (caps : list string)
    (k : string → list string → option R) : option R :=
  match k s caps with
  | Some x => Some x
  | None =>
      match s with
      | "" => None
      | String _ s' => lazy_any s' caps k
      end
  end.

(** [.*]: the longest text first. *)
Fixpoint greedy_any (s : string) (caps : list string)
    (k : string → list string → option R) : option R :=
  match s with
  | "" => k "" caps
  | String _ s' =>
      match greedy_any s' caps k with
      | Some x => Some x
      | None => k s caps
      end
  end.

Fixpoint rmatch (r : regex) (s : string) (caps : list string)
    (k : string → list string → option R) : option R :=
  match r with
  | Lit l =>
      match Str.strip_prefix l s with
      | Some s' => k s' caps
      | None => None
      end
  | AnyLazy => lazy_any s caps k
  | AnyGreedy => greedy_any s caps k
  | Seq r1 r2 => rmatch r1 s caps (λ s' caps', rmatch r2 s' caps' k)
  | Group r1 => rmatch r1 s caps (λ s' caps', k s' (caps' ++ [consumed s s'])%list)
  end.

End Match.

(** A match that starts at the beginning of [s]: its groups and the rest of the input. *)
Definition match_at (r : regex) (s : string) : option (list string * string) :=
  rmatch r s [] (λ s' caps, Some (caps, s')).

(** [regex.findall(s)]: the groups of the successive matches, each search
    starting where the last match ended (one character further after an
    empty match). The fuel bounds the number of searches. *)
Fixpoint findall_from (fuel : nat) (r : regex) (s : string) : list (list string) :=
  match fuel with
  | 0%nat => []
  | S fuel' =>
      match match_at r s with
      | Some (caps, rest) =>
          caps ::
          (if decide (String.length rest < String.length s)%nat
           then findall_from fuel' r rest
           else match s with
                | "" => []
                | String _ s' => findall_from fuel' r s'
                end)
      | None =>
          match s with
          | "" => []
          | String _ s' => findall_from fuel' r s'
          end
      end
  end.

Definition findall (r : regex) (s : string) : list (list string) :=
  findall_from (S (String.length s)) r s.

End re.

(** ** What the maintainer takes from outside

    The modules [utils/osg.py] and [utils/utils.py], the case folding of
    Unicode text, the formatting of floats, the clock and the iteration
    order of a [set] are not fixed by the two source files; the maintainer
    is modelled over any choice of them. *)

Class Env := {
  (** [str.casefold]. *)
  str_casefold : string → string;
  (** [osg.name_similarity], a score between 0 and 1. *)
  name_similarity : string → string → Qc;
  (** [osg.is_inactive] and [osg.extract_inactive_year]. *)
  is_inactive : Entry → bool;
  extract_inactive_year : Entry → Z;
  (** [osg.read_entries] and [osg.write_entries]. *)
  osg_read_entries : M (list Entry);
  osg_write_entries : list Entry → M unit;
  (** [list(set(l))]: the order in which a set of strings is iterated. *)
  pyset : list string → list string;
  (** ['{:.1f}'.format(x)]. *)
  format_1f : Qc → string;
  (** [datetime.datetime.now().strftime('%Y-%m-%d %H:%M:%S')]. *)
  now : string;
  (** What [clean_backlog], [update_html] and [update_repos] do once the
      entries are known to be loaded; these bodies are made of calls into
      [osg], [utils] and [json]. *)
  clean_backlog_body : list Entry → M unit;
  update_html_body : list Entry → M unit;
  update_repos_body : list Entry → M unit
}.

(** A set holds each element of the list once and nothing else. *)
Class EnvLaws `{Env} := {
  pyset_NoDup : ∀ l, NoDup (pyset l);
  pyset_elem : ∀ l x, x ∈ pyset l ↔ x ∈ l
}.

(** The order of [key=str.casefold]: the keys are compared by code point. *)
Definition casefold_leb `{Env} (a b : string) : bool := Str.leb (str_casefold a) (str_casefold b).

(** ** Tables of contents *)

(** [x.value for x in entry['Code language'] + entry['Code license'] + entry['State']]. *)
Definition toc_info (e : Entry) : list string :=
  values (Code_language e ++ Code_license e ++ State e)%list.

(** ['- **[{}]({})** ({})'.format(entry['Title'], '../' + entry['File'], ', '.join(info))]. *)
Definition toc_row (e : Entry) : string :=
  "- **[" +:+ Title e +:+ "](" +:+ ("../" +:+ File e) +:+ ")** (" +:+ Str.join ", " (toc_info e) +:+ ")".

Definition toc_text `{Env} (title : string) (es : list Entry) : string :=
  ("[comment]: # (autogenerated content, do not edit)" +:+ Str.nl +:+ "# " +:+ title +:+ Str.nl +:+ Str.nl)
  +:+ Str.join Str.nl (sort_by casefold_leb (toc_row <$> es)).

Definition create_toc `{Env} (title file : string) (es : list Entry) : M unit :=
  write_toc file (toc_text title es).

(** ['**[{}](entries/tocs/{}#{})** ({})'.format(title, file, anchor, n)]. *)
Definition toc_link (title file anchor : string) (n : nat) : string :=
  "**[" +:+ title +:+ "](entries/tocs/" +:+ file +:+ "#" +:+ anchor +:+ ")** (" +:+ pretty n +:+ ")".

(** [any([y in x['Keywords'] for y in ks])]. *)
Definition any_keyword (ks : list string) (e : Entry) : bool :=
  existsb (λ y, val_in y (Keywords e)) ks.

(** The four lists of [update_readme_tocs]. *)
Definition games (es : list Entry) : list Entry :=
  filter (λ x, negb (any_keyword ["tool"; "framework"; "library"] x) = true) es.
Definition tools (es : list Entry) : list Entry :=
  filter (λ x, val_in "tool" (Keywords x) = true) es.
Definition frameworks (es : list Entry) : list Entry :=
  filter (λ x, val_in "framework" (Keywords x) = true) es.
Definition libraries (es : list Entry) : list Entry :=
  filter (λ x, val_in "library" (Keywords x) = true) es.

Definition by_keyword (keyword : string) (es : list Entry) : list Entry :=
  filter (λ x, val_in keyword (Keywords x) = true) es.
Definition by_platform (platform : string) (es : list Entry) : list Entry :=
  filter (λ x, val_in platform (get_field x "Platform") = true) es.

(** The regular expression that cuts the readme in three. *)
Definition start_mark : string := "[comment]: # (start".
Definition end_mark : string := "end of autogenerated content)".

(** A group for the literal [m1], a lazy run of any characters and the
    literal [m2], then a group for a greedy run of any characters. *)
Definition region_and_rest (m1 m2 : string) : re.regex :=
  re.Seq (re.Group (re.Seq (re.Lit m1) (re.Seq re.AnyLazy (re.Lit m2)))) (re.Group re.AnyGreedy).

(** The pattern compiled with [re.DOTALL] in [update_readme_tocs]: a group
    for a lazy run of any characters, then the region and the rest. *)
Definition readme_regex : re.regex :=
  re.Seq (re.Group re.AnyLazy) (region_and_rest start_mark end_mark).

Definition start_line : string := "[comment]: # (start of autogenerated content, do not edit)".
Definition end_line : string := "[comment]: # (end of autogenerated content)".

(** The loop over [c.recommended_keywords]: the links, and the files written. *)
Definition category_file (keyword : string) : string :=
  "_" +:+ Str.replace_char " " "-" keyword +:+ ".md".
Definition category_link (es : list Entry) (keyword : string) : string :=
  toc_link (Str.capitalize keyword) (category_file keyword) (Str.replace_char " " "-" keyword)
    (length (by_keyword keyword es)).

Definition platform_file (platform : string) : string := "_" +:+ Str.lower platform +:+ ".md".
Definition platform_link (es : list Entry) (platform : string) : string :=
  toc_link platform (platform_file platform) (Str.lower platform) (length (by_platform platform es)).

(** [for x in l: body(x)]. *)
Fixpoint for_each {A} (l : list A) (body : A → M unit) : M unit :=
  match l with
  | [] => mret ()
  | x :: l' => _ ← body x; for_each l' body
  end.

(** The text put between the prefix and the suffix of the readme. *)
Definition tocs_text (es : list Entry) : string :=
  (toc_link "Games" "_games.md" "Games" (length (games es)) +:+ " - ") +:+
  (toc_link "Tools" "_tools.md" "Tools" (length (tools es)) +:+ " - ") +:+
  (toc_link "Frameworks" "_frameworks.md" "Frameworks" (length (frameworks es)) +:+ " - ") +:+
  (toc_link "Libraries" "_libraries.md" "Libraries" (length (libraries es)) +:+ Str.nl) +:+
  (Str.nl +:+ "By category: " +:+
     Str.join ", " (sort_by Str.leb (category_link es <$> c.recommended_keywords)) +:+ Str.nl) +:+
  (Str.nl +:+ "By platform: " +:+ Str.join ", " (platform_link es <$> c.valid_platforms) +:+ Str.nl).

Definition new_readme (start finish : string) (es : list Entry) : string :=
  start +:+ (start_line +:+ Str.nl) +:+ tocs_text es +:+ (Str.nl +:+ end_line) +:+ finish.

Definition update_readme_tocs `{Env} : M unit :=
  _ ← remove_tocs;
  readme_text ← read_text c.readme_file;
  let matches := re.findall readme_regex readme_text in
  if decide (length matches ≠ 1%nat) then raise (RuntimeError "readme file has invalid structure")
  else
    let m := default [] (matches !! 0%nat) in
    let start := default "" (m !! 0%nat) in
    let finish := default "" (m !! 2%nat) in
    es ← iter_entries;
    _ ← create_toc "Games" "_games.md" (games es);
    _ ← create_toc "Tools" "_tools.md" (tools es);
    _ ← create_toc "Frameworks" "_frameworks.md" (frameworks es);
    _ ← create_toc "Libraries" "_libraries.md" (libraries es);
    _ ← for_each c.recommended_keywords
          (λ keyword, create_toc (Str.capitalize keyword) (category_file keyword) (by_keyword keyword es));
    _ ← for_each c.valid_platforms
          (λ platform, create_toc platform (platform_file platform) (by_platform platform es));
    _ ← write_text c.readme_file (new_readme start finish es);
    print "Readme and TOCs updated".

(** ** The guard on [self.entries] *)

(** [not self.entries]: [None] and the empty list are both falsy. *)
Definition falsy (o : option (list Entry)) : bool :=
  match o with
  | None | Some [] => true
  | Some (_ :: _) => false
  end.

(** [if not self.entries: print('entries not yet loaded'); return], then the body. *)
Definition guarded (body : list Entry → M unit) : M unit :=
  o ← get_entries;
  if falsy o then print "entries not yet loaded"
  else body (default [] o).

Section Maintainer.
Context `{Env}.

Definition read_entries : M unit :=
  es ← osg_read_entries;
  _ ← set_entries es;
  print (pretty (length es) +:+ " entries read").

Definition write_entries : M unit :=
  guarded (λ es, _ ← osg_write_entries es; print "entries written").

Definition clean_backlog : M unit := guarded clean_backlog_body.
Definition update_html : M unit := guarded update_html_body.
Definition update_repos : M unit := guarded update_repos_body.

(** *** [special_ops] *)

(** [not x.comment]: no comment or an empty one. *)
Definition no_comment (v : Value) : bool :=
  match comment v with
  | None | Some "" => true
  | Some _ => false
  end.

Definition drop_default_download (e : Entry) : Entry :=
  if has_field e "Download" then
    match get_field e "Download" with
    | [v] =>
        if bool_decide (value v = "@see-home") && no_comment v
        then mkEntry (File e) (Title e) (Home e) (State e) (Keywords e) (Code_repository e)
               (Code_language e) (Code_license e) (delete "Download" (optional e)) (Note e) (Building e)
        else e
    | _ => e
    end
  else e.

Definition special_ops : M unit :=
  guarded (λ es, _ ← set_entries (drop_default_download <$> es); print "special ops finished").

(** *** Frequency tables *)

(** [l.count(x)]. *)
Definition count (x : string) (l : list string) : nat :=
  length (filter (λ y, y = x) l).

(** [[(l, vals.count(l) / len(vals)) for l in set(vals)]]. *)
Definition frequencies (vals : list string) : res (list (string * Qc)) :=
  map_res (λ l, q ← pydiv (count l vals) (length vals); mret (l, q)) (pyset vals).

(** [key=lambda x: str.casefold(x[0])]. *)
Definition by_name (x y : string * Qc) : bool := casefold_leb x.1 y.1.
(** [key=lambda x: x[1], reverse=True]. *)
Definition by_freq_reverse (x y : string * Qc) : bool := bool_decide (y.2 ≤ x.2)%Qc.
(** [key=lambda x: -x[1]]. *)
Definition by_neg_freq (x y : string * Qc) : bool := bool_decide (- x.2 ≤ - y.2)%Qc.

(** The two sorts, by name first and by occurrence second. *)
Definition frequency_table (second : string * Qc → string * Qc → bool)
    (vals : list string) : res (list (string * Qc)) :=
  t ← frequencies vals;
  mret (sort_by second (sort_by by_name t)).

(** ['- {} ({:.1f}%)'.format(x[0], x[1] * 100)]. *)
Definition percent (x : string * Qc) : Qc := (x.2 * Qc_of_Z 100)%Qc.
Definition frequency_line (x : string * Qc) : string :=
  "- " +:+ x.1 +:+ " (" +:+ format_1f (percent x) +:+ "%)".

(** The values each table is made of. *)
Definition collapse_multiplayer (x : string) : string :=
  if Str.startswith x "multiplayer" then "multiplayer" else x.

Definition languages (es : list Entry) : list string :=
  values (es ≫= Code_language).
Definition licenses (es : list Entry) : list string :=
  values (es ≫= Code_license).
Definition keywords (es : list Entry) : list string :=
  collapse_multiplayer <$> values (es ≫= Keywords).
Definition code_dependencies (es : list Entry) : list string :=
  values (es ≫= λ e, if has_field e "Code dependencies" then get_field e "Code dependencies" else []).
Definition build_systems (es : list Entry) : list string :=
  values (es ≫= λ e, default [] (Building e !! "Build system")).
Definition platforms (es : list Entry) : list string :=
  values (es ≫= λ e, if has_field e "Platform" then get_field e "Platform" else []).

Definition language_table (es : list Entry) := frequency_table by_freq_reverse (languages es).
Definition license_table (es : list Entry) := frequency_table by_neg_freq (licenses es).
Definition keyword_table (es : list Entry) := frequency_table by_neg_freq (keywords es).
Definition code_dependency_table (es : list Entry) := frequency_table by_neg_freq (code_dependencies es).
Definition build_system_table (es : list Entry) := frequency_table by_neg_freq (build_systems es).
Definition platform_table (es : list Entry) := frequency_table by_neg_freq (platforms es).

End Maintainer.

(** ** [update_statistics] *)

Section Statistics.
Context `{Env}.

(** [rel = lambda x: x / number_entries * 100]. *)
Definition rel (number_entries x : nat) : res Qc :=
  q ← pydiv x number_entries; mret (q * Qc_of_Z 100)%Qc.

(** [sum(1 for x in es if p(x))]. *)
Definition number_of (p : Entry → bool) (es : list Entry) : nat :=
  length (filter (λ x, p x = true) es).

(** The inactive entries, by title first and by year (latest first) second. *)
Definition entries_inactive (es : list Entry) : list string :=
  let l := (λ x, (Title x, extract_inactive_year x)) <$> filter (λ x, is_inactive x = true) es in
  let l := sort_by (λ x y : string * Z, casefold_leb x.1 y.1) l in
  let l := sort_by (λ x y : string * Z, bool_decide (y.2 ≤ x.2)%Z) l in
  (λ x : string * Z, x.1 +:+ " (" +:+ pretty x.2 +:+ ")") <$> l.

Definition state_section (es : list Entry) : res string :=
  let number_entries := length es in
  let number_state_beta := number_of (λ x, val_in "beta" (State x)) es in
  let number_state_mature := number_of (λ x, val_in "mature" (State x)) es in
  let number_inactive := number_of is_inactive es in
  rm ← rel number_entries number_state_mature;
  rb ← rel number_entries number_state_beta;
  ri ← rel number_entries number_inactive;
  mret (("## State" +:+ Str.nl +:+ Str.nl) +:+
        ("- mature: " +:+ pretty number_state_mature +:+ " (" +:+ format_1f rm +:+ "%)" +:+ Str.nl +:+
         "- beta: " +:+ pretty number_state_beta +:+ " (" +:+ format_1f rb +:+ "%)" +:+ Str.nl +:+
         "- inactive: " +:+ pretty number_inactive +:+ " (" +:+ format_1f ri +:+ "%)" +:+ Str.nl +:+ Str.nl) +:+
        (if decide (0 < number_inactive)%nat
         then ("##### Inactive State" +:+ Str.nl +:+ Str.nl) +:+ Str.join ", " (entries_inactive es)
              +:+ Str.nl +:+ Str.nl
         else "")).

(** Titles of the entries with neither a [Download] nor a [Play] field. *)
Definition without_download_or_play (es : list Entry) : list string :=
  sort_by casefold_leb
    (Title <$> filter (λ e, negb (has_field e "Download") && negb (has_field e "Play") = true) es).

Definition popular_code_repositories : list string :=
  ["github.com"; "gitlab.com"; "bitbucket.org"; "code.sf.net"; "code.launchpad.net"].

(** The flag [popular] after the two loops over the repositories of an entry. *)
Definition popular (e : Entry) : bool :=
  existsb (λ repo, existsb (λ popular_repo, Str.contains (value repo) popular_repo)
                     popular_code_repositories)
    (Code_repository e).

Definition not_on_popular_site (es : list Entry) : list string :=
  sort_by casefold_leb (Title <$> filter (λ e, negb (popular e) = true) es).

(** ['{}: '.format(len(l)) + ', '.join(l)]. *)
Definition counted_list (l : list string) : string :=
  (pretty (length l) +:+ ": ") +:+ Str.join ", " l.

Definition entries_with_code_dependency (es : list Entry) : nat :=
  number_of (λ e, has_field e "Code dependencies") es.

(** [field not in entry and ('C' in entry['Code language'] or 'C++' in
    entry['Code language'])], with [field = 'Build system']. *)
Definition c_cpp_project_without_build_system (es : list Entry) : list string :=
  sort_by casefold_leb
    (Title <$> filter (λ entry, negb (has_field entry "Build system") &&
                        (val_in "C" (Code_language entry) || val_in "C++" (Code_language entry)) = true) es).

(** The loop [for entry in entries] that follows runs over the local
    variable [entries], which by then is the list of titles computed for
    the section on code repositories. On a string, [field in entry] is a
    search for the text [Build system] and [entry[field]] raises. *)
Fixpoint c_cpp_project_not_cmake_loop (titles : list string) (acc : list string) : res (list string) :=
  match titles with
  | [] => Ok acc
  | entry :: titles' =>
      if Str.contains entry "Build system"
      then Raise (TypeError "string indices must be integers")
      else c_cpp_project_not_cmake_loop titles' acc
  end.

Definition c_cpp_project_not_cmake (es : list Entry) : res (list string) :=
  l ← c_cpp_project_not_cmake_loop (not_on_popular_site es) [];
  mret (sort_by casefold_leb l).

(** A table under its heading, one line per value. *)
Definition table_lines (t : list (string * Qc)) : list string := frequency_line <$> t.

(** The text of the statistics page. *)
Definition statistics_text (es : list Entry) : res string :=
  let number_entries := length es in
  let head := ("[comment]: # (autogenerated content, do not edit)" +:+ Str.nl +:+ "# Statistics" +:+ Str.nl +:+ Str.nl)
              +:+ ("analyzed " +:+ pretty number_entries +:+ " entries on " +:+ now +:+ Str.nl +:+ Str.nl) in
  st ← state_section es;
  tl ← language_table es;
  let s_lang := ("## Code Languages" +:+ Str.nl +:+ Str.nl) +:+ ("##### Language frequency" +:+ Str.nl +:+ Str.nl)
                +:+ Str.concat ((λ l, l +:+ Str.nl) <$> table_lines tl) +:+ Str.nl in
  tc ← license_table es;
  let s_lic := ("## Code licenses" +:+ Str.nl +:+ Str.nl) +:+ ("##### Licenses frequency" +:+ Str.nl +:+ Str.nl)
               +:+ Str.concat ((λ l, l +:+ Str.nl) <$> table_lines tc) +:+ Str.nl in
  tk ← keyword_table es;
  let s_kw := ("## Keywords" +:+ Str.nl +:+ Str.nl) +:+ ("##### Keywords frequency" +:+ Str.nl +:+ Str.nl)
              +:+ Str.join Str.nl (table_lines tk) +:+ Str.nl +:+ Str.nl in
  let s_nodl := ("## Entries without download or play fields" +:+ Str.nl +:+ Str.nl)
                +:+ counted_list (without_download_or_play es) +:+ Str.nl +:+ Str.nl in
  let s_repo := ("## Entries with a code repository not on a popular site" +:+ Str.nl +:+ Str.nl)
                +:+ counted_list (not_on_popular_site es) +:+ Str.nl +:+ Str.nl in
  rd ← rel number_entries (entries_with_code_dependency es);
  td ← code_dependency_table es;
  let s_dep := ("## Code dependencies" +:+ Str.nl +:+ Str.nl)
               +:+ ("With code dependency field " +:+ pretty (entries_with_code_dependency es) +:+ " ("
                    +:+ format_1f rd +:+ "%)" +:+ Str.nl +:+ Str.nl)
               +:+ ("##### Code dependencies frequency" +:+ Str.nl +:+ Str.nl)
               +:+ Str.join Str.nl (table_lines td) +:+ Str.nl +:+ Str.nl in
  rbs ← rel number_entries (length (build_systems es));
  tb ← build_system_table es;
  let s_bs := ("## Build systems" +:+ Str.nl +:+ Str.nl)
              +:+ ("Build systems information available for " +:+ format_1f rbs +:+ "% of all projects."
                   +:+ Str.nl +:+ Str.nl)
              +:+ ("##### Build systems frequency (" +:+ pretty (length (build_systems es)) +:+ ")" +:+ Str.nl +:+ Str.nl)
              +:+ Str.join Str.nl (table_lines tb) +:+ Str.nl +:+ Str.nl in
  let without := c_cpp_project_without_build_system es in
  let s_c1 := ("##### C and C++ projects without build system information (" +:+ pretty (length without) +:+ ")"
               +:+ Str.nl +:+ Str.nl) +:+ Str.join ", " without +:+ Str.nl +:+ Str.nl in
  not_cmake ← c_cpp_project_not_cmake es;
  let s_c2 := ("##### C and C++ projects with a build system different from CMake (" +:+ pretty (length not_cmake)
               +:+ ")" +:+ Str.nl +:+ Str.nl) +:+ Str.join ", " not_cmake +:+ Str.nl +:+ Str.nl in
  rp ← rel number_entries (length (platforms es));
  tp ← platform_table es;
  let s_pf := ("## Platform" +:+ Str.nl +:+ Str.nl)
              +:+ ("Platform information available for " +:+ format_1f rp +:+ "% of all projects." +:+ Str.nl +:+ Str.nl)
              +:+ ("##### Platforms frequency" +:+ Str.nl +:+ Str.nl)
              +:+ Str.join Str.nl (table_lines tp) +:+ Str.nl +:+ Str.nl in
  mret (head +:+ st +:+ s_lang +:+ s_lic +:+ s_kw +:+ s_nodl +:+ s_repo +:+ s_dep +:+ s_bs +:+ s_c1 +:+ s_c2 +:+ s_pf).

Definition update_statistics : M unit :=
  guarded (λ es,
    statistics ← lift (statistics_text es);
    _ ← write_text c.statistics_file statistics;
    print "statistics updated").

End Statistics.

(** ** [check_inconsistencies] *)

(** [(l[i], l[j])] for [i < j], in the order of the two nested loops. *)
Fixpoint pairs {A} (l : list A) : list (A * A) :=
  match l with
  | [] => []
  | x :: l' => (pair x <$> l') ++ pairs l'
  end%list.

(** [d[k]] on a dictionary literal. *)
Fixpoint assoc {V} (k : string) (d : list (string * V)) : option V :=
  match d with
  | [] => None
  | (k', v) :: d' => if decide (k = k') then Some v else assoc k d'
  end.

(** [d[k] += 1] if [k in d], [d[k] = 1] otherwise; the keys stay in the order they came. *)
Fixpoint incr (k : string) (d : list (string * nat)) : list (string * nat) :=
  match d with
  | [] => [(k, 1%nat)]
  | (k', n) :: d' => if decide (k = k') then (k', S n) :: d' else (k', n) :: incr k d'
  end.

Section Consistency.
Context `{Env}.

(** [b'first\xe2\x80\x90person'.decode()]. *)
Definition first_person : string :=
  "first" +:+ String "226"%char (String "128"%char (String "144"%char "person")).

(** The threshold on the similarity score. *)
Definition threshold : Qc := Q2Qc (8 # 10).

Definition unique_keywords (es : list Entry) : list string := pyset (keywords es).

(** The pairs the two nested loops report. *)
Definition similar_keywords (es : list Entry) : list (string * string) :=
  filter (λ p, (threshold < name_similarity p.1 p.2)%Qc) (pairs (unique_keywords es)).

Definition similar_line (es : list Entry) (p : string * string) : string :=
  " Keywords " +:+ p.1 +:+ " (" +:+ pretty (count p.1 (keywords es)) +:+ ") - " +:+
  p.2 +:+ " (" +:+ pretty (count p.2 (keywords es)) +:+ ") are similar".

(** The names a code dependency may have. *)
Definition names_of (entry : Entry) : list string :=
  if existsb (λ x, bool_decide (value x ∈ ["framework"; "library"; "game engine"])) (Keywords entry)
  then match assoc (Title entry) c.code_dependencies_aliases with
       | Some aliases => aliases
       | None => [Title entry]
       end
  else [].

Definition valid_dependencies (es : list Entry) : list string :=
  (c.general_code_dependencies_without_entry ++ (es ≫= names_of))%list.

Definition referenced_dependencies (es : list Entry) : list (string * nat) :=
  let all := foldl (λ d k, incr k d) [] (values (es ≫= λ entry, get_field entry "Code dependencies")) in
  let kept := filter (λ kv, kv.1 ∉ valid_dependencies es) all in
  sort_by (λ x y : string * nat, bool_decide (y.2 ≤ x.2)%nat) kept.

Definition dependency_line (dep : string * nat) : string :=
  dep.1 +:+ " (" +:+ pretty dep.2 +:+ ")".

(** The two messages of the last loop, for the entry of file [name]. *)
Definition no_platform_line (name : string) : string :=
  "Entry " +:+ Str.dq +:+ name +:+ Str.dq +:+ " has " +:+ Str.dq +:+ "Play" +:+ Str.dq
  +:+ " field but not " +:+ Str.dq +:+ "Platform" +:+ Str.dq +:+ " field, add it with "
  +:+ Str.dq +:+ "Web" +:+ Str.dq.

Definition no_web_line (name : string) : string :=
  "Entry " +:+ Str.dq +:+ name +:+ Str.dq +:+ " has " +:+ Str.dq +:+ "Play" +:+ Str.dq
  +:+ " field but not " +:+ Str.dq +:+ "Web" +:+ Str.dq +:+ " in " +:+ Str.dq +:+ "Platform"
  +:+ Str.dq +:+ " field".

(** What the last loop prints for one entry, if anything. *)
Definition play_finding (entry : Entry) : option string :=
  let name := File entry in
  if has_field entry "Play" then
    if negb (has_field entry "Platform") then Some (no_platform_line name)
    else if negb (val_in "Web" (get_field entry "Platform")) then Some (no_web_line name)
    else None
  else None.

Definition play_findings (es : list Entry) : list string :=
  omap play_finding es.

Definition check_inconsistencies : M unit :=
  guarded (λ es,
    _ ← for_each es (λ entry,
          if val_in first_person (Keywords entry) then print (File entry) else mret ());
    _ ← for_each (similar_keywords es) (λ p, print (similar_line es p));
    _ ← print "Code dependencies not included as entry";
    _ ← for_each (referenced_dependencies es) (λ dep, print (dependency_line dep));
    for_each es (λ entry,
      match play_finding entry with
      | Some line => print line
      | None => mret ()
      end)).

End Consistency.

(** ** Notions used to state the properties *)

(** The world after lines were printed and nothing else happened. *)
Definition printed_all (lines : list string) (w : World) : World :=
  mkWorld (entries w) (tocs w) (files w) (stdout w ++ lines)%list.

Definition printed (line : string) (w : World) : World := printed_all [line] w.

(** A computation that only writes tables of contents. *)
Definition writes_tocs_only (m : M unit) : Prop :=
  ∀ w, ∃ t, m w = (Ok (), mkWorld (entries w) t (files w) (stdout w)).

(** An entry sits in exactly one of the four primary lists. *)
Definition in_exactly_one_bucket (es : list Entry) (e : Entry) : Prop :=
  ((e ∈ tools es) ∧ (e ∉ frameworks es) ∧ (e ∉ libraries es) ∧ (e ∉ games es)) ∨
  ((e ∉ tools es) ∧ (e ∈ frameworks es) ∧ (e ∉ libraries es) ∧ (e ∉ games es)) ∨
  ((e ∉ tools es) ∧ (e ∉ frameworks es) ∧ (e ∈ libraries es) ∧ (e ∉ games es)) ∨
  ((e ∉ tools es) ∧ (e ∉ frameworks es) ∧ (e ∉ libraries es) ∧ (e ∈ games es)).

(** A text cut in three: what precedes the first [m1], the region from there
    up to the first [m2] after it, and the rest. *)
Definition split_at (m1 m2 s : string) : option (string * string * string) :=
  match Str.find_sub m1 s with
  | Some (before, t) =>
      match Str.find_sub m2 t with
      | Some (mid, after) => Some (before, m1 +:+ mid +:+ m2, after)
      | None => None
      end
  | None => None
  end.

(** The three parts [readme_regex] is expected to cut a readme in. *)
Definition split_region (s : string) : option (string * string * string) :=
  split_at start_mark end_mark s.

(** What follows [start_mark] on the start line, and what precedes [end_mark] on the end line. *)
Definition start_tail : string := " of autogenerated content, do not edit)".
Definition end_head : string := "[comment]: # (".

(** A readme with one region: the start line, a body, the end line, and no
    other place where a mark of the regular expression begins. *)
Definition one_region (readme before body after : string) : Prop :=
  readme = before +:+ start_line +:+ body +:+ end_line +:+ after ∧
  Str.count_sub start_mark readme = 1%nat ∧
  Str.count_sub end_mark readme = 1%nat.

(** An entry with a [Play] field and no [Web] among its platforms. *)
Definition violates_play_rule (e : Entry) : bool :=
  has_field e "Play" && negb (has_field e "Platform" && val_in "Web" (get_field e "Platform")).

(** A line that starts by naming the file of an entry. *)
Definition names_entry (e : Entry) (line : string) : Prop :=
  ∃ rest, line = "Entry " +:+ Str.dq +:+ File e +:+ Str.dq +:+ rest.

(** The entries written in C or C++. *)
Definition c_or_cpp (e : Entry) : bool :=
  val_in "C" (Code_language e) || val_in "C++" (Code_language e).

(** The six frequency tables: the second sort and the values of the field. *)
Definition table_fields `{Env} : list ((string * Qc → string * Qc → bool) * (list Entry → list string)) :=
  [(by_freq_reverse, languages); (by_neg_freq, licenses); (by_neg_freq, keywords);
   (by_neg_freq, code_dependencies); (by_neg_freq, build_systems); (by_neg_freq, platforms)].

(** Rows in the order of a frequency table: more frequent first, and among
    equally frequent values the smaller name, case folded, first. *)
Definition table_order `{Env} (x y : string * Qc) : Prop :=
  (y.2 < x.2)%Qc ∨ (x.2 = y.2 ∧ casefold_leb x.1 y.1 = true).

(** [sum(l)]. *)
Definition Qc_sum (l : list Qc) : Qc := foldr Qcplus 0%Qc l.
Definition total (l : list nat) : nat := foldr Nat.add 0%nat l.

(** The frequency of a value: its count over the number of values. *)
Definition frequency (vals : list string) (v : string) : Qc :=
  (Qc_of_Z (Z.of_nat (count v vals)) / Qc_of_Z (Z.of_nat (length vals)))%Qc.

(** The six frequency tables of the statistics page. *)
Inductive table := TLanguage | TLicense | TKeyword | TDependency | TBuildSystem | TPlatform.

(** The values an entry gives to the field of a table: the values of the
    field when the entry has it, a keyword that begins with [multiplayer]
    counting as [multiplayer]. *)
Definition values_of (t : table) (e : Entry) : list string :=
  match t with
  | TLanguage => value <$> Code_language e
  | TLicense => value <$> Code_license e
  | TKeyword =>
      (λ v, if Str.startswith (value v) "multiplayer" then "multiplayer" else value v) <$> Keywords e
  | TDependency => value <$> default [] (optional e !! "Code dependencies")
  | TBuildSystem => value <$> default [] (Building e !! "Build system")
  | TPlatform => value <$> default [] (optional e !! "Platform")
  end.

(** The values seen for the field of a table across all entries. *)
Definition values_seen (t : table) (es : list Entry) : list string := es ≫= values_of t.

(** The line of a value in a table of the page: its name and its share in percent. *)
Definition row_text `{Env} (row : string * Qc) : string :=
  "- " +:+ row.1 +:+ " (" +:+ format_1f (row.2 * Qc_of_Z 100)%Qc +:+ "%)".

(** A table as it stands in the page: its heading, an empty line and one
    line for each row. [n] is the number of values, which the heading of
    the build systems shows. *)
Definition table_heading (t : table) (n : nat) : string :=
  match t with
  | TLanguage => "##### Language frequency"
  | TLicense => "##### Licenses frequency"
  | TKeyword => "##### Keywords frequency"
  | TDependency => "##### Code dependencies frequency"
  | TBuildSystem => "##### Build systems frequency (" +:+ pretty n +:+ ")"
  | TPlatform => "##### Platforms frequency"
  end.

Definition table_body `{Env} (t : table) (rows : list (string * Qc)) : string :=
  match t with
  | TLanguage | TLicense => Str.concat ((λ row, row_text row +:+ Str.nl) <$> rows) +:+ Str.nl
  | _ => Str.join Str.nl (row_text <$> rows) +:+ Str.nl +:+ Str.nl
  end.

Definition table_in_page `{Env} (t : table) (n : nat) (rows : list (string * Qc)) : string :=
  table_heading t n +:+ Str.nl +:+ Str.nl +:+ table_body t rows.

(** A text stands in a page: the page is the text with something before it
    and something after it. *)
Definition stands_in (x page : string) : Prop := ∃ pre post, page = pre +:+ x +:+ post.

(** The lines [check_inconsistencies] prints ahead of the findings on [Play]. *)
Definition report_head `{Env} (es : list Entry) : list string :=
  (omap (λ entry, if val_in first_person (Keywords entry) then Some (File entry) else None) es
   ++ (similar_line es <$> similar_keywords es)
   ++ ["Code dependencies not included as entry"]
   ++ (dependency_line <$> referenced_dependencies es))%list.

(** * The rest of the maintainer *)

(** ** More of [str] *)

Module Text.

(** [s[n:]] for [n >= 0]. *)
Fixpoint drop (n : nat) (s : string) : string :=
  match n, s with
  | S n', String _ s' => drop n' s'
  | _, _ => s
  end.

(** [s[:-n]] for [n > 0]. *)
Definition drop_end (n : nat) (s : string) : string :=
  re.take (String.length s - n) s.

(** [s.endswith(x)]. *)
Definition endswith (s x : string) : bool :=
  bool_decide (String.length x ≤ String.length s)%nat
  && bool_decide (drop (String.length s - String.length x) s = x).

(** [s.split(sep)] for a separator of one character: never the empty list. *)
Fixpoint split (sep : ascii) (s : string) : list string :=
  match s with
  | "" => [""]
  | String a s' =>
      if decide (a = sep) then "" :: split sep s'
      else match split sep s' with
           | [] => [String a ""]
           | x :: l => String a x :: l
           end
  end.

(** The ASCII white space. *)
Definition is_space (a : ascii) : bool :=
  let n := nat_of_ascii a in
  bool_decide (9 ≤ n ≤ 13)%nat || bool_decide (28 ≤ n ≤ 32)%nat.

Fixpoint lstrip (s : string) : string :=
  match s with
  | "" => ""
  | String a s' => if is_space a then lstrip s' else s
  end.

(** A character stays when it is no space or something stays after it. *)
Fixpoint rstrip (s : string) : string :=
  match s with
  | "" => ""
  | String a s' =>
      match rstrip s' with
      | "" => if is_space a then "" else String a ""
      | r => String a r
      end
  end.

(** The text without the ASCII white space at its ends. It stands for
    [str.strip] in the sample data, whose white space is ASCII. *)
Definition strip_ascii (s : string) : string := rstrip (lstrip s).

(** [s.index(sub, start)]: the first position at or after [start] where
    [sub] begins; [None] stands for the [ValueError]. *)
Definition index_from (sub : string) (start : nat) (s : string) : option nat :=
  match Str.find_sub sub (drop start s) with
  | Some (before, _) => Some (start + String.length before)%nat
  | None => None
  end.

(** [os.path.basename(p)] with [/] as the separator. *)
Definition basename (p : string) : string :=
  default "" (last (split "/" p)).

End Text.


(** ** Notions for the properties of the generated files *)

(** The rows of a table of contents, in the order they are written. *)
Definition toc_rows `{Env} (es : list Entry) : list string :=
  sort_by casefold_leb (toc_row <$> es).

(** The calls of [create_toc] in [update_readme_tocs], in order: file and text. *)
Definition toc_files `{Env} (es : list Entry) : list (string * string) :=
  ([("_games.md", toc_text "Games" (games es));
    ("_tools.md", toc_text "Tools" (tools es));
    ("_frameworks.md", toc_text "Frameworks" (frameworks es));
    ("_libraries.md", toc_text "Libraries" (libraries es))]
   ++ ((λ keyword, (category_file keyword, toc_text (Str.capitalize keyword) (by_keyword keyword es)))
         <$> c.recommended_keywords)
   ++ ((λ platform, (platform_file platform, toc_text platform (by_platform platform es)))
         <$> c.valid_platforms))%list.

(** Writing files one after the other into a directory. *)
Definition write_all (l : list (string * string)) (dir : gmap string string) : gmap string string :=
  foldl (λ m p, <[p.1 := p.2]> m) dir l.

(** The names of the tables of contents; they do not depend on the entries. *)
Definition toc_file_names : list string :=
  (["_games.md"; "_tools.md"; "_frameworks.md"; "_libraries.md"]
   ++ (category_file <$> c.recommended_keywords)
   ++ (platform_file <$> c.valid_platforms))%list.


(** Every value of [Code dependencies] in the store. *)
Definition all_code_dependencies (es : list Entry) : list string :=
  values (es ≫= λ entry, get_field entry "Code dependencies").

(** An entry whose [Download] field is the single value [@see-home] without a comment. *)
Definition is_default_download (e : Entry) : bool :=
  match optional e !! "Download" with
  | Some [v] => bool_decide (value v = "@see-home") && no_comment v
  | _ => false
  end.


(** ** [sort_text_file] and [clean_rejected] *)

(** The lines of a text file, as [text.split('\n')] gives them. *)
Definition lines (text : string) : list string := Text.split "010" text.

(** [sorted(list(set(text)), key=str.casefold)]. *)
Definition sorted_unique `{Env} (l : list string) : list string :=
  sort_by casefold_leb (pyset l).

Definition sort_text_file `{Env} (file name : string) : M unit :=
  text ← read_text file;
  let text := sorted_unique (lines text) in
  _ ← print (name +:+ " contains " +:+ pretty (length text) +:+ " items");
  write_text file (Str.join Str.nl text).

Definition rejected_file : string := "code/rejected.txt".
Definition backlog_file : string := "code/backlog.txt".

Definition clean_rejected `{Env} : M unit :=
  sort_text_file rejected_file "rejected games list".

(** A string without the character [a]. *)
Fixpoint free_of (a : ascii) (s : string) : Prop :=
  match s with
  | "" => True
  | String b s' => b ≠ a ∧ free_of a s'
  end.


(** ** The links [check_external_links] checks *)

Definition startswith_any (url : string) (prefixes : list string) : bool :=
  existsb (Str.startswith url) prefixes.

Definition ignored_urls : list string :=
  ["https://git.tukaani.org/xz.git"; "https://git.code.sf.net/"; "http://hg.hedgewars.org/hedgewars/";
   "https://git.xiph.org/vorbis.git"; "http://svn.uktrainsim.com/svn/openrails"; "https://www.srb2.org/";
   "http://wiki.srb2.org/"].

Definition slash_prefixes : list string :=
  ["https://anongit.freedesktop.org/git"; "https://git.savannah.gnu.org/git/";
   "https://git.savannah.nongnu.org/git/"; "https://git.artsoft.org/"].

Definition keep_git_prefixes : list string :=
  ["https://repo.or.cz"; "https://git.tuxfamily.org/fanwor/fanwor"].

(** What the loop over the matches does to one link before it is recorded;
    [None] when the link is left out. *)
Definition normalize_link (url : string) : option string :=
  if bool_decide (url ≠ "") && negb (startswith_any url ignored_urls) then
    if Str.contains url "bzr.sourceforge.net/bzrroot/" then None
    else
      let url := if startswith_any url slash_prefixes then url +:+ "/" else url in
      let url := if Str.startswith url "https://bitbucket.org/" && Text.endswith url ".git"
                 then Text.drop_end 4 url +:+ "/commits/" else url in
      let url := if Str.startswith url "https://svn.code.sf.net/p/"
                 then "http" +:+ Text.drop 5 url +:+ "/" else url in
      let url := if Str.startswith url "http://cvs.savannah.nongnu.org:/sources/"
                 then "http://cvs.savannah.nongnu.org/viewvc/" +:+ Text.drop 40 url +:+ "/" else url in
      let url := if Str.startswith url "http://cvs.savannah.gnu.org:/sources/"
                 then "http://cvs.savannah.gnu.org/viewvc/" +:+ Text.drop 37 url +:+ "/" else url in
      let url := if Text.endswith url ".git" && negb (startswith_any url keep_git_prefixes)
                 then Text.drop_end 4 url else url in
      Some url
  else None.

(** The prefixes a rule of [normalize_link] looks for. *)
Definition special_prefixes : list string :=
  (ignored_urls ++ slash_prefixes
   ++ ["https://bitbucket.org/"; "https://svn.code.sf.net/p/";
       "http://cvs.savannah.nongnu.org:/sources/"; "http://cvs.savannah.gnu.org:/sources/"]
   ++ keep_git_prefixes)%list.

(** The message for a redirect from [url] to [redirected_url]. *)
Definition redirect_kind (url redirected_url : string) : string :=
  if bool_decide (redirected_url = url +:+ "/") then " - redirect " +:+ Str.dq +:+ "/" +:+ Str.dq +:+ " at end "
  else if bool_decide (redirected_url = "https" +:+ Text.drop 4 url)
       then " - redirect " +:+ Str.dq +:+ "https" +:+ Str.dq +:+ " at start"
       else " - redirect ".


(** ** Regular expressions with character classes

    The patterns of [clean_backlog] are not compiled with [re.DOTALL]: a dot
    stands for any character but the line feed. The matcher is the one of
    [re] with a lazy repetition of a class of characters. *)

Module rex.

Inductive regex :=
| Lit (s : string)
| LazyStar (cls : ascii → bool)
| Seq (r1 r2 : regex)
| Group (r : regex).

(** The dot outside [re.DOTALL]. *)
Definition dot (a : ascii) : bool := negb (bool_decide (a = "010"%char)).

Section Match.
Context {R : Type}.

Fixpoint lazy_star (cls : ascii → bool) (s : string) (caps : list string)
    (k : string → list string → option R) : option R :=
  match k s caps with
  | Some x => Some x
  | None =>
      match s with
      | "" => None
      | String a s' => if cls a then lazy_star cls s' caps k else None
      end
  end.

Fixpoint rmatch (r : regex) (s : string) (caps : list string)
    (k : string → list string → option R) : option R :=
  match r with
  | Lit l =>
      match Str.strip_prefix l s with
      | Some s' => k s' caps
      | None => None
      end
  | LazyStar cls => lazy_star cls s caps k
  | Seq r1 r2 => rmatch r1 s caps (λ s' caps', rmatch r2 s' caps' k)
  | Group r1 => rmatch r1 s caps (λ s' caps', k s' (caps' ++ [re.consumed s s'])%list)
  end.

End Match.

Definition match_at (r : regex) (s : string) : option (list string * string) :=
  rmatch r s [] (λ s' caps, Some (caps, s')).

Fixpoint findall_from (fuel : nat) (r : regex) (s : string) : list (list string) :=
  match fuel with
  | 0%nat => []
  | S fuel' =>
      match match_at r s with
      | Some (caps, rest) =>
          caps ::
          (if decide (String.length rest < String.length s)%nat
           then findall_from fuel' r rest
           else match s with
                | "" => []
                | String _ s' => findall_from fuel' r s'
                end)
      | None =>
          match s with
          | "" => []
          | String _ s' => findall_from fuel' r s'
          end
      end
  end.

(** [regex.findall(s)] for a pattern with one group: the text of the group. *)
Definition findall (r : regex) (s : string) : list string :=
  (λ caps, default "" (caps !! 0%nat)) <$> findall_from (S (String.length s)) r s.

End rex.

(** ** What the rest of the maintainer takes from outside *)

Class Helpers := {
  (** [str.strip]: the text without the white space at its ends. *)
  str_strip : string → string;
  (** The keys of [osg.all_urls(entries)], in the order of the dictionary. *)
  osg_all_urls : list Entry → list string;
  (** [utils.strip_url]. *)
  utils_strip_url : string → string;
  (** [osg.git_repo], [osg.svn_repo] and [osg.hg_repo]: the address when the
      repository is recognised, [None] for a falsy result. *)
  osg_git_repo : string → option string;
  osg_svn_repo : string → option string;
  osg_hg_repo : string → option string;
  (** [json.dumps(d, indent=1)] on a dictionary of lists and on a list. *)
  json_dumps_dict : list (string * list string) → string;
  json_dumps_list : list string → string;
  (** [osg.entry_iterator()]: for each entry file its name, path and content. *)
  osg_entry_iterator : list (string * string * string)
}.

(** ** Exceptions beyond those of the claims *)

Inductive exn2 :=
| Builtin (e : exn)
| ValueError (msg : string).

Definition M2 (A : Type) : Type := World → (exn2 + A) * World.

Global Instance M2_ret : MRet M2 := λ A a w, (inr a, w).
Global Instance M2_bind : MBind M2 := λ A B f m w,
  match m w with
  | (inr a, w') => f a w'
  | (inl e, w') => (inl e, w')
  end.

Definition raise2 {A} (e : exn2) : M2 A := λ w, (inl e, w).

Definition lift2 {A} (m : M A) : M2 A := λ w,
  match m w with
  | (Ok a, w') => (inr a, w')
  | (Raise e, w') => (inl (Builtin e), w')
  end.

(** ** [clean_backlog] past its guard *)

(** The addresses between parentheses in the file of rejected entries. *)
Definition rejected_regex : rex.regex :=
  rex.Seq (rex.Lit "(")
    (rex.Seq (rex.Group (rex.Seq (rex.Lit "http") (rex.LazyStar rex.dot))) (rex.Lit ")")).

Definition rejected_urls `{Helpers} (text : string) : list string :=
  rex.findall rejected_regex text ≫= λ m, str_strip <$> Text.split "," m.

(** [url[url.index('http', 5):]]; [None] stands for the [ValueError]. *)
Definition original_url (url : string) : option string :=
  match Text.index_from "http" 5 url with
  | Some i => Some (Text.drop i url)
  | None => None
  end.

(** The loop that collects the original address of each archive link. *)
Fixpoint more_urls (included_urls : list string) : option (list string) :=
  match included_urls with
  | [] => Some []
  | url :: l =>
      if Str.startswith url "https://web.archive.org/web" then
        match original_url url with
        | Some u =>
            match more_urls l with
            | Some more => Some (u :: more)
            | None => None
            end
        | None => None
        end
      else more_urls l
  end.

Section Backlog.
Context `{Env} `{Helpers}.

(** The lines of the backlog that stay, before they are sorted. *)
Definition backlog_kept (included_urls : list string) (text : string) : list string :=
  filter (λ x, utils_strip_url x ∉ utils_strip_url <$> included_urls) (lines text).

Definition clean_backlog_steps (es : list Entry) : M2 unit :=
  text ← lift2 (read_text rejected_file);
  let included_urls := (osg_all_urls es ++ rejected_urls text)%list in
  match more_urls included_urls with
  | None => raise2 (ValueError "substring not found")
  | Some more =>
      let included_urls := (included_urls ++ more)%list in
      text ← lift2 (read_text backlog_file);
      let text := sorted_unique (backlog_kept included_urls text) in
      _ ← lift2 (print ("backlog contains " +:+ pretty (length text) +:+ " items"));
      _ ← lift2 (write_text backlog_file (Str.join Str.nl text));
      lift2 (print "backlog cleaned")
  end.

End Backlog.


(** ** [update_repos] past its guard, and [collect_git_repos] *)

(** [repo.split(' ')[0].strip()]. *)
Definition repo_address `{Helpers} (repo : string) : string :=
  str_strip (default "" (head (Text.split " " repo))).

(** The repositories of an entry that are looked at: the first one and the
    others marked [@add]. *)
Definition considered_repos `{Helpers} (entry : Entry) : list string :=
  match values (Code_repository entry) with
  | [] => []
  | first :: others =>
      repo_address <$> (first :: filter (λ x, Str.contains x "@add" = true) others)
  end.

Inductive repo_kind :=
| Git (url : string)
| Svn (url : string)
| Hg (url : string)
| Unconsumed.

Definition archive_domains : list string :=
  ["repo.or.cz"; "anongit.kde.org"; "bitbucket.org"; "git.code.sf.net"; "git.savannah"; "git.tuxfamily";
   "github.com"; "gitlab.com"; "gitlab.com/osgames"; "gitlab.gnome.org"].

Definition archives_file : string := "code/archives.json".
Definition git_repositories_file : string := "code/git_repositories.json".

Section Repos.
Context `{Env} `{Helpers}.

(** The three recognisers, tried in the order of the source. *)
Definition classify (repo : string) : repo_kind :=
  match osg_git_repo repo with
  | Some url => Git url
  | None =>
      match osg_svn_repo repo with
      | Some url => Svn url
      | None =>
          match osg_hg_repo repo with
          | Some url => Hg url
          | None => Unconsumed
          end
      end
  end.

(** Every repository looked at, with the entry it belongs to. *)
Definition repos_of_store (es : list Entry) : list (Entry * string) :=
  es ≫= λ entry, (λ repo, (entry, repo)) <$> considered_repos entry.

(** [sorted(set(v))]. *)
Definition sorted_set (v : list string) : list string := sort_by Str.leb (pyset v).

Definition git_urls (es : list Entry) : list string :=
  sorted_set (omap (λ p, match classify p.2 with Git url => Some url | _ => None end) (repos_of_store es)).
Definition svn_urls (es : list Entry) : list string :=
  sorted_set (omap (λ p, match classify p.2 with Svn url => Some url | _ => None end) (repos_of_store es)).
Definition hg_urls (es : list Entry) : list string :=
  sorted_set (omap (λ p, match classify p.2 with Hg url => Some url | _ => None end) (repos_of_store es)).

Definition unconsumed_line (p : Entry * string) : string :=
  "Entry " +:+ Str.dq +:+ File p.1 +:+ Str.dq +:+ " unconsumed repo: " +:+ p.2.

Definition unconsumed_lines (es : list Entry) : list string :=
  omap (λ p, match classify p.2 with Unconsumed => Some (unconsumed_line p) | _ => None end)
    (repos_of_store es).

(** ['{} on {}'.format(sum(1 if domain in x else 0 for x in git_repos), domain)]. *)
Definition domain_line (git_repos : list string) (domain : string) : string :=
  pretty (length (filter (λ x, Str.contains x domain = true) git_repos)) +:+ " on " +:+ domain.

Definition update_repos_steps (es : list Entry) : M unit :=
  _ ← for_each (repos_of_store es) (λ p,
        match classify p.2 with
        | Unconsumed => print (unconsumed_line p)
        | _ => mret ()
        end);
  let git_repos := git_urls es in
  _ ← print (pretty (length git_repos) +:+ " Git repositories");
  _ ← for_each archive_domains (λ domain, print (domain_line git_repos domain));
  _ ← write_text archives_file
        (json_dumps_dict [("git", git_repos); ("svn", svn_urls es); ("hg", hg_urls es)]);
  print "Repositories updated".

(** The addresses [collect_git_repos] keeps: every repository of every
    entry that [osg.git_repo] recognises, as it is written in the entry. *)
Definition collected_git_repos (es : list Entry) : list string :=
  sorted_unique
    (filter (λ repo, is_Some (osg_git_repo repo))
       (repo_address <$> values (es ≫= Code_repository))).

Definition collect_git_repos : M unit :=
  es ← iter_entries;
  write_text git_repositories_file (json_dumps_list (collected_git_repos es)).

(** ** [check_template_leftovers] *)

Definition template_file : string := "template.md".

(** [[x for x in text if x and not x.startswith('##')]]. *)
Definition check_strings (template : string) : list string :=
  filter (λ x, x ≠ "" ∧ Str.startswith x "##" = false) (lines template).

(** ['{}: found {}'.format(os.path.basename(entry_path), check_string)]. *)
Definition leftover_line (entry_path check_string : string) : string :=
  Text.basename entry_path +:+ ": found " +:+ check_string.

(** The findings for one entry file. *)
Definition leftovers_of (strings : list string) (item : string * string * string) : list string :=
  leftover_line item.1.2 <$> filter (λ s, Str.contains item.2 s = true) strings.

Definition check_template_leftovers : M unit :=
  text ← read_text template_file;
  let strings := check_strings text in
  _ ← for_each osg_entry_iterator (λ item,
        for_each strings (λ check_string,
          if Str.contains item.2 check_string then print (leftover_line item.1.2 check_string)
          else mret ()));
  print "checked for template leftovers".

End Repos.

(** ** Sample data *)

Module Sample.

Definition V (s : string) : Value := mkValue s None.

(** Scores the similarity by the lengths only; enough to run the maintainer. *)
Global Instance env : Env := {|
  str_casefold := Str.lower;
  name_similarity := λ a b,
    if decide (String.length a - String.length b ≤ 1 ∧ String.length b - String.length a ≤ 1)%nat
    then Q2Qc (9 # 10) else Q2Qc (1 # 10);
  is_inactive := λ e, val_in "inactive" (State e);
  extract_inactive_year := λ _, 2015%Z;
  osg_read_entries := mret [];
  osg_write_entries := λ _, mret ();
  pyset := remove_dups;
  format_1f := λ q, pretty (Qnum (this q)) +:+ "/" +:+ pretty (Z.pos (Qden (this q)));
  now := "2020-01-01 00:00:00";
  clean_backlog_body := λ _, mret ();
  update_html_body := λ _, mret ();
  update_repos_body := λ _, mret ()
|}.

(** A tool that is also a framework, written in C with Make. *)
Definition toolkit : Entry :=
  mkEntry "toolkit.md" "Toolkit" [V "https://toolkit.example.org"] [V "mature"]
    [V "tool"; V "framework"] [V "https://github.com/example/toolkit.git"]
    [V "C"] [V "MIT"] ∅ None {[ "Build system" := [V "Make"] ]}.

(** A browser game with a [Play] field and no [Platform] field. *)
Definition browser_game : Entry :=
  mkEntry "browser_game.md" "Browser Game" [V "https://game.example.org"] [V "beta"]
    [V "puzzle"; V "multiplayer online"] [V "https://gitlab.com/example/game.git"]
    [V "JavaScript"] [V "GPL-3.0"] {[ "Play" := [V "https://game.example.org/play"] ]} None ∅.

(** A game that plays on the web and says so. *)
Definition web_game : Entry :=
  mkEntry "web_game.md" "Web Game" [V "https://web.example.org"] [V "mature"]
    [V "puzzles"; V "multiplayer hotseat"] [V "https://web.example.org/src"]
    [V "C++"; V "Lua"] [V "MIT"]
    {[ "Play" := [V "https://web.example.org/play"]; "Platform" := [V "Web"; V "Linux"] ]} None ∅.

Definition store : list Entry := [toolkit; browser_game; web_game].

Definition readme : string :=
  "# Open Source Games" +:+ Str.nl +:+ start_line +:+ Str.nl +:+ "old" +:+ Str.nl +:+ end_line
  +:+ Str.nl +:+ "A collection".

(** The same readme with a second region after the first. *)
Definition readme_twice : string :=
  readme +:+ Str.nl +:+ start_line +:+ Str.nl +:+ "second" +:+ Str.nl +:+ end_line +:+ Str.nl.

(** A readme with one start line and one end line, in which the start mark
    of the regular expression also begins an earlier line. *)
Definition readme_stray : string :=
  "# Open Source Games" +:+ Str.nl +:+ "[comment]: # (start here)" +:+ Str.nl +:+ "KEEP ME" +:+ Str.nl
  +:+ start_line +:+ Str.nl +:+ "old" +:+ Str.nl +:+ end_line +:+ Str.nl +:+ "A collection".

Definition world (o : option (list Entry)) (text : string) : World :=
  mkWorld o {[ "_games.md" := "stale" ]} {[ c.readme_file := text ]} [].

End Sample.

(** ** More sample data *)

Module Sample2.

(** Recognises a repository by the end of its address, strips a final
    slash from an address, and takes the home pages for the addresses of
    an entry. *)
Global Instance helpers : Helpers := {|
  str_strip := Text.strip_ascii;
  osg_all_urls := λ es, values (es ≫= Home);
  utils_strip_url := λ url, if Text.endswith url "/" then Text.drop_end 1 url else url;
  osg_git_repo := λ repo, if Text.endswith repo ".git" then Some repo else None;
  osg_svn_repo := λ repo, if Str.startswith repo "svn://" then Some repo else None;
  osg_hg_repo := λ repo, if Str.contains repo "/hg/" then Some repo else None;
  json_dumps_dict := λ d, Str.join Str.nl ((λ kv, kv.1 +:+ ": " +:+ Str.join ", " kv.2) <$> d);
  json_dumps_list := Str.join ", ";
  osg_entry_iterator :=
    [("a", "entries/a.md", "# A" +:+ Str.nl +:+ "- Home: https://a.example.org");
     ("b", "entries/b.md", "# B" +:+ Str.nl +:+ "_Description_")]
|}.

Definition rejected : string := "- Old game (https://web.archive.org/web/2015/http://old.example.org): gone".
Definition backlog : string :=
  "https://new.example.org" +:+ Str.nl +:+ "http://old.example.org/" +:+ Str.nl +:+ "https://toolkit.example.org/".

Definition world : World :=
  mkWorld (Some Sample.store) ∅
    {[ rejected_file := rejected; backlog_file := backlog;
       template_file := "# {NAME}" +:+ Str.nl +:+ Str.nl +:+ "_Description_" +:+ Str.nl +:+ "## Building" ]} [].

End Sample2.


(** ** A notion for the second run of [update_readme_tocs] *)

(** No letter [d] of the text is followed by a space or ends the text; the
    end mark, which begins with [end of], can then not begin in it. *)
Fixpoint d_closed (s : string) : bool :=
  match s with
  | "" => true
  | String a s' =>
      if decide (a = "d"%char) then
        match s' with
        | "" => false
        | String b _ => negb (bool_decide (b = " "%char)) && d_closed s'
        end
      else d_closed s'
  end.

(** What a link to a table of contents starts with, up to the number. *)
Definition link_head (title file anchor : string) : string :=
  "**[" +:+ title +:+ "](entries/tocs/" +:+ file +:+ "#" +:+ anchor +:+ ")** (".

(** * Properties *)

(** ** Strings *)

Lemma app_cons a s t : String a s +:+ t = String a (s +:+ t).
Proof. reflexivity. Qed.

Lemma app_empty_l s : "" +:+ s = s.
Proof. reflexivity. Qed.

Lemma app_empty_r s : s +:+ "" = s.
Proof. induction s as [|a s IH]; [done|]. by rewrite app_cons, IH. Qed.

Lemma str_app_assoc s t u : (s +:+ t) +:+ u = s +:+ t +:+ u.
Proof. induction s as [|a s IH]; [done|]. by rewrite !app_cons, IH. Qed.

Lemma length_str_app s t : String.length (s +:+ t) = (String.length s + String.length t)%nat.
Proof. induction s as [|a s IH]; [done|]. rewrite app_cons. simpl. by rewrite IH. Qed.

Lemma strip_prefix_app m r : Str.strip_prefix m (m +:+ r) = Some r.
Proof.
  induction m as [|a m IH]; [done|]. rewrite app_cons. simpl.
  by rewrite decide_True.
Qed.

Lemma strip_prefix_Some m s r : Str.strip_prefix m s = Some r → s = m +:+ r.
Proof.
  revert s. induction m as [|a m IH]; intros s; simpl; [by intros [= ->]|].
  destruct s as [|b s]; [done|]. destruct (decide (a = b)) as [->|]; [|done].
  intros ->%IH. by rewrite app_cons.
Qed.

Lemma find_sub_unfold m s :
  Str.find_sub m s =
  match Str.strip_prefix m s with
  | Some rest => Some ("", rest)
  | None =>
      match s with
      | "" => None
      | String c s' =>
          match Str.find_sub m s' with
          | Some (a, b) => Some (String c a, b)
          | None => None
          end
      end
  end.
Proof. by destruct s. Qed.

Lemma find_sub_Some m s a b : Str.find_sub m s = Some (a, b) → s = a +:+ m +:+ b.
Proof.
  revert a. induction s as [|c s IH]; intros a; rewrite find_sub_unfold.
  - destruct (Str.strip_prefix m "") eqn:E; [|done].
    intros [= <- <-]. rewrite app_empty_l. by apply strip_prefix_Some.
  - destruct (Str.strip_prefix m (String c s)) eqn:E.
    + intros [= <- <-]. rewrite app_empty_l. by apply strip_prefix_Some.
    + destruct (Str.find_sub m s) as [[a' b']|] eqn:E'; [|done].
      intros [= <- <-]. rewrite app_cons. f_equal. by apply IH.
Qed.

Lemma find_sub_None_tail m c s : Str.find_sub m (String c s) = None → Str.find_sub m s = None.
Proof.
  rewrite (find_sub_unfold m (String c s)).
  destruct (Str.strip_prefix m (String c s)); [done|].
  by destruct (Str.find_sub m s) as [[??]|].
Qed.

Lemma find_sub_None_suffix m a s : Str.find_sub m (a +:+ s) = None → Str.find_sub m s = None.
Proof.
  induction a as [|c a IH]; [done|]. rewrite app_cons.
  intros ?%find_sub_None_tail. auto.
Qed.

(** Of two suffixes of a string the shorter is a suffix of the longer. *)
Lemma suffix_shorter a b t t' :
  a +:+ t = b +:+ t' → (String.length t' ≤ String.length t)%nat → ∃ d, t = d +:+ t'.
Proof.
  revert b. induction a as [|c a IH]; intros b.
  - rewrite app_empty_l. intros -> _. by exists b.
  - destruct b as [|c' b].
    + rewrite app_empty_l. intros <-. rewrite app_cons. simpl. rewrite length_str_app. lia.
    + rewrite !app_cons. intros [= -> Heq]. eauto.
Qed.

Lemma take_app a b : re.take (String.length a) (a +:+ b) = a.
Proof.
  induction a as [|c a IH]; [by destruct b|].
  rewrite app_cons. cbn [String.length re.take]. by rewrite IH.
Qed.

Lemma consumed_app a b : re.consumed (a +:+ b) b = a.
Proof.
  unfold re.consumed. rewrite length_str_app.
  replace (String.length a + String.length b - String.length b)%nat with (String.length a) by lia.
  apply take_app.
Qed.

Lemma consumed_all s : re.consumed s "" = s.
Proof. rewrite <-(app_empty_r s) at 1. apply consumed_app. Qed.

Lemma count_sub_unfold m s :
  Str.count_sub m s =
  ((if decide (is_Some (Str.strip_prefix m s)) then 1 else 0) +
   match s with
   | "" => 0
   | String _ s' => Str.count_sub m s'
   end)%nat.
Proof. by destruct s. Qed.

Lemma count_sub_app_ge m a s : (Str.count_sub m s ≤ Str.count_sub m (a +:+ s))%nat.
Proof.
  induction a as [|c a IH]; [done|]. rewrite app_cons.
  rewrite (count_sub_unfold m (String c _)). lia.
Qed.

Lemma count_sub_occ m b : (1 ≤ Str.count_sub m (m +:+ b))%nat.
Proof.
  rewrite count_sub_unfold, strip_prefix_app.
  rewrite decide_True by eauto. lia.
Qed.

(** A text that occurs once is found where it is. *)
Lemma find_sub_unique m a b :
  Str.count_sub m (a +:+ m +:+ b) = 1%nat → Str.find_sub m (a +:+ m +:+ b) = Some (a, b).
Proof.
  induction a as [|c a IH].
  - intros _. rewrite app_empty_l, find_sub_unfold. by rewrite strip_prefix_app.
  - rewrite app_cons, count_sub_unfold. intros Hc.
    pose proof (count_sub_app_ge m a (m +:+ b)) as H1.
    pose proof (count_sub_occ m b) as H2.
    rewrite find_sub_unfold.
    destruct (decide (is_Some (Str.strip_prefix m (String c (a +:+ m +:+ b))))) as [?|Hn]; [lia|].
    destruct (Str.strip_prefix m (String c (a +:+ m +:+ b))); [by destruct Hn|].
    rewrite IH by lia. done.
Qed.

(** ** The regular expression of the readme *)

Section Regex.
Context {R : Type}.

Lemma lazy_any_unfold s caps (k : string → list string → option R) :
  re.lazy_any s caps k =
  match k s caps with
  | Some x => Some x
  | None =>
      match s with
      | "" => None
      | String _ s' => re.lazy_any s' caps k
      end
  end.
Proof. by destruct s. Qed.

(** [.*] in front of a continuation that accepts the end of the input
    takes the whole input. *)
Lemma greedy_any_all s caps (k : string → list string → option R) x :
  k "" caps = Some x → re.greedy_any s caps k = Some x.
Proof. intros Hk. induction s as [|c s IH]; simpl; [done|]. by rewrite IH. Qed.

(** [.*?] in front of a literal and a continuation that never fails stops
    at the first occurrence of the literal. *)
Lemma lazy_any_lit m t caps (k : string → list string → option R) :
  (∀ v, is_Some (k v caps)) →
  re.lazy_any t caps
    (λ u caps', match Str.strip_prefix m u with Some v => k v caps' | None => None end)
  = match Str.find_sub m t with
    | Some (_, post) => k post caps
    | None => None
    end.
Proof.
  intros Hk. induction t as [|c t IH]; rewrite lazy_any_unfold, find_sub_unfold.
  - destruct (Str.strip_prefix m "") as [v|]; [|done].
    by destruct (Hk v) as [x ->].
  - destruct (Str.strip_prefix m (String c t)) as [v|].
    + by destruct (Hk v) as [x ->].
    + rewrite IH. by destruct (Str.find_sub m t) as [[??]|].
Qed.

End Regex.

Lemma region_and_rest_match m1 m2 s caps :
  re.rmatch (region_and_rest m1 m2) s caps (λ s' caps', Some (caps', s'))
  = match Str.strip_prefix m1 s with
    | Some t =>
        match Str.find_sub m2 t with
        | Some (_, post) => Some ((caps ++ [re.consumed s post]) ++ [post], "")%list
        | None => None
        end
    | None => None
    end.
Proof.
  unfold region_and_rest. cbn [re.rmatch].
  destruct (Str.strip_prefix m1 s) as [t|]; [|done].
  rewrite (lazy_any_lit m2 t caps
    (λ v caps', re.greedy_any v (caps' ++ [re.consumed s v])%list
                  (λ s' caps'', Some ((caps'' ++ [re.consumed v s'])%list, s')))).
  - destruct (Str.find_sub m2 t) as [[mid post]|]; [|done].
    erewrite greedy_any_all; [reflexivity|]. by rewrite consumed_all.
  - intros v. erewrite greedy_any_all; [eauto|reflexivity].
Qed.

Lemma split_at_tail m1 m2 c s : split_at m1 m2 (String c s) = None → split_at m1 m2 s = None.
Proof.
  unfold split_at.
  destruct (Str.find_sub m1 s) as [[pre' t']|] eqn:E'; [|done].
  destruct (Str.find_sub m2 t') as [[mid' post']|] eqn:E2'; [|done].
  rewrite (find_sub_unfold m1 (String c s)), E'.
  destruct (Str.strip_prefix m1 (String c s)) as [t|] eqn:E.
  - destruct (Str.find_sub m2 t) as [[mid post]|] eqn:E2; [done|]. intros _. exfalso.
    apply strip_prefix_Some in E. apply find_sub_Some in E'.
    destruct (suffix_shorter m1 (String c (pre' +:+ m1)) t t') as [d ->].
    { rewrite <-E, app_cons, E'. by rewrite str_app_assoc. }
    { apply (f_equal String.length) in E. rewrite E' in E.
      rewrite length_str_app in E. simpl in E. rewrite !length_str_app in E. lia. }
    apply find_sub_None_suffix in E2. congruence.
  - by rewrite E2'.
Qed.

Lemma lazy_any_region m1 m2 s0 a s :
  s0 = a +:+ s →
  re.lazy_any s []
    (λ s1 caps, re.rmatch (region_and_rest m1 m2) s1 (caps ++ [re.consumed s0 s1])%list
                  (λ s' caps', Some (caps', s')))
  = match split_at m1 m2 s with
    | Some (before, region, after) => Some ([a +:+ before; region; after], "")
    | None => None
    end.
Proof.
  revert a. induction s as [|c s IH]; intros a Hs0; rewrite lazy_any_unfold, region_and_rest_match.
  - unfold split_at. rewrite find_sub_unfold.
    destruct (Str.strip_prefix m1 "") as [t|] eqn:E; [|done].
    destruct (Str.find_sub m2 t) as [[mid post]|] eqn:E2; [|done].
    apply strip_prefix_Some in E. apply find_sub_Some in E2.
    rewrite Hs0, consumed_app, app_empty_r. simpl. repeat f_equal.
    rewrite E at 1. rewrite E2 at 1.
    by rewrite <-!str_app_assoc, consumed_app, !str_app_assoc.
  - destruct (Str.strip_prefix m1 (String c s)) as [t|] eqn:E.
    + destruct (Str.find_sub m2 t) as [[mid post]|] eqn:E2.
      * unfold split_at. rewrite find_sub_unfold, E, E2.
        apply strip_prefix_Some in E. apply find_sub_Some in E2.
        rewrite Hs0, consumed_app, app_empty_r. simpl. repeat f_equal.
        rewrite E at 1. rewrite E2 at 1.
        by rewrite <-!str_app_assoc, consumed_app, !str_app_assoc.
      * assert (Hnone : split_at m1 m2 (String c s) = None).
        { unfold split_at. by rewrite find_sub_unfold, E, E2. }
        rewrite Hnone. rewrite (IH (a +:+ String c "")).
        -- by rewrite (split_at_tail _ _ _ _ Hnone).
        -- by rewrite Hs0, str_app_assoc.
    + rewrite (IH (a +:+ String c "")) by (by rewrite Hs0, str_app_assoc).
      unfold split_at. rewrite (find_sub_unfold m1 (String c s)), E.
      destruct (Str.find_sub m1 s) as [[pre' t']|]; [|done].
      destruct (Str.find_sub m2 t') as [[mid' post']|]; [|done].
      by rewrite str_app_assoc.
Qed.

Lemma split_region_split_at s : split_region s = split_at start_mark end_mark s.
Proof. reflexivity. Qed.

Lemma match_at_readme s :
  re.match_at readme_regex s
  = match split_region s with
    | Some (before, region, after) => Some ([before; region; after], "")
    | None => None
    end.
Proof.
  change (re.match_at readme_regex s) with
    (re.lazy_any s []
       (λ s1 caps, re.rmatch (region_and_rest start_mark end_mark) s1
                     (caps ++ [re.consumed s s1])%list (λ s' caps', Some (caps', s')))).
  rewrite (lazy_any_region start_mark end_mark s "" s) by done.
  change (split_region s) with (split_at start_mark end_mark s).
  by destruct (split_at _ _ s) as [[[??]?]|].
Qed.

Lemma findall_from_none n s : split_region s = None → re.findall_from n readme_regex s = [].
Proof.
  revert s. induction n as [|n IH]; intros s Hs; [done|].
  cbn [re.findall_from]. rewrite match_at_readme, Hs.
  destruct s as [|c s]; [done|]. apply IH.
  change (split_at start_mark end_mark s = None). by eapply split_at_tail.
Qed.

(** [findall] returns the three parts, or nothing; never more than one match. *)
Lemma findall_readme s :
  re.findall readme_regex s
  = match split_region s with
    | Some (before, region, after) => [[before; region; after]]
    | None => []
    end.
Proof.
  unfold re.findall. destruct (split_region s) as [[[before region] after]|] eqn:Hs.
  - cbn [re.findall_from]. rewrite match_at_readme, Hs. f_equal.
    destruct s as [|c s]; [done|].
    rewrite decide_True by (simpl; lia).
    by apply findall_from_none.
  - by apply findall_from_none.
Qed.

Lemma findall_readme_length s : (length (re.findall readme_regex s) ≤ 1)%nat.
Proof. rewrite findall_readme. by destruct (split_region s) as [[[??]?]|]; simpl; lia. Qed.

(** ** The stable sort *)

Section SortFacts.
Context {A : Type} (le : A → A → bool).

Lemma insert_by_Permutation x l : insert_by le x l ≡ₚ x :: l.
Proof.
  induction l as [|y l IH]; simpl; [done|].
  destruct (le x y); [done|]. rewrite IH. apply perm_swap.
Qed.

Lemma sort_by_Permutation l : sort_by le l ≡ₚ l.
Proof.
  induction l as [|x l IH]; simpl; [done|].
  rewrite insert_by_Permutation. by f_equiv.
Qed.

Hypothesis le_total : ∀ x y, le x y = true ∨ le y x = true.
Hypothesis le_trans : ∀ x y z, le x y = true → le y z = true → le x z = true.

Lemma insert_by_then_by (R : relation A) x s :
  StronglySorted (then_by le R) s → Forall (R x) s →
  StronglySorted (then_by le R) (insert_by le x s).
Proof.
  induction s as [|y s IH]; intros Hs Hx; simpl.
  { repeat constructor. }
  apply StronglySorted_inv in Hs as [Hs Hy].
  apply Forall_cons in Hx as [Hxy Hx].
  destruct (le x y) eqn:Hle.
  - constructor; [by constructor|].
    constructor; [by split|].
    rewrite Forall_forall in Hy, Hx |- *. intros z Hz. split.
    + eapply le_trans; [exact Hle|]. by apply Hy.
    + intros _. by apply Hx.
  - constructor; [by apply IH|].
    rewrite insert_by_Permutation. constructor; [|done].
    split; [|congruence].
    destruct (le_total x y); congruence.
Qed.

Lemma sort_by_then_by (R : relation A) l :
  StronglySorted R l → StronglySorted (then_by le R) (sort_by le l).
Proof.
  induction 1 as [|x l Hl IH Hx]; simpl; [constructor|].
  apply insert_by_then_by; [done|]. by rewrite sort_by_Permutation.
Qed.

Lemma sort_by_sorted l : StronglySorted (λ x y, le x y = true) (sort_by le l).
Proof.
  assert (Hany : StronglySorted (λ _ _ : A, True) l).
  { induction l; constructor; [done|]. by apply Forall_true. }
  apply (sort_by_then_by _ l) in Hany.
  induction Hany as [|x s Hs IH Hx]; constructor; [done|].
  eapply Forall_impl; [exact Hx|]. by intros y [? _].
Qed.

End SortFacts.

Lemma StronglySorted_mono {A} (R1 R2 : relation A) l :
  (∀ x y, R1 x y → R2 x y) → StronglySorted R1 l → StronglySorted R2 l.
Proof.
  intros HR. induction 1 as [|x l Hl IH Hx]; constructor; [done|].
  eapply Forall_impl; eauto.
Qed.

(** ** The order on names *)

Lemma casefold_leb_total `{HE : Env} a b : casefold_leb a b = true ∨ casefold_leb b a = true.
Proof.
  unfold casefold_leb, Str.leb.
  destruct (String.le_total (str_casefold a) (str_casefold b)) as [H|H];
    [left|right]; by apply Is_true_true.
Qed.

Lemma casefold_leb_trans `{HE : Env} a b d :
  casefold_leb a b = true → casefold_leb b d = true → casefold_leb a d = true.
Proof.
  unfold casefold_leb, Str.leb. intros H1%Is_true_true H2%Is_true_true.
  apply Is_true_true.
  change (String.le (str_casefold a) (str_casefold d)).
  by trans (str_casefold b).
Qed.

Lemma leb_total a b : Str.leb a b = true ∨ Str.leb b a = true.
Proof.
  unfold Str.leb. destruct (String.le_total a b) as [H|H]; [left|right]; by apply Is_true_true.
Qed.

(** ** Frequency tables *)

Section Tables.
Context `{EnvLaws}.

Lemma pyset_nil : pyset [] = [].
Proof.
  destruct (pyset []) as [|x l] eqn:E; [done|].
  assert (Hx : x ∈ pyset []) by (rewrite E; left).
  apply (proj1 (pyset_elem _ _)) in Hx. by apply elem_of_nil in Hx.
Qed.

Lemma map_res_ok {A B} (f : A → res B) (g : A → B) l :
  (∀ x, x ∈ l → f x = Ok (g x)) → map_res f l = Ok (g <$> l).
Proof.
  induction l as [|x l IH]; intros Hf; simpl; [done|].
  rewrite (Hf x) by left. simpl.
  rewrite IH by (intros; apply Hf; by right). done.
Qed.

Lemma frequencies_ok vals :
  frequencies vals = Ok ((λ v, (v, frequency vals v)) <$> pyset vals).
Proof.
  unfold frequencies. apply map_res_ok. intros v Hv.
  apply (proj1 (pyset_elem _ _)) in Hv. unfold pydiv.
  destruct vals as [|x vals]; [by apply elem_of_nil in Hv|].
  by rewrite decide_False.
Qed.

Lemma frequency_table_ok second vals :
  frequency_table second vals =
  Ok (sort_by second (sort_by by_name ((λ v, (v, frequency vals v)) <$> pyset vals))).
Proof. unfold frequency_table. by rewrite frequencies_ok. Qed.

End Tables.
Lemma total_cons x l : total (x :: l) = (x + total l)%nat.
Proof. reflexivity. Qed.

Lemma Qc_sum_cons x l : Qc_sum (x :: l) = (x + Qc_sum l)%Qc.
Proof. reflexivity. Qed.

Lemma Qc_sum_Permutation l1 l2 : l1 ≡ₚ l2 → Qc_sum l1 = Qc_sum l2.
Proof.
  induction 1 as [|x l1 l2 _ IH|x y l|l1 l2 l3 _ IH1 _ IH2]; simpl.
  - done.
  - by rewrite IH.
  - ring.
  - congruence.
Qed.

Lemma count_cons x v l :
  count v (x :: l) = ((if decide (x = v) then 1 else 0) + count v l)%nat.
Proof. unfold count. rewrite filter_cons. by destruct (decide (x = v)). Qed.

Lemma sum_indicator_0 (x : string) u :
  x ∉ u → total ((λ v, if decide (x = v) then 1 else 0)%nat <$> u) = 0%nat.
Proof.
  induction u as [|z u IHu]; intros Hx; [done|].
  apply not_elem_of_cons in Hx as [Hxz Hx].
  rewrite fmap_cons, total_cons. rewrite decide_False by done. by rewrite IHu.
Qed.

Lemma sum_indicator (x : string) u :
  NoDup u → x ∈ u → total ((λ v, if decide (x = v) then 1 else 0)%nat <$> u) = 1%nat.
Proof.
  induction 1 as [|y u Hy Hu IH]; intros Hx; [by apply elem_of_nil in Hx|].
  rewrite fmap_cons, total_cons. destruct (decide (x = y)) as [->|Hne].
  - by rewrite sum_indicator_0.
  - apply elem_of_cons in Hx as [?|Hx]; [done|]. by rewrite IH.
Qed.

Lemma sum_counts_cons x vals u :
  total ((λ v, count v (x :: vals)) <$> u)
  = (total ((λ v, if decide (x = v) then 1 else 0)%nat <$> u)
     + total ((λ v, count v vals) <$> u))%nat.
Proof.
  induction u as [|v u IHu]; [done|].
  rewrite !fmap_cons, !total_cons. rewrite count_cons, IHu. lia.
Qed.

Lemma sum_counts u vals :
  NoDup u → (∀ x, x ∈ vals → x ∈ u) →
  total ((λ v, count v vals) <$> u) = length vals.
Proof.
  intros Hu. induction vals as [|x vals IH]; intros Hin.
  - clear. induction u as [|v u IHu]; [done|].
    rewrite fmap_cons, total_cons. by rewrite IHu.
  - rewrite sum_counts_cons, IH by (intros; apply Hin; by right).
    rewrite sum_indicator by (done || apply Hin; left). done.
Qed.

Lemma Qc_sum_scaled (f : string → nat) (d k : Qc) u :
  Qc_sum ((λ v, Qc_of_Z (Z.of_nat (f v)) / d * k)%Qc <$> u)
  = (Qc_of_Z (Z.of_nat (total (f <$> u))) / d * k)%Qc.
Proof.
  induction u as [|v u IH].
  - change (0 = Qc_of_Z 0 / d * k)%Qc. rewrite Z2Qc_inj_0. unfold Qcdiv. ring.
  - rewrite !fmap_cons, Qc_sum_cons, total_cons.
    rewrite IH, Nat2Z.inj_add, Z2Qc_inj_add. unfold Qcdiv. ring.
Qed.

Lemma second_spec `{Env} second field x y :
  (second, field) ∈ table_fields → second x y = true ↔ (y.2 ≤ x.2)%Qc.
Proof.
  assert (Hr : by_freq_reverse x y = true ↔ (y.2 ≤ x.2)%Qc).
  { unfold by_freq_reverse. by rewrite bool_decide_eq_true. }
  assert (Hn : by_neg_freq x y = true ↔ (y.2 ≤ x.2)%Qc).
  { unfold by_neg_freq. rewrite bool_decide_eq_true. split.
    - intros Hle%Qcopp_le_compat. by rewrite !Qcopp_involutive in Hle.
    - apply Qcopp_le_compat. }
  unfold table_fields. rewrite !elem_of_cons, elem_of_nil.
  intros [E|[E|[E|[E|[E|[E|[]]]]]]]; by inversion E; subst.
Qed.

Section TableTheorems.
Context `{EnvLaws}.

Lemma frequency_table_rows second vals t :
  frequency_table second vals = Ok t →
  t ≡ₚ (λ v, (v, frequency vals v)) <$> pyset vals.
Proof.
  rewrite frequency_table_ok. intros [= <-].
  by rewrite !sort_by_Permutation.
Qed.

Lemma frequency_table_sorted second field vals t :
  (second, field) ∈ table_fields →
  frequency_table second vals = Ok t → StronglySorted table_order t.
Proof.
  intros Hin. rewrite frequency_table_ok. intros [= <-].
  eapply StronglySorted_mono; last first.
  - apply (sort_by_then_by second) with (R := λ x y, by_name x y = true).
    + intros x y. rewrite !(second_spec second field) by done.
      destruct (Qclt_le_dec y.2 x.2) as [?%Qclt_le_weak|?]; auto.
    + intros x y z. rewrite !(second_spec second field) by done.
      intros ??. by eapply Qcle_trans.
    + apply sort_by_sorted.
      * intros x y. apply casefold_leb_total.
      * intros x y z. apply casefold_leb_trans.
  - intros x y [Hxy Hyx]. unfold table_order.
    rewrite !(second_spec second field) in * by done.
    apply Qcle_lt_or_eq in Hxy as [?|Heq]; [by left|right].
    split; [done|]. apply Hyx. rewrite Heq. apply Qcle_refl.
Qed.

End TableTheorems.

(** The sample environment iterates a set in the order of first occurrence. *)
Global Instance Sample_laws : @EnvLaws Sample.env.
Proof.
  split; simpl.
  - intros l. apply NoDup_remove_dups.
  - intros l x. apply elem_of_remove_dups.
Qed.

(** ** The monad and the guard *)

Lemma bind_Ok {A B} (m : M A) (f : A → M B) w a w' :
  m w = (Ok a, w') → (m ≫= f) w = f a w'.
Proof. unfold mbind, M_bind. by intros ->. Qed.

Lemma bind_Raise {A B} (m : M A) (f : A → M B) w e w' :
  m w = (Raise e, w') → (m ≫= f) w = (Raise e, w').
Proof. unfold mbind, M_bind. by intros ->. Qed.

Lemma printed_all_nil w : printed_all [] w = w.
Proof. destruct w. unfold printed_all. simpl. by rewrite app_nil_r. Qed.

Lemma printed_all_app l1 l2 w : printed_all l2 (printed_all l1 w) = printed_all (l1 ++ l2) w.
Proof. unfold printed_all. simpl. by rewrite app_assoc. Qed.

Lemma print_printed line w : print line w = (Ok (), printed_all [line] w).
Proof. reflexivity. Qed.

Lemma for_each_lines {A} (body : A → M unit) (f : A → list string) (l : list A) w :
  (∀ x w, body x w = (Ok (), printed_all (f x) w)) →
  for_each l body w = (Ok (), printed_all (l ≫= f) w).
Proof.
  intros Hbody. revert w. induction l as [|x l IH]; intros w; simpl.
  - by rewrite printed_all_nil.
  - erewrite bind_Ok by apply Hbody. rewrite IH. by rewrite printed_all_app.
Qed.

Lemma bind_option_list {A B} (f : A → option B) (l : list A) :
  l ≫= (λ x, option_list (f x)) = omap f l.
Proof.
  induction l as [|x l IH]; [done|].
  rewrite bind_cons, IH. simpl. by destruct (f x).
Qed.

Lemma bind_singleton {A B} (f : A → B) (l : list A) :
  l ≫= (λ x, [f x]) = f <$> l.
Proof. induction l as [|x l IH]; [done|]. rewrite bind_cons, IH. done. Qed.

Lemma guarded_falsy body w :
  falsy (entries w) = true → guarded body w = (Ok (), printed "entries not yet loaded" w).
Proof.
  intros Hf. unfold guarded. erewrite bind_Ok by reflexivity. by rewrite Hf.
Qed.

Lemma guarded_loaded body w es :
  entries w = Some es → es ≠ [] → guarded body w = body es w.
Proof.
  intros He Hne. unfold guarded. erewrite bind_Ok by reflexivity.
  rewrite He. destruct es; [done|]. reflexivity.
Qed.

Lemma falsy_cases o : falsy o = true ↔ o = None ∨ o = Some [].
Proof. destruct o as [[|??]|]; simpl; intuition congruence. Qed.

(** ** [update_statistics] *)

Lemma rel_ok n x : n ≠ 0%nat → ∃ q, rel n x = Ok q.
Proof.
  intros Hn. unfold rel, pydiv. rewrite decide_False by done. eexists. reflexivity.
Qed.

Lemma not_cmake_loop_acc titles acc l :
  c_cpp_project_not_cmake_loop titles acc = Ok l → l = acc.
Proof.
  revert acc. induction titles as [|t titles IH]; intros acc; simpl.
  - congruence.
  - destruct (Str.contains t "Build system"); [done|]. apply IH.
Qed.

Lemma not_cmake_loop_raise titles acc e :
  c_cpp_project_not_cmake_loop titles acc = Raise e → ∃ msg, e = TypeError msg.
Proof.
  revert acc. induction titles as [|t titles IH]; intros acc; simpl.
  - congruence.
  - destruct (Str.contains t "Build system"); [|apply IH].
    intros [= <-]. eauto.
Qed.

(** The second list is empty whenever it is computed at all. *)
Lemma c_cpp_project_not_cmake_empty `{HE : Env} es l :
  c_cpp_project_not_cmake es = Ok l → l = [].
Proof.
  unfold c_cpp_project_not_cmake.
  destruct (c_cpp_project_not_cmake_loop _ _) as [l'|e] eqn:E; simpl; [|done].
  apply not_cmake_loop_acc in E as ->. by intros [= <-].
Qed.

Lemma c_cpp_project_not_cmake_raise `{HE : Env} es e :
  c_cpp_project_not_cmake es = Raise e → ∃ msg, e = TypeError msg.
Proof.
  unfold c_cpp_project_not_cmake.
  destruct (c_cpp_project_not_cmake_loop _ _) as [l'|e'] eqn:E; simpl; [done|].
  intros [= <-]. by eapply not_cmake_loop_raise.
Qed.

Section StatisticsFacts.
Context `{EnvLaws}.

Lemma state_section_ok es : es ≠ [] → ∃ s, state_section es = Ok s.
Proof.
  intros Hne. assert (Hn : length es ≠ 0%nat) by (by destruct es).
  unfold state_section.
  destruct (rel_ok (length es) (number_of (λ x, val_in "mature" (State x)) es) Hn) as [q1 ->].
  destruct (rel_ok (length es) (number_of (λ x, val_in "beta" (State x)) es) Hn) as [q2 ->].
  destruct (rel_ok (length es) (number_of is_inactive es) Hn) as [q3 ->].
  eexists. reflexivity.
Qed.

(** With entries in the store the page is computed, unless a title makes
    the last loop index a string. *)
Lemma statistics_text_result es :
  es ≠ [] →
  (∃ s, statistics_text es = Ok s) ∨ (∃ msg, statistics_text es = Raise (TypeError msg)).
Proof.
  intros Hne. assert (Hn : length es ≠ 0%nat) by (by destruct es).
  unfold statistics_text.
  destruct (state_section_ok es Hne) as [st ->].
  unfold language_table, license_table, keyword_table, code_dependency_table,
    build_system_table, platform_table.
  rewrite !frequency_table_ok.
  destruct (rel_ok (length es) (entries_with_code_dependency es) Hn) as [q1 ->].
  destruct (rel_ok (length es) (length (build_systems es)) Hn) as [q2 ->].
  destruct (rel_ok (length es) (length (platforms es)) Hn) as [q3 ->].
  destruct (c_cpp_project_not_cmake es) as [l|e] eqn:E.
  - left. eexists. reflexivity.
  - right. apply c_cpp_project_not_cmake_raise in E as [msg ->]. eexists. reflexivity.
Qed.

Lemma update_statistics_no_zero_division w :
  (update_statistics w).1 ≠ Raise ZeroDivisionError.
Proof.
  unfold update_statistics.
  destruct (falsy (entries w)) eqn:Hf.
  - by rewrite guarded_falsy.
  - destruct (entries w) as [[|e es]|] eqn:He; try done.
    rewrite (guarded_loaded _ w (e :: es)) by done.
    destruct (statistics_text_result (e :: es)) as [[s Hs]|[msg Hs]]; [done| |].
    + erewrite bind_Ok by (unfold lift; by rewrite Hs).
      erewrite bind_Ok by reflexivity. by rewrite print_printed.
    + erewrite bind_Raise by (unfold lift; by rewrite Hs). done.
Qed.

(** C10: a guarded operation called with no entries, the store being
    unloaded or loaded and empty, prints [entries not yet loaded] and
    returns; the entries and every file are what they were. In particular
    [update_statistics] never divides by a count of zero entries; it never
    raises [ZeroDivisionError]. *)
Theorem C10_empty_store_like_unloaded (w : World) :
  (falsy (entries w) = true ↔ entries w = None ∨ entries w = Some []) ∧
  (falsy (entries w) = true →
   let w' := printed "entries not yet loaded" w in
   write_entries w = (Ok (), w') ∧
   check_inconsistencies w = (Ok (), w') ∧
   clean_backlog w = (Ok (), w') ∧
   update_statistics w = (Ok (), w') ∧
   update_html w = (Ok (), w') ∧
   update_repos w = (Ok (), w') ∧
   special_ops w = (Ok (), w') ∧
   entries w' = entries w ∧ tocs w' = tocs w ∧ files w' = files w) ∧
  (update_statistics w).1 ≠ Raise ZeroDivisionError.
Proof.
  split; [apply falsy_cases|]. split; [|apply update_statistics_no_zero_division].
  intros Hf. cbv zeta.
  unfold write_entries, check_inconsistencies, clean_backlog, update_statistics,
    update_html, update_repos, special_ops.
  rewrite !guarded_falsy by done. done.
Qed.

End StatisticsFacts.

(** ** The frequency tables in the page *)

Lemma fmap_bind_list {A B C} (f : B → C) (g : A → list B) (l : list A) :
  f <$> (l ≫= g) = l ≫= λ x, f <$> g x.
Proof. induction l as [|x l IH]; [done|]. by rewrite !bind_cons, fmap_app, IH. Qed.

Lemma has_get_optional e k :
  k ∉ c.essential_fields → k ≠ "Building" → k ≠ "Note" →
  (if has_field e k then get_field e k else []) = default [] (optional e !! k).
Proof.
  intros H1 H2 H3. unfold has_field, get_field.
  rewrite !decide_False by done.
  by destruct (optional e !! k).
Qed.

(** The values the code collects for a table are the values seen for its field. *)
Lemma values_seen_collected es :
  values_seen TLanguage es = languages es ∧
  values_seen TLicense es = licenses es ∧
  values_seen TKeyword es = keywords es ∧
  values_seen TDependency es = code_dependencies es ∧
  values_seen TBuildSystem es = build_systems es ∧
  values_seen TPlatform es = platforms es.
Proof.
  unfold values_seen, languages, licenses, keywords, code_dependencies, build_systems,
    platforms, values.
  rewrite <-list_fmap_compose, !fmap_bind_list.
  repeat split; try reflexivity.
  - apply list_bind_ext; [|done]. intros e. simpl.
    rewrite has_get_optional; [done|compute_done|done|done].
  - apply list_bind_ext; [|done]. intros e. simpl.
    rewrite has_get_optional; [done|compute_done|done|done].
Qed.

Lemma stands_in_here x b : stands_in x (x +:+ b).
Proof. by exists "", b. Qed.

Lemma stands_in_skip x a s : stands_in x s → stands_in x (a +:+ s).
Proof. intros (pre & post & ->). exists (a +:+ pre), post. by rewrite !str_app_assoc. Qed.

Lemma stands_in_left x a b : stands_in x a → stands_in x (a +:+ b).
Proof. intros (pre & post & ->). exists pre, (post +:+ b). by rewrite !str_app_assoc. Qed.

Lemma stands_in_end x : stands_in x x.
Proof. exists "", "". by rewrite app_empty_l, app_empty_r. Qed.

Section TablesInPage.
Context `{EnvLaws}.

Lemma statistics_text_nil : statistics_text [] = Raise ZeroDivisionError.
Proof. reflexivity. Qed.

(** Each table stands in the page, with the rows the two sorts leave. *)
Lemma statistics_tables es page :
  statistics_text es = Ok page →
  ∀ t, ∃ second rows,
    (second = by_freq_reverse ∨ second = by_neg_freq) ∧
    frequency_table second (values_seen t es) = Ok rows ∧
    stands_in (table_in_page t (length (values_seen t es)) rows) page.
Proof.
  intros Hpage.
  assert (Hne : es ≠ []) by (intros ->; by rewrite statistics_text_nil in Hpage).
  assert (Hn : length es ≠ 0%nat) by (by destruct es).
  destruct (values_seen_collected es) as (Hl & Hc & Hk & Hd & Hb & Hp).
  revert Hpage. unfold statistics_text.
  destruct (state_section_ok es Hne) as [st ->].
  unfold language_table, license_table, keyword_table, code_dependency_table,
    build_system_table, platform_table.
  destruct (frequency_table by_freq_reverse (languages es)) as [tl|] eqn:El;
    [|by rewrite frequency_table_ok in El].
  destruct (frequency_table by_neg_freq (licenses es)) as [tc|] eqn:Ec;
    [|by rewrite frequency_table_ok in Ec].
  destruct (frequency_table by_neg_freq (keywords es)) as [tk|] eqn:Ek;
    [|by rewrite frequency_table_ok in Ek].
  destruct (frequency_table by_neg_freq (code_dependencies es)) as [td|] eqn:Ed;
    [|by rewrite frequency_table_ok in Ed].
  destruct (frequency_table by_neg_freq (build_systems es)) as [tb|] eqn:Eb;
    [|by rewrite frequency_table_ok in Eb].
  destruct (frequency_table by_neg_freq (platforms es)) as [tp|] eqn:Ep;
    [|by rewrite frequency_table_ok in Ep].
  destruct (rel_ok (length es) (entries_with_code_dependency es) Hn) as [q1 ->].
  destruct (rel_ok (length es) (length (build_systems es)) Hn) as [q2 ->].
  destruct (rel_ok (length es) (length (platforms es)) Hn) as [q3 ->].
  destruct (c_cpp_project_not_cmake es) as [l|e] eqn:E; [|done].
  cbv [mbind res_bind mret res_ret]. intros [= <-].
  assert (Hfin : ∀ x y, x = y → stands_in x y) by (intros x y ->; apply stands_in_end).
  intros t. destruct t.
  - exists by_freq_reverse, tl. split; [by left|]. rewrite Hl. split; [done|].
    do 2 apply stands_in_skip. apply stands_in_left. apply stands_in_skip.
    apply Hfin. unfold table_in_page, table_heading, table_body, table_lines.
    rewrite !str_app_assoc, <-list_fmap_compose. reflexivity.
  - exists by_neg_freq, tc. split; [by right|]. rewrite Hc. split; [done|].
    do 3 apply stands_in_skip. apply stands_in_left. apply stands_in_skip.
    apply Hfin. unfold table_in_page, table_heading, table_body, table_lines.
    rewrite !str_app_assoc, <-list_fmap_compose. reflexivity.
  - exists by_neg_freq, tk. split; [by right|]. rewrite Hk. split; [done|].
    do 4 apply stands_in_skip. apply stands_in_left. apply stands_in_skip.
    apply Hfin. unfold table_in_page, table_heading, table_body, table_lines.
    rewrite !str_app_assoc. reflexivity.
  - exists by_neg_freq, td. split; [by right|]. rewrite Hd. split; [done|].
    do 7 apply stands_in_skip. apply stands_in_left. do 2 apply stands_in_skip.
    apply Hfin. unfold table_in_page, table_heading, table_body, table_lines.
    rewrite !str_app_assoc. reflexivity.
  - exists by_neg_freq, tb. split; [by right|]. rewrite Hb. split; [done|].
    do 8 apply stands_in_skip. apply stands_in_left. do 2 apply stands_in_skip.
    apply Hfin. unfold table_in_page, table_heading, table_body, table_lines.
    rewrite !str_app_assoc. reflexivity.
  - exists by_neg_freq, tp. split; [by right|]. rewrite Hp. split; [done|].
    do 11 apply stands_in_skip. do 2 apply stands_in_skip.
    apply Hfin. unfold table_in_page, table_heading, table_body, table_lines.
    rewrite !str_app_assoc. reflexivity.
Qed.

Lemma frequency_table_facts second vals rows :
  second = by_freq_reverse ∨ second = by_neg_freq →
  frequency_table second vals = Ok rows →
  rows ≡ₚ (λ v, (v, frequency vals v)) <$> pyset vals ∧
  (∀ v, v ∈ rows.*1 ↔ v ∈ vals) ∧
  NoDup rows.*1 ∧
  (∀ row, row ∈ rows → row.2 = frequency vals row.1) ∧
  StronglySorted table_order rows.
Proof.
  intros Hsecond Hrows.
  assert (Ht : rows ≡ₚ (λ v, (v, frequency vals v)) <$> pyset vals).
  { by apply (frequency_table_rows second). }
  assert (H1 : rows.*1 ≡ₚ pyset vals).
  { rewrite Ht, <-list_fmap_compose. simpl. by rewrite list_fmap_id. }
  split; [done|]. split; [|split; [|split]].
  - intros v. rewrite H1. apply pyset_elem.
  - rewrite H1. apply pyset_NoDup.
  - intros row. rewrite Ht, list_elem_of_fmap. by intros (v & -> & _).
  - destruct Hsecond as [->| ->].
    + apply (frequency_table_sorted by_freq_reverse languages vals); [left|done].
    + apply (frequency_table_sorted by_neg_freq licenses vals); [right; left|done].
Qed.

(** C6: in the statistics page, which [update_statistics] writes to the
    statistics file, each of the six frequency tables stands under its
    heading with one line for each row. The rows are the unique values seen
    for the field across the entries, each once with its frequency; they are
    sorted by descending frequency, values of equal frequency being in
    ascending order of their case-folded names. *)
Theorem C6_frequency_tables_sorted (w : World) (es : list Entry) (page : string) :
  entries w = Some es →
  statistics_text es = Ok page →
  update_statistics w =
    (Ok (), mkWorld (entries w) (tocs w) (<[c.statistics_file := page]> (files w))
              (stdout w ++ ["statistics updated"])) ∧
  ∀ t : table, ∃ rows,
    stands_in (table_in_page t (length (values_seen t es)) rows) page ∧
    (∀ v, v ∈ rows.*1 ↔ v ∈ values_seen t es) ∧
    NoDup rows.*1 ∧
    (∀ row, row ∈ rows → row.2 = frequency (values_seen t es) row.1) ∧
    StronglySorted table_order rows.
Proof.
  intros He Hpage. split.
  - assert (Hne : es ≠ []) by (intros ->; by rewrite statistics_text_nil in Hpage).
    unfold update_statistics. rewrite (guarded_loaded _ w es) by done.
    erewrite bind_Ok by (unfold lift; by rewrite Hpage).
    erewrite bind_Ok by reflexivity. by rewrite print_printed.
  - intros t. destruct (statistics_tables es page Hpage t) as (second & rows & Hs & Hrows & Hin).
    exists rows. split; [done|].
    by destruct (frequency_table_facts second _ rows Hs Hrows) as (_ & ? & ? & ? & ?).
Qed.

(** C7: the percentage a table of the page shows for a value is the number
    of times the value is seen for the field across the entries over the
    number of values seen for the field (not over the number of entries),
    times 100; when an entry of the store has a value for the field, the
    percentages of the table add up to 100. Quotients are exact rationals. *)
Theorem C7_percentages_sum_to_100 (es : list Entry) (page : string) (t : table) :
  statistics_text es = Ok page →
  ∃ rows,
    stands_in (table_in_page t (length (values_seen t es)) rows) page ∧
    (∀ v, v ∈ rows.*1 ↔ v ∈ values_seen t es) ∧
    NoDup rows.*1 ∧
    (∀ row, row ∈ rows →
       (row.2 * Qc_of_Z 100)%Qc
       = (Qc_of_Z (Z.of_nat (count row.1 (values_seen t es)))
          / Qc_of_Z (Z.of_nat (length (values_seen t es))) * Qc_of_Z 100)%Qc) ∧
    ((∃ e v, e ∈ es ∧ v ∈ values_of t e) →
     Qc_sum ((λ row : string * Qc, (row.2 * Qc_of_Z 100)%Qc) <$> rows) = Qc_of_Z 100).
Proof.
  intros Hpage.
  destruct (statistics_tables es page Hpage t) as (second & rows & Hs & Hrows & Hin).
  destruct (frequency_table_facts second _ rows Hs Hrows) as (Ht & Hel & Hnd & Hfreq & _).
  exists rows. split; [done|]. split; [done|]. split; [done|]. split.
  - intros row Hrow. by rewrite (Hfreq row Hrow).
  - intros (e & v & He & Hv).
    assert (Hne : values_seen t es ≠ []).
    { intros Hnil. assert (Hin' : v ∈ values_seen t es).
      { unfold values_seen. apply list_elem_of_bind. by exists e. }
      rewrite Hnil in Hin'. by apply elem_of_nil in Hin'. }
    set (vals := values_seen t es) in *.
    rewrite (Qc_sum_Permutation _ _ (fmap_Permutation _ _ _ Ht)).
    rewrite <-list_fmap_compose.
    change (_ ∘ _) with
      (λ v, Qc_of_Z (Z.of_nat (count v vals)) / Qc_of_Z (Z.of_nat (length vals)) * Qc_of_Z 100)%Qc.
    rewrite (Qc_sum_scaled (λ v, count v vals)).
    rewrite sum_counts by (apply pyset_NoDup || (intros; by apply pyset_elem)).
    unfold Qcdiv. rewrite Qcmult_inv_r; [ring|].
    rewrite <-Z2Qc_inj_0. intros Heq%Z2Qc_inj.
    destruct vals; [done|]. simpl in Heq. lia.
Qed.

End TablesInPage.

Lemma C6_witness :
  ∃ page rows,
    files (update_statistics (Sample.world (Some Sample.store) Sample.readme)).2 !! c.statistics_file
    = Some page ∧
    stands_in (table_in_page TLanguage (length (values_seen TLanguage Sample.store)) rows) page ∧
    StronglySorted table_order rows.
Proof.
  destruct (statistics_text Sample.store) as [page|e] eqn:E;
    [|exfalso; revert E; vm_compute; discriminate].
  destruct (C6_frequency_tables_sorted (H := Sample.env)
              (Sample.world (Some Sample.store) Sample.readme) Sample.store page eq_refl E)
    as [Hrun Htables].
  destruct (Htables TLanguage) as (rows & Hin & _ & _ & _ & Hs).
  exists page, rows. split; [|split; [exact Hin|exact Hs]].
  rewrite Hrun. cbn [snd files]. apply lookup_insert_eq.
Defined.

Lemma C7_witness :
  ∃ page rows,
    statistics_text Sample.store = Ok page ∧
    stands_in (table_in_page TPlatform (length (values_seen TPlatform Sample.store)) rows) page ∧
    Qc_sum ((λ row : string * Qc, (row.2 * Qc_of_Z 100)%Qc) <$> rows) = Qc_of_Z 100.
Proof.
  destruct (statistics_text Sample.store) as [page|e] eqn:E;
    [|exfalso; revert E; vm_compute; discriminate].
  destruct (C7_percentages_sum_to_100 (H := Sample.env) Sample.store page TPlatform E)
    as (rows & Hin & _ & _ & _ & Hsum).
  exists page, rows. split; [reflexivity|]. split; [exact Hin|].
  apply Hsum. exists Sample.web_game, "Web". split; [|left].
  do 2 right. left.
Defined.


Lemma C10_witness :
  let w := mkWorld (Some []) {[ "_games.md" := "stale" ]} ∅ [] in
  update_statistics w = (Ok (), printed "entries not yet loaded" w) ∧
  special_ops w = (Ok (), printed "entries not yet loaded" w).
Proof.
  intros w.
  destruct (C10_empty_store_like_unloaded (H := Sample.env) w) as (_ & Hw & _).
  destruct (Hw eq_refl) as (_ & _ & _ & Hs & _ & _ & Hp & _).
  split; [exact Hs|exact Hp].
Defined.

(** ** [check_inconsistencies] *)

Section ConsistencyFacts.
Context `{Env}.

Lemma check_inconsistencies_output w es :
  entries w = Some es → es ≠ [] →
  check_inconsistencies w = (Ok (), printed_all (report_head es ++ play_findings es) w).
Proof.
  intros He Hne. unfold check_inconsistencies.
  rewrite (guarded_loaded _ w es) by done.
  erewrite bind_Ok; last first.
  { apply (for_each_lines _
      (λ entry, option_list (if val_in first_person (Keywords entry) then Some (File entry) else None))).
    intros x w'. destruct (val_in _ _); simpl; [done|]. by rewrite printed_all_nil. }
  erewrite bind_Ok; last first.
  { apply (for_each_lines _ (λ p, [similar_line es p])). done. }
  erewrite bind_Ok by apply print_printed.
  erewrite bind_Ok; last first.
  { apply (for_each_lines _ (λ dep, [dependency_line dep])). done. }
  rewrite (for_each_lines _ (λ entry, option_list (play_finding entry))); last first.
  { intros x w'. destruct (play_finding x); simpl; [done|]. by rewrite printed_all_nil. }
  rewrite !printed_all_app, !bind_option_list, !bind_singleton.
  unfold report_head, play_findings. by rewrite <-!app_assoc.
Qed.

Lemma play_finding_violates e :
  is_Some (play_finding e) ↔ violates_play_rule e = true.
Proof.
  unfold play_finding, violates_play_rule.
  destruct (has_field e "Play"), (has_field e "Platform"), (val_in "Web" _); simpl;
    split; (done || by intros [? [=]] || eauto).
Qed.

Lemma play_finding_names e line :
  play_finding e = Some line → names_entry e line.
Proof.
  unfold play_finding, names_entry.
  destruct (has_field e "Play"); [|done].
  destruct (negb (has_field e "Platform")); [intros [= <-]; eexists; reflexivity|].
  destruct (negb (val_in "Web" _)); [intros [= <-]; eexists; reflexivity|done].
Qed.

Lemma play_findings_filter es :
  Forall2 (λ e line, play_finding e = Some line)
    (filter (λ e, violates_play_rule e = true) es) (play_findings es).
Proof.
  unfold play_findings. induction es as [|e es IH]; simpl; [constructor|].
  rewrite filter_cons. destruct (decide (violates_play_rule e = true)) as [Hv|Hv].
  - apply play_finding_violates in Hv as [line Hl]. rewrite Hl. by constructor.
  - destruct (play_finding e) as [line|] eqn:Hl; [|done].
    exfalso. apply Hv, play_finding_violates. eauto.
Qed.

(** C8: the last loop of [check_inconsistencies] prints, after the lines
    on keywords and dependencies, one line for each entry that has a [Play]
    field and lacks either the [Platform] field or [Web] in it, in the
    order of the store, and that line names the file of the entry; no line
    is printed for another entry. In a store of three entries of which
    exactly one breaks the rule, by having [Play] and no [Platform], one
    finding is printed and it names that entry. *)
Theorem C8_play_requires_web_platform (w : World) (es : list Entry) :
  entries w = Some es → es ≠ [] →
  check_inconsistencies w = (Ok (), printed_all (report_head es ++ play_findings es) w) ∧
  Forall2 (λ e line, play_finding e = Some line ∧ names_entry e line)
    (filter (λ e, violates_play_rule e = true) es) (play_findings es) ∧
  (∀ e, e ∈ es →
     violates_play_rule e = true ↔
     has_field e "Play" = true ∧
     ¬ (has_field e "Platform" = true ∧ val_in "Web" (get_field e "Platform") = true)) ∧
  (∀ e, length es = 3%nat →
     filter (λ x, violates_play_rule x = true) es = [e] →
     has_field e "Platform" = false →
     play_findings es = [no_platform_line (File e)] ∧
     names_entry e (no_platform_line (File e))).
Proof.
  intros He Hne. split; [by apply check_inconsistencies_output|].
  split; [|split].
  - eapply Forall2_impl; [apply play_findings_filter|].
    intros e line Hl. split; [done|]. by apply play_finding_names.
  - intros e _. unfold violates_play_rule.
    destruct (has_field e "Play"), (has_field e "Platform"), (val_in "Web" _); simpl;
      intuition congruence.
  - intros e _ Hfilter Hplat.
    pose proof (play_findings_filter es) as HF. rewrite Hfilter in HF.
    apply Forall2_cons_inv_l in HF as (line & rest & Hl & Hrest & ->).
    apply Forall2_nil_inv_l in Hrest as ->.
    assert (Hline : line = no_platform_line (File e)).
    { revert Hl. unfold play_finding. rewrite Hplat.
      destruct (has_field e "Play"); [|done]. simpl. congruence. }
    subst line. split; [done|]. by apply play_finding_names.
Qed.

End ConsistencyFacts.

Lemma C8_witness :
  play_findings Sample.store = [no_platform_line "browser_game.md"].
Proof.
  pose (w := Sample.world (Some Sample.store) Sample.readme).
  destruct (C8_play_requires_web_platform (H := Sample.env) w Sample.store eq_refl)
    as (_ & _ & _ & H3).
  - discriminate.
  - apply (H3 Sample.browser_game); reflexivity.
Defined.

(** *** Pairs of keywords *)

Lemma elem_of_pairs_cons {A} (x : A) l a b :
  (a, b) ∈ pairs (x :: l) ↔ (a = x ∧ b ∈ l) ∨ (a, b) ∈ pairs l.
Proof.
  simpl. rewrite elem_of_app, list_elem_of_fmap. split.
  - intros [(y & [= -> ->] & Hy)|?]; auto.
  - intros [[-> Hb]|?]; eauto.
Qed.

Lemma elem_of_pairs_elem {A} (l : list A) a b : (a, b) ∈ pairs l → a ∈ l ∧ b ∈ l.
Proof.
  induction l as [|x l IH]; [by intros ?%elem_of_nil|].
  rewrite elem_of_pairs_cons, !elem_of_cons. intros [[-> ?]|[??]%IH]; auto.
Qed.

Lemma elem_of_pairs_NoDup {A} (l : list A) a b :
  NoDup l → (a, b) ∈ pairs l → a ≠ b ∧ (b, a) ∉ pairs l.
Proof.
  induction 1 as [|x l Hx Hl IH]; [by intros ?%elem_of_nil|].
  rewrite !elem_of_pairs_cons. intros [[-> Hb]|Hab].
  - split; [by intros ->|]. intros [[-> ?]|[_ ?]%elem_of_pairs_elem]; done.
  - destruct (IH Hab) as [Hne Hba]. split; [done|].
    apply elem_of_pairs_elem in Hab as [Ha Hb].
    intros [[-> ?]|?]; done.
Qed.

Lemma elem_of_pairs_total {A} (l : list A) a b :
  a ∈ l → b ∈ l → a ≠ b → (a, b) ∈ pairs l ∨ (b, a) ∈ pairs l.
Proof.
  induction l as [|x l IH]; [by intros ?%elem_of_nil|].
  rewrite !elem_of_cons, !elem_of_pairs_cons.
  intros [->|Ha] [->|Hb] Hne; auto. done.
  destruct (IH Ha Hb Hne); auto.
Qed.

Lemma collapse_multiplayer_prefix k :
  Str.startswith (collapse_multiplayer k) "multiplayer" = true → collapse_multiplayer k = "multiplayer".
Proof.
  unfold collapse_multiplayer. destruct (Str.startswith k "multiplayer") eqn:E; [done|].
  by rewrite E.
Qed.

Section KeywordFacts.
Context `{EnvLaws}.

(** C9: the keywords compared are those of the whole store after every
    keyword that begins with [multiplayer] was replaced by [multiplayer];
    each of them is taken once. Two distinct unique keywords are compared
    once, in the order the set gives them, and the pair is reported exactly
    when its similarity score is strictly greater than 8/10; nothing else
    is reported as similar. The lines for the reported pairs are printed. *)
Theorem C9_similar_keywords (w : World) (es : list Entry) :
  entries w = Some es → es ≠ [] →
  let uk := unique_keywords es in
  keywords es = collapse_multiplayer <$> values (es ≫= Keywords) ∧
  (∀ k, Str.startswith k "multiplayer" = true → collapse_multiplayer k = "multiplayer") ∧
  (∀ k, Str.startswith k "multiplayer" = false → collapse_multiplayer k = k) ∧
  NoDup uk ∧
  (∀ k, k ∈ uk ↔ k ∈ keywords es) ∧
  (∀ k, k ∈ uk → Str.startswith k "multiplayer" = true → k = "multiplayer") ∧
  (∀ a b, a ∈ uk → b ∈ uk → a ≠ b →
     ((a, b) ∈ pairs uk ∧ (b, a) ∉ pairs uk) ∨ ((b, a) ∈ pairs uk ∧ (a, b) ∉ pairs uk)) ∧
  (∀ a b, (a, b) ∈ pairs uk → a ≠ b ∧ a ∈ uk ∧ b ∈ uk) ∧
  threshold = (Qc_of_Z 8 / Qc_of_Z 10)%Qc ∧
  (∀ a b, (a, b) ∈ similar_keywords es ↔
          (a, b) ∈ pairs uk ∧ (threshold < name_similarity a b)%Qc) ∧
  ((∀ x y, name_similarity x y = name_similarity y x) →
   ∀ a b, a ∈ uk → b ∈ uk → a ≠ b →
     ((a, b) ∈ similar_keywords es ∨ (b, a) ∈ similar_keywords es) ↔
     (threshold < name_similarity a b)%Qc) ∧
  ∃ before after,
    (check_inconsistencies w).2 =
    printed_all (before ++ (similar_line es <$> similar_keywords es) ++ after) w.
Proof.
  intros He Hne uk.
  assert (Hnd : NoDup uk) by apply pyset_NoDup.
  assert (Hflag : ∀ a b, (a, b) ∈ similar_keywords es ↔
                    (a, b) ∈ pairs uk ∧ (threshold < name_similarity a b)%Qc).
  { intros a b. unfold similar_keywords. rewrite list_elem_of_filter. simpl. tauto. }
  assert (Hone : ∀ a b, a ∈ uk → b ∈ uk → a ≠ b →
     ((a, b) ∈ pairs uk ∧ (b, a) ∉ pairs uk) ∨ ((b, a) ∈ pairs uk ∧ (a, b) ∉ pairs uk)).
  { intros a b Ha Hb Hab.
    destruct (elem_of_pairs_total uk a b Ha Hb Hab) as [Hp|Hp]; [left|right];
      (split; [done|]); by apply (elem_of_pairs_NoDup uk) in Hp as [_ ?]. }
  split; [done|]. split.
  { intros k Hk. unfold collapse_multiplayer. by rewrite Hk. }
  split.
  { intros k Hk. unfold collapse_multiplayer. by rewrite Hk. }
  split; [done|]. split; [intros k; apply pyset_elem|]. split.
  { intros k Hk Hs. apply (proj1 (pyset_elem _ _)) in Hk.
    unfold keywords in Hk. apply list_elem_of_fmap in Hk as (k' & -> & _).
    by apply collapse_multiplayer_prefix. }
  split; [done|]. split.
  { intros a b Hp. destruct (elem_of_pairs_NoDup uk a b Hnd Hp) as [? _].
    apply elem_of_pairs_elem in Hp. tauto. }
  split.
  { apply Qc_is_canon. reflexivity. }
  split; [done|]. split.
  { intros Hsym a b Ha Hb Hab. rewrite !Hflag, (Hsym b a).
    destruct (Hone a b Ha Hb Hab) as [[??]|[??]]; tauto. }
  rewrite (check_inconsistencies_output w es) by done. cbn [snd].
  exists (omap (λ entry, if val_in first_person (Keywords entry) then Some (File entry) else None) es),
    (["Code dependencies not included as entry"]
     ++ (dependency_line <$> referenced_dependencies es) ++ play_findings es)%list.
  unfold report_head. by rewrite <-!app_assoc.
Qed.

End KeywordFacts.

Lemma C9_witness :
  ("puzzle", "puzzles") ∈ similar_keywords Sample.store.
Proof.
  pose (w := Sample.world (Some Sample.store) Sample.readme).
  destruct (C9_similar_keywords (H := Sample.env) w Sample.store eq_refl)
    as (_ & _ & _ & _ & _ & _ & _ & _ & _ & Hflag & _).
  - discriminate.
  - apply Hflag. split; [|reflexivity].
    vm_compute. repeat (first [ by left | right ]).
Defined.

(** ** The primary lists of [update_readme_tocs] *)

Lemma elem_of_games es e :
  e ∈ games es ↔ e ∈ es ∧ any_keyword ["tool"; "framework"; "library"] e = false.
Proof.
  unfold games. rewrite list_elem_of_filter, negb_true_iff. tauto.
Qed.

Lemma elem_of_by_keyword k es e :
  e ∈ by_keyword k es ↔ e ∈ es ∧ val_in k (Keywords e) = true.
Proof. unfold by_keyword. rewrite list_elem_of_filter. tauto. Qed.

Lemma any_keyword_three e :
  any_keyword ["tool"; "framework"; "library"] e =
  val_in "tool" (Keywords e) || val_in "framework" (Keywords e) || val_in "library" (Keywords e).
Proof. unfold any_keyword. simpl. rewrite orb_false_r, orb_assoc. reflexivity. Qed.

(** C1, as stated, fails: an entry tagged [tool] and [framework] is in two lists. *)
Lemma C1_counterexample :
  Sample.toolkit ∈ [Sample.toolkit] ∧
  val_in "tool" (Keywords Sample.toolkit) = true ∧
  val_in "framework" (Keywords Sample.toolkit) = true ∧
  Sample.toolkit ∈ tools [Sample.toolkit] ∧
  Sample.toolkit ∈ frameworks [Sample.toolkit] ∧
  ¬ in_exactly_one_bucket [Sample.toolkit] Sample.toolkit.
Proof.
  assert (Ht : Sample.toolkit ∈ tools [Sample.toolkit]) by (vm_compute; left).
  assert (Hf : Sample.toolkit ∈ frameworks [Sample.toolkit]) by (vm_compute; left).
  split; [left|]. do 4 (split; [done|]).
  intros [H|[H|[H|H]]]; tauto.
Qed.

(** C1 (amended): the four lists are filled by independent tests on the
    keywords. [tools], [frameworks] and [libraries] hold the entries tagged
    [tool], [framework] and [library]; [games] holds the entries with none of
    the three keywords. Every entry of the store is in at least one list,
    [games] is disjoint from the three others, and an entry that carries
    several of the three keywords is in each of the lists they name. *)
Theorem C1_buckets_by_independent_tests (es : list Entry) (e : Entry) :
  e ∈ es →
  (e ∈ tools es ↔ val_in "tool" (Keywords e) = true) ∧
  (e ∈ frameworks es ↔ val_in "framework" (Keywords e) = true) ∧
  (e ∈ libraries es ↔ val_in "library" (Keywords e) = true) ∧
  (e ∈ games es ↔ val_in "tool" (Keywords e) = false ∧ val_in "framework" (Keywords e) = false
                   ∧ val_in "library" (Keywords e) = false) ∧
  (e ∈ games es ∨ e ∈ tools es ∨ e ∈ frameworks es ∨ e ∈ libraries es) ∧
  (e ∈ games es → (e ∉ tools es) ∧ (e ∉ frameworks es) ∧ (e ∉ libraries es)) ∧
  (val_in "tool" (Keywords e) = true → val_in "framework" (Keywords e) = true →
   e ∈ tools es ∧ e ∈ frameworks es).
Proof.
  intros He.
  assert (Hk : ∀ k, e ∈ by_keyword k es ↔ val_in k (Keywords e) = true).
  { intros k. rewrite elem_of_by_keyword. tauto. }
  assert (Hg : e ∈ games es ↔ val_in "tool" (Keywords e) = false ∧
      val_in "framework" (Keywords e) = false ∧ val_in "library" (Keywords e) = false).
  { rewrite elem_of_games, any_keyword_three, !orb_false_iff. tauto. }
  change (tools es) with (by_keyword "tool" es).
  change (frameworks es) with (by_keyword "framework" es).
  change (libraries es) with (by_keyword "library" es).
  rewrite !Hk, Hg.
  destruct (val_in "tool" (Keywords e)), (val_in "framework" (Keywords e)),
    (val_in "library" (Keywords e)); intuition congruence.
Qed.

Lemma C1_buckets_witness :
  Sample.toolkit ∈ Sample.store ∧
  Sample.toolkit ∈ tools Sample.store ∧ Sample.toolkit ∈ frameworks Sample.store.
Proof.
  assert (H : Sample.toolkit ∈ Sample.store) by (vm_compute; left).
  split; [exact H|].
  apply (C1_buckets_by_independent_tests Sample.store Sample.toolkit H); reflexivity.
Defined.

(** ** [update_readme_tocs] *)

Lemma create_toc_writes `{HE : Env} title file es : writes_tocs_only (create_toc title file es).
Proof. intros w. eexists. reflexivity. Qed.

Lemma writes_tocs_only_bind m1 m2 :
  writes_tocs_only m1 → writes_tocs_only m2 → writes_tocs_only (m1 ≫= λ _, m2).
Proof.
  intros H1 H2 w. destruct (H1 w) as [t1 E1].
  erewrite bind_Ok by exact E1. destruct (H2 (mkWorld (entries w) t1 (files w) (stdout w))) as [t2 E2].
  exists t2. exact E2.
Qed.

Lemma for_each_writes {A} (l : list A) body :
  (∀ x, writes_tocs_only (body x)) → writes_tocs_only (for_each l body).
Proof.
  intros Hb. induction l as [|x l IH]; simpl.
  - intros w. exists (tocs w). by destruct w.
  - by apply writes_tocs_only_bind.
Qed.

Lemma remove_tocs_run w : remove_tocs w = (Ok (), mkWorld (entries w) ∅ (files w) (stdout w)).
Proof. reflexivity. Qed.

Lemma read_text_run path w t : files w !! path = Some t → read_text path w = (Ok t, w).
Proof. unfold read_text. by intros ->. Qed.

(** Without a region the operation stops on the structure of the readme,
    after the tables of contents were removed. *)
Lemma update_readme_tocs_no_region `{HE : Env} w text :
  files w !! c.readme_file = Some text → split_region text = None →
  update_readme_tocs w =
    (Raise (RuntimeError "readme file has invalid structure"),
     mkWorld (entries w) ∅ (files w) (stdout w)).
Proof.
  intros Hf Hs. unfold update_readme_tocs.
  erewrite bind_Ok by apply remove_tocs_run.
  erewrite bind_Ok by (by apply read_text_run).
  rewrite findall_readme, Hs. reflexivity.
Qed.

(** With a region and no entries read, it stops on the iteration over [None]. *)
Lemma update_readme_tocs_unloaded `{HE : Env} w text before region after :
  files w !! c.readme_file = Some text → split_region text = Some (before, region, after) →
  entries w = None →
  update_readme_tocs w =
    (Raise (TypeError "'NoneType' object is not iterable"), mkWorld None ∅ (files w) (stdout w)).
Proof.
  intros Hf Hs He. unfold update_readme_tocs.
  erewrite bind_Ok by apply remove_tocs_run.
  erewrite bind_Ok by (by apply read_text_run).
  rewrite findall_readme, Hs. cbn [length decide]. rewrite decide_False by auto.
  erewrite bind_Raise; [reflexivity|]. unfold iter_entries. simpl. by rewrite He.
Qed.

(** With a region and entries, the readme is rewritten around the region. *)
Lemma update_readme_tocs_region `{HE : Env} w text before region after es :
  files w !! c.readme_file = Some text → split_region text = Some (before, region, after) →
  entries w = Some es →
  ∃ t, update_readme_tocs w =
    (Ok (), mkWorld (Some es) t (<[c.readme_file := new_readme before after es]> (files w))
              (stdout w ++ ["Readme and TOCs updated"])).
Proof.
  intros Hf Hs He. unfold update_readme_tocs.
  erewrite bind_Ok by apply remove_tocs_run.
  erewrite bind_Ok by (by apply read_text_run).
  rewrite findall_readme, Hs. cbn [length decide]. rewrite decide_False by auto.
  cbn [lookup list_lookup default].
  erewrite bind_Ok; last first.
  { unfold iter_entries. simpl. rewrite He. reflexivity. }
  cbv beta.
  set (w0 := mkWorld (Some es) ∅ (files w) (stdout w)).
  destruct (create_toc_writes "Games" "_games.md" (games es) w0) as [t1 E1].
  erewrite bind_Ok by exact E1. cbv beta.
  destruct (create_toc_writes "Tools" "_tools.md" (tools es)
              (mkWorld (entries w0) t1 (files w0) (stdout w0))) as [t2 E2].
  erewrite bind_Ok by exact E2. cbv beta.
  destruct (create_toc_writes "Frameworks" "_frameworks.md" (frameworks es)
              (mkWorld (entries w0) t2 (files w0) (stdout w0))) as [t3 E3].
  erewrite bind_Ok by exact E3. cbv beta.
  destruct (create_toc_writes "Libraries" "_libraries.md" (libraries es)
              (mkWorld (entries w0) t3 (files w0) (stdout w0))) as [t4 E4].
  erewrite bind_Ok by exact E4. cbv beta.
  destruct (for_each_writes c.recommended_keywords
              (λ keyword, create_toc (Str.capitalize keyword) (category_file keyword) (by_keyword keyword es))
              (λ x, create_toc_writes _ _ _) (mkWorld (entries w0) t4 (files w0) (stdout w0)))
    as [t5 E5].
  erewrite bind_Ok by exact E5. cbv beta.
  destruct (for_each_writes c.valid_platforms
              (λ platform, create_toc platform (platform_file platform) (by_platform platform es))
              (λ x, create_toc_writes _ _ _) (mkWorld (entries w0) t5 (files w0) (stdout w0)))
    as [t6 E6].
  erewrite bind_Ok by exact E6. cbv beta.
  erewrite bind_Ok by reflexivity.
  exists t6. reflexivity.
Qed.

(** The operation stops on the structure of the readme exactly when the
    regular expression finds no region; a second region changes nothing. *)
Lemma update_readme_tocs_aborts_iff `{HE : Env} w text :
  files w !! c.readme_file = Some text →
  (update_readme_tocs w).1 = Raise (RuntimeError "readme file has invalid structure")
  ↔ split_region text = None.
Proof.
  intros Hf. split.
  - destruct (split_region text) as [[[before region] after]|] eqn:Hs; [|done].
    destruct (entries w) as [es|] eqn:He.
    + destruct (update_readme_tocs_region w text before region after es Hf Hs He) as [t ->]. done.
    + by rewrite (update_readme_tocs_unloaded w text before region after Hf Hs He).
  - intros Hs. by rewrite (update_readme_tocs_no_region w text Hf Hs).
Qed.

Lemma one_region_split readme before body after :
  one_region readme before body after →
  split_region readme
  = Some (before, start_mark +:+ (start_tail +:+ body +:+ end_head) +:+ end_mark, after).
Proof.
  intros (-> & Hc1 & Hc2).
  assert (Heq : before +:+ start_line +:+ body +:+ end_line +:+ after
                = before +:+ start_mark +:+ (start_tail +:+ body +:+ end_head) +:+ end_mark +:+ after).
  { change start_line with (start_mark +:+ start_tail).
    change end_line with (end_head +:+ end_mark).
    by rewrite !str_app_assoc. }
  rewrite Heq in *. clear Heq.
  generalize dependent (start_tail +:+ body +:+ end_head). intros mid Hc1 Hc2.
  unfold split_region, split_at.
  rewrite (find_sub_unique start_mark) by done.
  rewrite (find_sub_unique end_mark); [done|].
  pose proof (count_sub_app_ge end_mark (before +:+ start_mark) (mid +:+ end_mark +:+ after)) as Hge.
  rewrite str_app_assoc in Hge.
  pose proof (count_sub_app_ge end_mark mid (end_mark +:+ after)) as Hge'.
  pose proof (count_sub_occ end_mark after). lia.
Qed.

Lemma strip_prefix_is_Some_longer m p x :
  is_Some (Str.strip_prefix m p) → is_Some (Str.strip_prefix m (p +:+ x)).
Proof.
  revert p. induction m as [|a m IH]; intros p; simpl; [eauto|].
  destruct p as [|b p]; [by intros [? [=]]|]. rewrite app_cons.
  destruct (decide (a = b)); [apply IH|by intros [? [=]]].
Qed.

(** What precedes the leftmost occurrence of a text does not hold the text. *)
Lemma find_sub_leftmost m s a b :
  m ≠ "" → Str.find_sub m s = Some (a, b) → Str.find_sub m a = None.
Proof.
  intros Hm. revert a. induction s as [|c s IH]; intros a; rewrite find_sub_unfold.
  - destruct (Str.strip_prefix m "") eqn:E; [|done]. intros [= <- <-].
    rewrite find_sub_unfold. destruct m; [done|]. done.
  - destruct (Str.strip_prefix m (String c s)) eqn:E.
    + intros [= <- <-]. rewrite find_sub_unfold. destruct m; [done|]. done.
    + destruct (Str.find_sub m s) as [[a' b']|] eqn:E'; [|done].
      intros [= <- <-]. rewrite find_sub_unfold.
      destruct (Str.strip_prefix m (String c a')) eqn:E2.
      * exfalso. apply find_sub_Some in E'. subst s.
        assert (Hs : is_Some (Str.strip_prefix m (String c a' +:+ m +:+ b'))).
        { apply strip_prefix_is_Some_longer. by rewrite E2. }
        rewrite app_cons, E in Hs. by destruct Hs.
      * by rewrite (IH a').
Qed.

Lemma contains_false s m : Str.find_sub m s = None → Str.contains s m = false.
Proof. intros Hn. unfold Str.contains. rewrite Hn. apply bool_decide_eq_false. by intros [? [=]]. Qed.

(** C5, as stated, fails: the readme has one start line and one end line,
    and the start mark of the regular expression also begins an earlier
    line. The lines between that earlier mark and the start line are not in
    the readme written. *)
Lemma C5_counterexample :
  let before :=
    "# Open Source Games" +:+ Str.nl +:+ "[comment]: # (start here)" +:+ Str.nl +:+ "KEEP ME" +:+ Str.nl in
  let w' := update_readme_tocs (Sample.world (Some Sample.store) Sample.readme_stray) in
  Sample.readme_stray
  = before +:+ start_line +:+ (Str.nl +:+ "old" +:+ Str.nl) +:+ end_line +:+ (Str.nl +:+ "A collection") ∧
  Str.count_sub start_line Sample.readme_stray = 1%nat ∧
  Str.count_sub end_line Sample.readme_stray = 1%nat ∧
  w'.1 = Ok () ∧
  ∃ new, files w'.2 !! c.readme_file = Some new ∧
         Str.startswith new before = false ∧
         Str.contains new "KEEP ME" = false.
Proof.
  intros before w'.
  assert (Hs : split_region Sample.readme_stray
               = Some ("# Open Source Games" +:+ Str.nl,
                       "[comment]: # (start here)" +:+ Str.nl +:+ "KEEP ME" +:+ Str.nl +:+ start_line
                       +:+ Str.nl +:+ "old" +:+ Str.nl +:+ end_line,
                       Str.nl +:+ "A collection")) by (vm_compute; reflexivity).
  destruct (update_readme_tocs_region (Sample.world (Some Sample.store) Sample.readme_stray)
              Sample.readme_stray _ _ _ Sample.store eq_refl Hs eq_refl) as [t Ht].
  split; [reflexivity|]. split; [vm_compute; reflexivity|]. split; [vm_compute; reflexivity|].
  subst w'. rewrite Ht. split; [reflexivity|].
  eexists. split; [cbn [snd files]; apply lookup_insert_eq|].
  split; vm_compute; reflexivity.
Qed.

(** C5 (amended): with the entries loaded, the readme is cut at the first
    place where the start mark of the regular expression begins and at the
    first place after it where the end mark ends. The text before the first
    cut and the text after the second are kept as they are, and what lies
    between is replaced by the start line, the generated text and the end
    line. When each mark begins at one place only, on the start line and on
    the end line, the text kept is the text before the start line and the
    text after the end line. *)
Theorem C5_text_outside_marks_preserved `{HE : Env} (w : World) (es : list Entry)
    (text before region after : string) :
  entries w = Some es →
  files w !! c.readme_file = Some text →
  split_region text = Some (before, region, after) →
  text = before +:+ region +:+ after ∧
  Str.contains before start_mark = false ∧
  (∃ mid, region = start_mark +:+ mid +:+ end_mark ∧ Str.contains mid end_mark = false) ∧
  (∃ t, update_readme_tocs w =
     (Ok (), mkWorld (Some es) t
               (<[c.readme_file :=
                    before +:+ (start_line +:+ Str.nl +:+ tocs_text es +:+ Str.nl +:+ end_line) +:+ after]>
                  (files w))
               (stdout w ++ ["Readme and TOCs updated"]))) ∧
  (∀ b body a, one_region text b body a →
     before = b ∧ region = start_line +:+ body +:+ end_line ∧ after = a).
Proof.
  intros He Hf Hs.
  assert (Hcut : ∃ t mid, Str.find_sub start_mark text = Some (before, t) ∧
                          Str.find_sub end_mark t = Some (mid, after) ∧
                          region = start_mark +:+ mid +:+ end_mark).
  { revert Hs. unfold split_region, split_at.
    destruct (Str.find_sub start_mark text) as [[b t]|]; [|done].
    destruct (Str.find_sub end_mark t) as [[mid a]|] eqn:E2; [|done].
    intros [= -> <- ->]. by exists t, mid. }
  destruct Hcut as (t & mid & H1 & H2 & ->).
  split; [|split; [|split; [|split]]].
  - apply find_sub_Some in H1 as ->. apply find_sub_Some in H2 as ->.
    by rewrite !str_app_assoc.
  - apply contains_false. by apply (find_sub_leftmost _ text _ t).
  - exists mid. split; [done|]. apply contains_false. by apply (find_sub_leftmost _ t _ after).
  - destruct (update_readme_tocs_region w text before _ after es Hf Hs He) as [tc Ht].
    exists tc. rewrite Ht. unfold new_readme. by rewrite !str_app_assoc.
  - intros b body a Hone. apply one_region_split in Hone. rewrite Hs in Hone.
    pose proof (f_equal (λ o, match o with Some (x, _, _) => x | None => "" end) Hone) as Hb.
    pose proof (f_equal (λ o, match o with Some (_, x, _) => x | None => "" end) Hone) as Hr.
    pose proof (f_equal (λ o, match o with Some (_, _, x) => x | None => "" end) Hone) as Ha.
    cbv beta iota in Hb, Hr, Ha. split; [done|]. split; [|done]. rewrite Hr.
    change start_line with (start_mark +:+ start_tail).
    change end_line with (end_head +:+ end_mark). by rewrite !str_app_assoc.
Qed.

Lemma C5_witness :
  ∃ t, update_readme_tocs (Sample.world (Some Sample.store) Sample.readme_stray) =
    (Ok (), mkWorld (Some Sample.store) t
              (<[c.readme_file :=
                   ("# Open Source Games" +:+ Str.nl)
                   +:+ (start_line +:+ Str.nl +:+ tocs_text Sample.store +:+ Str.nl +:+ end_line)
                   +:+ (Str.nl +:+ "A collection")]>
                 {[ c.readme_file := Sample.readme_stray ]})
              ["Readme and TOCs updated"]).
Proof.
  assert (Hs : split_region Sample.readme_stray
               = Some ("# Open Source Games" +:+ Str.nl,
                       "[comment]: # (start here)" +:+ Str.nl +:+ "KEEP ME" +:+ Str.nl +:+ start_line
                       +:+ Str.nl +:+ "old" +:+ Str.nl +:+ end_line,
                       Str.nl +:+ "A collection")) by (vm_compute; reflexivity).
  destruct (C5_text_outside_marks_preserved (Sample.world (Some Sample.store) Sample.readme_stray)
              Sample.store Sample.readme_stray _ _ _ eq_refl eq_refl Hs) as (_ & _ & _ & Hrun & _).
  exact Hrun.
Defined.

(** ** Evaluations *)

(** C3: [update_readme_tocs] has no guard on [self.entries]. Called before
    the entries are read it empties the directory of the tables of contents,
    reports nothing and fails on the iteration over [None]; [write_entries]
    and [update_statistics], in the same world, print [entries not yet
    loaded] and leave everything as it was. *)
Theorem C3_update_readme_tocs_unloaded :
  let w := Sample.world None Sample.readme in
  tocs w !! "_games.md" = Some "stale" ∧
  update_readme_tocs w =
    (Raise (TypeError "'NoneType' object is not iterable"), mkWorld None ∅ (files w) []) ∧
  write_entries w = (Ok (), printed "entries not yet loaded" w) ∧
  update_statistics w = (Ok (), printed "entries not yet loaded" w).
Proof. repeat split; vm_compute; reflexivity. Qed.

(** C4: for a project written in C whose [Building] section names Make as
    its build system, the list of projects without build system information
    holds the project and the list of projects with a build system other
    than CMake is empty. *)
Theorem C4_c_cpp_lists_at_toolkit :
  c_or_cpp Sample.toolkit = true ∧
  build_systems [Sample.toolkit] = ["Make"] ∧
  c_cpp_project_without_build_system [Sample.toolkit] = ["Toolkit"] ∧
  c_cpp_project_not_cmake [Sample.toolkit] = Ok [].
Proof. repeat split; vm_compute; reflexivity. Qed.

(** C2: a readme with two regions is accepted: the first region is replaced
    and the second is kept as part of the text after it. *)
Theorem C2_two_regions_not_fatal :
  let w := Sample.world (Some Sample.store) Sample.readme_twice in
  Str.count_sub start_line Sample.readme_twice = 2%nat ∧
  Str.count_sub end_line Sample.readme_twice = 2%nat ∧
  (update_readme_tocs w).1 = Ok () ∧
  files (update_readme_tocs w).2 !! c.readme_file =
    Some (new_readme ("# Open Source Games" +:+ Str.nl)
            (Str.nl +:+ "A collection" +:+ Str.nl +:+ start_line +:+ Str.nl +:+ "second"
             +:+ Str.nl +:+ end_line +:+ Str.nl)
            Sample.store).
Proof. repeat split; vm_compute; reflexivity. Qed.

(** ** Checks on small inputs *)

Example sort_by_stable :
  sort_by (λ x y : nat * string, bool_decide (x.1 ≤ y.1)%nat) [(2, "a"); (1, "b"); (2, "c"); (1, "d")]%nat
  = [(1, "b"); (1, "d"); (2, "a"); (2, "c")]%nat.
Proof. reflexivity. Qed.

Example capitalize_role_playing :
  Str.capitalize "role playing" = "Role playing" ∧ Str.lower "macOS" = "macos" ∧
  category_file "role playing" = "_role-playing.md".
Proof. repeat split; reflexivity. Qed.

Example findall_two_regions :
  re.findall readme_regex ("A" +:+ start_line +:+ "x" +:+ end_line +:+ "B" +:+ start_line +:+ "y" +:+ end_line)
  = [["A"; start_line +:+ "x" +:+ end_line; "B" +:+ start_line +:+ "y" +:+ end_line]].
Proof. vm_compute. reflexivity. Qed.

Example findall_no_end : re.findall readme_regex ("A" +:+ start_line +:+ "x") = [].
Proof. vm_compute. reflexivity. Qed.

Example language_table_sample :
  fst <$> default [] (match language_table Sample.store with Ok t => Some t | Raise _ => None end)
  = ["C"; "C++"; "JavaScript"; "Lua"].
Proof. vm_compute. reflexivity. Qed.

Example toc_row_sample :
  toc_row Sample.toolkit = "- **[Toolkit](../toolkit.md)** (C, MIT, mature)".
Proof. vm_compute. reflexivity. Qed.

(** ** The lists of C and C++ projects *)

Lemma has_field_build_system e :
  optional e !! "Build system" = None → has_field e "Build system" = false.
Proof.
  intros Ho. unfold has_field.
  rewrite decide_False by (by vm_compute; intros ?%list_elem_of_In; simpl in *; intuition discriminate).
  rewrite decide_False by done. rewrite decide_False by done.
  rewrite Ho. by apply bool_decide_eq_false; intros [? [=]].
Qed.

(** No entry has a key [Build system] of its own, the key being one of the
    [Building] dictionary; the first list then holds every project in C or
    C++, whatever its [Building] dictionary says. *)
Lemma c_cpp_without_build_system_all `{HE : Env} es :
  Forall (λ e, optional e !! "Build system" = None) es →
  c_cpp_project_without_build_system es
  = sort_by casefold_leb (Title <$> filter (λ e, c_or_cpp e = true) es).
Proof.
  intros Hall. unfold c_cpp_project_without_build_system. do 2 f_equal.
  induction Hall as [|e es He Hes IH]; [done|].
  rewrite !filter_cons, IH. unfold c_or_cpp.
  rewrite (has_field_build_system e He). simpl.
  destruct (decide (val_in "C" (Code_language e) || val_in "C++" (Code_language e) = true)); done.
Qed.

(** * Properties of the rest of the maintainer *)

Example text_checks :
  Text.split " " "a b  c" = ["a"; "b"; ""; "c"] ∧ Text.split "," "" = [""] ∧
  Text.strip_ascii "  a b  " = "a b" ∧ Text.endswith "x.git" ".git" = true ∧
  Text.endswith "git" ".git" = false ∧ Text.drop_end 4 "x.git" = "x" ∧
  Text.index_from "http" 5 "https://web.archive.org/web/2015/http://a.org" = Some 33%nat ∧
  Text.index_from "http" 5 "https://web.archive.org/web/" = None ∧
  Text.basename "entries/a.md" = "a.md".
Proof. repeat split; vm_compute; reflexivity. Qed.

(** ** Tables of contents *)

(** X1: a table of contents has one row for each entry it is given, and
    the rows are in ascending order of their case-folded text. *)
Theorem toc_rows_sorted `{HE : Env} (title : string) (es : list Entry) :
  toc_text title es
  = ("[comment]: # (autogenerated content, do not edit)" +:+ Str.nl +:+ "# " +:+ title +:+ Str.nl +:+ Str.nl)
    +:+ Str.join Str.nl (toc_rows es) ∧
  toc_rows es ≡ₚ toc_row <$> es ∧
  length (toc_rows es) = length es ∧
  StronglySorted (λ a b, casefold_leb a b = true) (toc_rows es).
Proof.
  split; [reflexivity|]. split; [apply sort_by_Permutation|]. split.
  - unfold toc_rows. by rewrite sort_by_Permutation, length_fmap.
  - apply sort_by_sorted; [apply casefold_leb_total|apply casefold_leb_trans].
Qed.

Lemma write_all_lookup_None l dir f :
  f ∉ l.*1 → write_all l dir !! f = dir !! f.
Proof.
  revert dir. induction l as [|[g t] l IH]; intros dir Hf; [done|].
  apply not_elem_of_cons in Hf as [Hne Hf]. simpl in *.
  rewrite IH by done. by rewrite lookup_insert_ne.
Qed.

Lemma write_all_lookup_Some l dir f t :
  NoDup l.*1 → (f, t) ∈ l → write_all l dir !! f = Some t.
Proof.
  revert dir. induction l as [|[g u] l IH]; intros dir Hnd Hin; [by apply elem_of_nil in Hin|].
  apply NoDup_cons in Hnd as [Hg Hnd]. simpl in *.
  apply elem_of_cons in Hin as [[= -> ->]|Hin].
  - rewrite write_all_lookup_None by done. by rewrite lookup_insert_eq.
  - by apply IH.
Qed.

Lemma write_all_is_Some l f :
  is_Some (write_all l ∅ !! f) ↔ f ∈ l.*1.
Proof.
  split.
  - intros Hs. destruct (decide (f ∈ l.*1)) as [|Hn]; [done|].
    rewrite write_all_lookup_None, lookup_empty in Hs by done. by destruct Hs.
  - revert f. generalize (∅ : gmap string string).
    induction l as [|[g u] l IH] using rev_ind; intros dir f Hin; [by apply elem_of_nil in Hin|].
    unfold write_all. rewrite foldl_app. simpl.
    rewrite fmap_app in Hin. apply elem_of_app in Hin as [Hin|Hin].
    + destruct (decide (g = f)) as [->|Hne]; [by rewrite lookup_insert_eq|].
      rewrite lookup_insert_ne by done. by apply IH.
    + apply list_elem_of_singleton in Hin as ->. simpl. by rewrite lookup_insert_eq.
Qed.

Lemma for_each_write_toc {A} (l : list A) (file text : A → string) w :
  for_each l (λ x, write_toc (file x) (text x)) w
  = (Ok (), mkWorld (entries w) (write_all ((λ x, (file x, text x)) <$> l) (tocs w)) (files w) (stdout w)).
Proof.
  revert w. induction l as [|x l IH]; intros w; simpl; [by destruct w|].
  erewrite bind_Ok by reflexivity. by rewrite IH.
Qed.

Lemma toc_files_names `{HE : Env} es : (toc_files es).*1 = toc_file_names.
Proof.
  unfold toc_files, toc_file_names. rewrite !fmap_app, <-!list_fmap_compose. reflexivity.
Qed.

Lemma toc_file_names_NoDup : NoDup toc_file_names.
Proof. compute_done. Qed.

(** With a region and entries, the world after [update_readme_tocs]. *)
Lemma update_readme_tocs_run `{HE : Env} w text before region after es :
  files w !! c.readme_file = Some text → split_region text = Some (before, region, after) →
  entries w = Some es →
  update_readme_tocs w =
    (Ok (), mkWorld (Some es) (write_all (toc_files es) ∅)
              (<[c.readme_file := new_readme before after es]> (files w))
              (stdout w ++ ["Readme and TOCs updated"])).
Proof.
  intros Hf Hs He. unfold update_readme_tocs.
  erewrite bind_Ok by apply remove_tocs_run.
  erewrite bind_Ok by (by apply read_text_run).
  rewrite findall_readme, Hs. cbn [length decide]. rewrite decide_False by auto.
  cbn [lookup list_lookup default].
  erewrite bind_Ok; last first.
  { unfold iter_entries. simpl. rewrite He. reflexivity. }
  cbv beta. unfold create_toc.
  do 4 (erewrite bind_Ok by reflexivity; cbv beta).
  erewrite bind_Ok by apply for_each_write_toc. cbv beta.
  erewrite bind_Ok by apply for_each_write_toc. cbv beta.
  erewrite bind_Ok by reflexivity.
  unfold print, toc_files, write_all. cbn [entries tocs files stdout].
  rewrite !foldl_app. reflexivity.
Qed.

(** X2: a successful [update_readme_tocs] leaves in the directory of the
    tables of contents exactly the files it generates, whatever was there
    before: the four primary tables, one per recommended keyword and one per
    platform. Their names do not depend on the entries, and each holds the
    table of its list of entries. *)
Theorem update_readme_tocs_regenerates_tocs `{HE : Env} (w : World) (es : list Entry)
    (text before region after : string) :
  entries w = Some es →
  files w !! c.readme_file = Some text →
  split_region text = Some (before, region, after) →
  let w' := (update_readme_tocs w).2 in
  (update_readme_tocs w).1 = Ok () ∧
  (∀ f, is_Some (tocs w' !! f) ↔ f ∈ toc_file_names) ∧
  length toc_file_names = 29%nat ∧
  (∀ f t, (f, t) ∈ toc_files es → tocs w' !! f = Some t) ∧
  (∀ keyword, keyword ∈ c.recommended_keywords →
     tocs w' !! category_file keyword
     = Some (toc_text (Str.capitalize keyword) (by_keyword keyword es))) ∧
  (∀ platform, platform ∈ c.valid_platforms →
     tocs w' !! platform_file platform = Some (toc_text platform (by_platform platform es))).
Proof.
  intros He Hf Hs w'. subst w'.
  rewrite (update_readme_tocs_run w text before region after es Hf Hs He). cbn [fst snd tocs].
  assert (Hlook : ∀ f t, (f, t) ∈ toc_files es → write_all (toc_files es) ∅ !! f = Some t).
  { intros f t. apply write_all_lookup_Some. rewrite toc_files_names. apply toc_file_names_NoDup. }
  split; [done|]. split.
  { intros f. by rewrite write_all_is_Some, toc_files_names. }
  split; [reflexivity|]. split; [done|]. split.
  - intros keyword Hk. apply Hlook. unfold toc_files.
    rewrite !elem_of_app. right. left.
    apply list_elem_of_fmap. by exists keyword.
  - intros platform Hp. apply Hlook. unfold toc_files.
    rewrite !elem_of_app. right. right.
    apply list_elem_of_fmap. by exists platform.
Qed.

Lemma update_readme_tocs_regenerates_tocs_witness :
  let w' := (update_readme_tocs (Sample.world (Some Sample.store) Sample.readme)).2 in
  tocs w' !! "_games.md" = Some (toc_text "Games" (games Sample.store)) ∧
  tocs w' !! "_stale.md" = None.
Proof.
  pose (w := Sample.world (Some Sample.store) Sample.readme).
  destruct (update_readme_tocs_regenerates_tocs w Sample.store Sample.readme
              ("# Open Source Games" +:+ Str.nl)
              (start_line +:+ Str.nl +:+ "old" +:+ Str.nl +:+ end_line)
              (Str.nl +:+ "A collection") eq_refl eq_refl)
    as (_ & Hdom & _ & Hfiles & _).
  - vm_compute. reflexivity.
  - split.
    + apply Hfiles. left.
    + destruct (tocs (update_readme_tocs w).2 !! "_stale.md") eqn:E; [|done].
      exfalso. assert (Hin : "_stale.md" ∈ toc_file_names) by (apply Hdom; rewrite E; eauto).
      revert Hin. compute_done.
Defined.

(** X3: a readme file in which no start mark is followed by an end mark
    stops [update_readme_tocs] with the error on the structure, and this is
    the only case in which that error is raised; the readme is then left as
    it was and nothing is printed, but the tables of contents are already
    deleted. A missing readme file stops it in the same state. *)
Theorem update_readme_tocs_structure_error `{HE : Env} (w : World) :
  (∀ text, files w !! c.readme_file = Some text →
     ((update_readme_tocs w).1 = Raise (RuntimeError "readme file has invalid structure")
      ↔ split_region text = None) ∧
     (split_region text = None →
      (update_readme_tocs w).2 = mkWorld (entries w) ∅ (files w) (stdout w))) ∧
  (files w !! c.readme_file = None →
   update_readme_tocs w =
     (Raise (FileNotFoundError c.readme_file), mkWorld (entries w) ∅ (files w) (stdout w))).
Proof.
  split.
  - intros text Hf. split; [by apply update_readme_tocs_aborts_iff|].
    intros Hs. by rewrite (update_readme_tocs_no_region w text Hf Hs).
  - intros Hf. unfold update_readme_tocs.
    erewrite bind_Ok by apply remove_tocs_run.
    erewrite bind_Raise; [reflexivity|]. unfold read_text. simpl. by rewrite Hf.
Qed.

Lemma update_readme_tocs_structure_error_witness :
  (update_readme_tocs (Sample.world (Some Sample.store) "no region here")).1
  = Raise (RuntimeError "readme file has invalid structure").
Proof.
  destruct (update_readme_tocs_structure_error (Sample.world (Some Sample.store) "no region here"))
    as [H1 _].
  destruct (H1 "no region here" eq_refl) as [Hiff _].
  apply Hiff. vm_compute. reflexivity.
Defined.

(** ** The dependencies [check_inconsistencies] reports *)

Lemma assoc_incr_eq k d : assoc k (incr k d) = Some (S (default 0%nat (assoc k d))).
Proof.
  induction d as [|[k' n] d IH]; simpl.
  - by rewrite decide_True.
  - destruct (decide (k = k')) as [->|Hne]; simpl.
    + by rewrite decide_True.
    + by rewrite decide_False.
Qed.

Lemma assoc_incr_ne k k' d : k ≠ k' → assoc k' (incr k d) = assoc k' d.
Proof.
  intros Hne. induction d as [|[k'' n] d IH]; simpl.
  - by rewrite decide_False.
  - destruct (decide (k = k'')) as [->|Hne']; simpl.
    + by rewrite !decide_False.
    + destruct (decide (k' = k'')); [done|]. apply IH.
Qed.

Lemma incr_keys k d : k ∈ d.*1 → (incr k d).*1 = d.*1.
Proof.
  induction d as [|[k' n] d IH]; [by intros ?%elem_of_nil|].
  csimpl. destruct (decide (k = k')) as [->|Hne]; [done|].
  intros [?|Hin]%elem_of_cons; [done|]. csimpl. by rewrite IH.
Qed.

Lemma incr_keys_new k d : k ∉ d.*1 → (incr k d).*1 = (d.*1 ++ [k])%list.
Proof.
  induction d as [|[k' n] d IH]; [done|].
  csimpl. intros [Hne Hin]%not_elem_of_cons. rewrite decide_False by done.
  csimpl. by rewrite IH.
Qed.

Lemma incr_NoDup k d : NoDup d.*1 → NoDup (incr k d).*1.
Proof.
  intros Hnd. destruct (decide (k ∈ d.*1)) as [Hin|Hin].
  - by rewrite incr_keys.
  - rewrite incr_keys_new by done. apply NoDup_app. split; [done|].
    split; [|apply NoDup_singleton]. intros x Hx ->%list_elem_of_singleton. done.
Qed.

Lemma assoc_elem {V} k (v : V) d : NoDup d.*1 → (k, v) ∈ d ↔ assoc k d = Some v.
Proof.
  induction d as [|[k' v'] d IH]; intros Hnd; simpl.
  - split; [by intros ?%elem_of_nil|done].
  - apply NoDup_cons in Hnd as [Hk' Hnd]. rewrite elem_of_cons.
    destruct (decide (k = k')) as [->|Hne].
    + split; [|by intros [= ->]; left].
      intros [[= ->]|Hin]; [done|]. exfalso. apply Hk'.
      apply list_elem_of_fmap. by exists (k', v).
    + rewrite <-IH by done. split; [intros [[= ??]|?]; done|auto].
Qed.

Lemma count_snoc k l x :
  count k (l ++ [x]) = (count k l + (if decide (x = k) then 1 else 0))%nat.
Proof.
  unfold count. rewrite filter_app, length_app. f_equal.
  rewrite filter_cons, filter_nil. by destruct (decide (x = k)).
Qed.

Lemma fold_incr_assoc l k :
  assoc k (foldl (λ d x, incr x d) [] l)
  = if decide (count k l = 0%nat) then None else Some (count k l).
Proof.
  induction l as [|x l IH] using rev_ind; [done|].
  rewrite foldl_app, count_snoc. simpl.
  destruct (decide (x = k)) as [->|Hne].
  - rewrite assoc_incr_eq, IH. rewrite (decide_False (P := (_ + 1 = 0)%nat)) by lia.
    destruct (decide (count k l = 0%nat)) as [->|]; simpl; f_equal; lia.
  - rewrite assoc_incr_ne by done. rewrite IH, Nat.add_0_r. done.
Qed.

Lemma fold_incr_NoDup l : NoDup (foldl (λ d x, incr x d) [] l).*1.
Proof.
  induction l as [|x l IH] using rev_ind; [constructor|].
  rewrite foldl_app. simpl. by apply incr_NoDup.
Qed.

Lemma referenced_dependencies_report_aux es k n :
  (k, n) ∈ referenced_dependencies es ↔
  (k ∉ valid_dependencies es) ∧ n = count k (all_code_dependencies es) ∧ (0 < n)%nat.
Proof.
  unfold referenced_dependencies.
  change (values _) with (all_code_dependencies es).
  set (all := foldl (λ d k, incr k d) [] (all_code_dependencies es)).
  assert (Hnd : NoDup all.*1) by apply fold_incr_NoDup.
  rewrite sort_by_Permutation, list_elem_of_filter. simpl.
  rewrite (assoc_elem k n all Hnd). unfold all. rewrite fold_incr_assoc.
  destruct (decide (count k (all_code_dependencies es) = 0%nat)) as [Hz|Hz].
  - split; [by intros [_ ?]|]. intros (_ & -> & Hpos). lia.
  - split; [intros [? [= <-]]|intros (? & -> & _)]; repeat split; (done || lia).
Qed.

(** X4: among the dependencies the entries name, those that are no valid
    dependency are each reported once, with the number of times they are
    named in the whole store, the most named first; a valid dependency is
    never reported. *)
Theorem referenced_dependencies_report (es : list Entry) :
  (∀ k n, (k, n) ∈ referenced_dependencies es ↔
          (k ∉ valid_dependencies es) ∧ n = count k (all_code_dependencies es) ∧ (0 < n)%nat) ∧
  NoDup (referenced_dependencies es).*1 ∧
  StronglySorted (λ x y : string * nat, (y.2 ≤ x.2)%nat) (referenced_dependencies es).
Proof.
  unfold referenced_dependencies.
  change (values _) with (all_code_dependencies es).
  set (all := foldl (λ d k, incr k d) [] (all_code_dependencies es)).
  assert (Hnd : NoDup all.*1) by apply fold_incr_NoDup.
  split; [|split].
  - intros k n. apply referenced_dependencies_report_aux.
  - rewrite sort_by_Permutation. apply NoDup_fmap_fst.
    + intros k n1 n2 [_ H1]%list_elem_of_filter [_ H2]%list_elem_of_filter.
      apply (assoc_elem _ _ _ Hnd) in H1, H2. congruence.
    + apply NoDup_filter. eapply NoDup_fmap_1. exact Hnd.
  - eapply StronglySorted_mono; [|apply sort_by_sorted].
    + intros x y. by rewrite bool_decide_eq_true.
    + intros x y. rewrite !bool_decide_eq_true. lia.
    + intros x y z. rewrite !bool_decide_eq_true. lia.
Qed.

(** X5: the title of an entry tagged [framework], [library] or [game
    engine] is a valid dependency when the title has no alias; when it has
    aliases, these are valid in its place. Either way the names so obtained
    are never reported as missing, and neither is a name of the list of
    general dependencies. *)
Theorem valid_dependencies_of_entries (es : list Entry) (e : Entry) :
  e ∈ es →
  existsb (λ x, bool_decide (value x ∈ ["framework"; "library"; "game engine"])) (Keywords e) = true →
  (assoc (Title e) c.code_dependencies_aliases = None →
   Title e ∈ valid_dependencies es ∧ ∀ n, (Title e, n) ∉ referenced_dependencies es) ∧
  (∀ aliases a, assoc (Title e) c.code_dependencies_aliases = Some aliases → a ∈ aliases →
   a ∈ valid_dependencies es ∧ ∀ n, (a, n) ∉ referenced_dependencies es) ∧
  (∀ g n, g ∈ c.general_code_dependencies_without_entry → (g, n) ∉ referenced_dependencies es).
Proof.
  intros He Hk.
  assert (Hnames : ∀ a, a ∈ names_of e → a ∈ valid_dependencies es).
  { intros a Ha. unfold valid_dependencies. apply elem_of_app. right.
    apply list_elem_of_bind. eauto. }
  assert (Hrep : ∀ a n, a ∈ valid_dependencies es → (a, n) ∉ referenced_dependencies es).
  { intros a n Ha Hin. apply (proj1 (referenced_dependencies_report_aux es a n)) in Hin. tauto. }
  split; [|split].
  - intros Hnone. assert (Title e ∈ valid_dependencies es); [|by auto].
    apply Hnames. unfold names_of. rewrite Hk, Hnone. left.
  - intros aliases a Hsome Ha. assert (a ∈ valid_dependencies es); [|by auto].
    apply Hnames. unfold names_of. by rewrite Hk, Hsome.
  - intros g n Hg. apply Hrep. unfold valid_dependencies. apply elem_of_app. by left.
Qed.

Lemma valid_dependencies_of_entries_witness :
  "Toolkit" ∈ valid_dependencies Sample.store ∧ ∀ n, ("Toolkit", n) ∉ referenced_dependencies Sample.store.
Proof.
  assert (Hin : Sample.toolkit ∈ Sample.store) by left.
  destruct (valid_dependencies_of_entries Sample.store Sample.toolkit Hin eq_refl) as (H1 & _).
  apply H1. reflexivity.
Defined.

(** ** [special_ops] *)

Lemma has_field_optional e k :
  k ∉ c.essential_fields → k ≠ "Building" → k ≠ "Note" →
  has_field e k = bool_decide (is_Some (optional e !! k)).
Proof. intros H1 H2 H3. unfold has_field. by rewrite !decide_False. Qed.

Lemma drop_default_download_spec e :
  drop_default_download e =
  if is_default_download e
  then mkEntry (File e) (Title e) (Home e) (State e) (Keywords e) (Code_repository e)
         (Code_language e) (Code_license e) (delete "Download" (optional e)) (Note e) (Building e)
  else e.
Proof.
  unfold drop_default_download, is_default_download, get_field.
  rewrite has_field_optional by (done || compute_done).
  destruct (optional e !! "Download") as [[|v [|??]]|]; simpl.
  all: try (rewrite bool_decide_true by eauto).
  all: try (rewrite bool_decide_false by (by intros [? [=]])).
  all: try done.
Qed.

Lemma is_default_download_drop e : is_default_download (drop_default_download e) = false.
Proof.
  rewrite drop_default_download_spec.
  destruct (is_default_download e) eqn:E; [|done].
  unfold is_default_download. simpl. by rewrite lookup_delete_eq.
Qed.

(** X6: [special_ops] on a loaded store removes the [Download] field of the
    entries where it is the single value [@see-home] without a comment, and
    changes nothing else: the other entries, every other field, the files
    and the tables of contents are what they were. No entry is left with
    such a field, so a second run changes no entry. *)
Theorem special_ops_removes_default_download (w : World) (es : list Entry) :
  entries w = Some es → es ≠ [] →
  special_ops w =
    (Ok (), mkWorld (Some (drop_default_download <$> es)) (tocs w) (files w)
              (stdout w ++ ["special ops finished"])) ∧
  (∀ e, is_default_download e = false → drop_default_download e = e) ∧
  (∀ e, is_default_download e = true →
     let e' := drop_default_download e in
     has_field e' "Download" = false ∧
     (∀ k, k ≠ "Download" → has_field e' k = has_field e k ∧ get_field e' k = get_field e k) ∧
     File e' = File e ∧ Title e' = Title e ∧ Home e' = Home e ∧ State e' = State e ∧
     Keywords e' = Keywords e ∧ Code_repository e' = Code_repository e ∧
     Code_language e' = Code_language e ∧ Code_license e' = Code_license e ∧
     Note e' = Note e ∧ Building e' = Building e) ∧
  Forall (λ e', is_default_download e' = false) (drop_default_download <$> es) ∧
  drop_default_download <$> (drop_default_download <$> es) = drop_default_download <$> es.
Proof.
  intros He Hne.
  assert (Hidem : ∀ e, drop_default_download (drop_default_download e) = drop_default_download e).
  { intros e. rewrite (drop_default_download_spec (drop_default_download e)).
    by rewrite is_default_download_drop. }
  split; [|split; [|split; [|split]]].
  - unfold special_ops. rewrite (guarded_loaded _ w es) by done.
    erewrite bind_Ok by reflexivity. reflexivity.
  - intros e Hd. rewrite drop_default_download_spec. by rewrite Hd.
  - intros e Hd e'. subst e'. rewrite drop_default_download_spec, Hd.
    split; [|split; [|done]].
    + rewrite has_field_optional by (done || compute_done). simpl.
      rewrite lookup_delete_eq. by apply bool_decide_eq_false; intros [? [=]].
    + intros k Hk. unfold has_field, get_field. simpl.
      by rewrite lookup_delete_ne.
  - apply Forall_fmap, Forall_true. intros e. apply is_default_download_drop.
  - rewrite <-list_fmap_compose. apply list_fmap_ext. intros ? e _. apply Hidem.
Qed.

Lemma special_ops_removes_default_download_witness :
  let e := mkEntry "a.md" "A" [] [] [] [] [] []
             {[ "Download" := [Sample.V "@see-home"]; "Play" := [Sample.V "https://a.example.org"] ]}
             None ∅ in
  (special_ops (mkWorld (Some [e]) ∅ ∅ [])).1 = Ok () ∧
  has_field (drop_default_download e) "Download" = false ∧
  has_field (drop_default_download e) "Play" = true.
Proof.
  intros e.
  destruct (special_ops_removes_default_download (mkWorld (Some [e]) ∅ ∅ []) [e] eq_refl)
    as (Hrun & _ & Hdrop & _).
  - discriminate.
  - split; [by rewrite Hrun|].
    destruct (Hdrop e eq_refl) as (Hd & Hk & _).
    split; [exact Hd|]. by rewrite (proj1 (Hk "Play" ltac:(discriminate))).
Defined.

(** ** [update_statistics] *)

Lemma not_cmake_loop_spec titles acc :
  c_cpp_project_not_cmake_loop titles acc =
  if existsb (λ t, Str.contains t "Build system") titles
  then Raise (TypeError "string indices must be integers") else Ok acc.
Proof.
  induction titles as [|t titles IH]; simpl; [done|].
  destruct (Str.contains t "Build system"); [done|]. apply IH.
Qed.

Section StatisticsMore.
Context `{EnvLaws}.

(** X7: on a loaded store [update_statistics] either writes the statistics
    file and reports it, or fails with a [TypeError] and writes nothing; it
    fails exactly when the title of an entry whose repositories are on no
    popular site contains the text [Build system], because the last loop
    runs over these titles and indexes them as if they were entries. *)
Theorem update_statistics_outcome (w : World) (es : list Entry) :
  entries w = Some es → es ≠ [] →
  let crash := existsb (λ t, Str.contains t "Build system") (not_on_popular_site es) in
  (crash = true →
   update_statistics w = (Raise (TypeError "string indices must be integers"), w)) ∧
  (crash = false →
   ∃ page, statistics_text es = Ok page ∧
     update_statistics w =
       (Ok (), mkWorld (entries w) (tocs w) (<[c.statistics_file := page]> (files w))
                 (stdout w ++ ["statistics updated"]))).
Proof.
  intros He Hne crash.
  assert (Hn : length es ≠ 0%nat) by (by destruct es).
  assert (Hloop : c_cpp_project_not_cmake es =
            if crash then Raise (TypeError "string indices must be integers") else Ok []).
  { unfold c_cpp_project_not_cmake. rewrite not_cmake_loop_spec. fold crash. by destruct crash. }
  assert (Htext : if crash then statistics_text es = Raise (TypeError "string indices must be integers")
                  else ∃ page, statistics_text es = Ok page).
  { unfold statistics_text.
    destruct (state_section_ok es Hne) as [st ->].
    unfold language_table, license_table, keyword_table, code_dependency_table,
      build_system_table, platform_table.
    rewrite !frequency_table_ok.
    destruct (rel_ok (length es) (entries_with_code_dependency es) Hn) as [q1 ->].
    destruct (rel_ok (length es) (length (build_systems es)) Hn) as [q2 ->].
    destruct (rel_ok (length es) (length (platforms es)) Hn) as [q3 ->].
    rewrite Hloop. destruct crash; [reflexivity|]. eexists. reflexivity. }
  unfold update_statistics. rewrite (guarded_loaded _ w es) by done.
  split; intros Hc; rewrite Hc in Htext.
  - erewrite bind_Raise; [reflexivity|]. unfold lift. by rewrite Htext.
  - destruct Htext as [page Hpage]. exists page. split; [done|].
    erewrite bind_Ok by (unfold lift; by rewrite Hpage).
    erewrite bind_Ok by reflexivity. reflexivity.
Qed.

End StatisticsMore.

Lemma update_statistics_outcome_witness :
  let e := mkEntry "b.md" "Build system tools" [] [] [] [] [] [] ∅ None ∅ in
  update_statistics (mkWorld (Some [e]) ∅ ∅ []) =
    (Raise (TypeError "string indices must be integers"), mkWorld (Some [e]) ∅ ∅ []).
Proof.
  intros e.
  destruct (update_statistics_outcome (H := Sample.env) (mkWorld (Some [e]) ∅ ∅ []) [e] eq_refl)
    as [Hcrash _].
  - discriminate.
  - apply Hcrash. vm_compute. reflexivity.
Defined.



(** ** Lines of a text *)

Lemma split_nonempty sep s : Text.split sep s ≠ [].
Proof.
  induction s as [|a s IH]; simpl; [done|].
  destruct (decide (a = sep)); [done|]. by destruct (Text.split sep s).
Qed.

Lemma split_free sep s : free_of sep s → Text.split sep s = [s].
Proof.
  induction s as [|a s IH]; simpl; [done|]. intros [Hne Hs].
  rewrite decide_False by done. by rewrite IH.
Qed.

Lemma split_app sep x rest :
  free_of sep x → Text.split sep (x +:+ String sep rest) = x :: Text.split sep rest.
Proof.
  induction x as [|a x IH]; intros Hx.
  - rewrite app_empty_l. simpl. by rewrite decide_True.
  - destruct Hx as [Hne Hx]. rewrite app_cons. simpl.
    rewrite decide_False by done. by rewrite IH.
Qed.

Lemma split_Forall_free sep s : Forall (free_of sep) (Text.split sep s).
Proof.
  induction s as [|a s IH]; simpl; [by repeat constructor|].
  destruct (decide (a = sep)); [by constructor|].
  destruct (Text.split sep s) as [|x l]; [by repeat constructor|].
  apply Forall_cons in IH as [Hx Hl]. by constructor.
Qed.

Lemma join_cons sep x y l : Str.join sep (x :: y :: l) = x +:+ sep +:+ Str.join sep (y :: l).
Proof. reflexivity. Qed.

(** Joining the lines of a text gives the text back. *)
Lemma join_lines text : Str.join Str.nl (lines text) = text.
Proof.
  unfold lines. induction text as [|a s IH]; [done|].
  simpl. destruct (decide (a = "010"%char)) as [->|Hne].
  - pose proof (split_nonempty "010" s) as Hn.
    destruct (Text.split "010" s) as [|y l] eqn:E; [done|].
    rewrite join_cons, IH. reflexivity.
  - pose proof (split_nonempty "010" s) as Hn.
    destruct (Text.split "010" s) as [|y l] eqn:E; [done|].
    destruct l as [|z l].
    + simpl in *. by rewrite IH.
    + rewrite join_cons in *. rewrite app_cons. by rewrite IH.
Qed.

(** Cutting the join of lines without line feed gives the lines back. *)
Lemma lines_join l : l ≠ [] → Forall (free_of "010") l → lines (Str.join Str.nl l) = l.
Proof.
  intros Hne Hfree. unfold lines. induction Hfree as [|x l Hx Hl IH]; [done|].
  destruct l as [|y l].
  - simpl. by apply split_free.
  - rewrite join_cons. change (Str.nl +:+ ?r) with (String "010" r).
    rewrite split_app by done. by rewrite IH.
Qed.

Lemma lines_free text : lines text ≠ [] ∧ Forall (free_of "010") (lines text).
Proof. split; [apply split_nonempty|apply split_Forall_free]. Qed.

(** X10: cutting a text in lines and joining the lines with a line feed
    gives the text back; joining lines that hold no line feed, at least one
    line, and cutting the result gives the lines back. *)
Theorem lines_join_round_trip :
  (∀ text, Str.join Str.nl (lines text) = text) ∧
  (∀ l, l ≠ [] → Forall (free_of "010") l → lines (Str.join Str.nl l) = l) ∧
  (∀ text, lines text ≠ [] ∧ Forall (free_of "010") (lines text)).
Proof. split; [exact join_lines|]. split; [exact lines_join|exact lines_free]. Qed.

Lemma lines_join_round_trip_witness :
  lines (Str.join Str.nl ["b"; ""; "a"]) = ["b"; ""; "a"].
Proof.
  apply (proj1 (proj2 lines_join_round_trip)); [discriminate|].
  repeat constructor; discriminate.
Defined.

Section SortTextFile.
Context `{EnvLaws}.

Lemma sorted_unique_elem l x : x ∈ sorted_unique l ↔ x ∈ l.
Proof. unfold sorted_unique. rewrite sort_by_Permutation. apply pyset_elem. Qed.

Lemma sorted_unique_NoDup l : NoDup (sorted_unique l).
Proof. unfold sorted_unique. rewrite sort_by_Permutation. apply pyset_NoDup. Qed.

Lemma sorted_unique_sorted l :
  StronglySorted (λ a b, casefold_leb a b = true) (sorted_unique l).
Proof. apply sort_by_sorted; [apply casefold_leb_total|apply casefold_leb_trans]. Qed.

Lemma sorted_unique_lines text :
  lines (Str.join Str.nl (sorted_unique (lines text))) = sorted_unique (lines text).
Proof.
  destruct (lines_free text) as [Hne Hfree].
  apply lines_join.
  - destruct (lines text) as [|x l] eqn:E; [done|].
    intros Hnil. assert (Hx : x ∈ sorted_unique (x :: l)) by (apply sorted_unique_elem; left).
    rewrite Hnil in Hx. by apply elem_of_nil in Hx.
  - apply Forall_forall. intros x Hx. apply (proj1 (sorted_unique_elem _ _)) in Hx.
    rewrite Forall_forall in Hfree. by apply Hfree.
Qed.

(** What [sort_text_file] does to a file that is there. *)
Lemma sort_text_file_lines (w : World) (file name text : string) :
  files w !! file = Some text →
  ∃ text',
    sort_text_file file name w =
      (Ok (), mkWorld (entries w) (tocs w) (<[file := text']> (files w))
                (stdout w ++ [name +:+ " contains " +:+ pretty (length (lines text')) +:+ " items"])) ∧
    (∀ x, x ∈ lines text' ↔ x ∈ lines text) ∧
    NoDup (lines text') ∧
    StronglySorted (λ a b, casefold_leb a b = true) (lines text').
Proof.
  intros Hf. exists (Str.join Str.nl (sorted_unique (lines text))).
  rewrite sorted_unique_lines. split; [|split; [|split]].
  - unfold sort_text_file. erewrite bind_Ok by (by apply read_text_run).
    erewrite bind_Ok by reflexivity. reflexivity.
  - apply sorted_unique_elem.
  - apply sorted_unique_NoDup.
  - apply sorted_unique_sorted.
Qed.

(** X11: [sort_text_file] rewrites a file with the same lines, each once,
    in ascending order of their case-folded text; it reports their number
    and touches nothing else. When the file is missing it fails and nothing
    is written or printed. *)
Theorem sort_text_file_effect (w : World) (file name : string) :
  (∀ text, files w !! file = Some text →
     ∃ text',
       sort_text_file file name w =
         (Ok (), mkWorld (entries w) (tocs w) (<[file := text']> (files w))
                   (stdout w ++ [name +:+ " contains " +:+ pretty (length (lines text')) +:+ " items"])) ∧
       (∀ x, x ∈ lines text' ↔ x ∈ lines text) ∧
       NoDup (lines text') ∧
       StronglySorted (λ a b, casefold_leb a b = true) (lines text')) ∧
  (files w !! file = None → sort_text_file file name w = (Raise (FileNotFoundError file), w)).
Proof.
  split.
  - intros text Hf. by apply sort_text_file_lines.
  - intros Hf. unfold sort_text_file.
    erewrite bind_Raise; [reflexivity|]. unfold read_text. by rewrite Hf.
Qed.

(** X12: running [sort_text_file] again on the file it wrote keeps the
    same lines; when no two distinct lines have the same [str.casefold] key
    the second run writes the very same text. *)
Theorem sort_text_file_twice (w : World) (file name text : string) :
  files w !! file = Some text →
  let w1 := (sort_text_file file name w).2 in
  let w2 := (sort_text_file file name w1).2 in
  ∃ t1 t2, files w1 !! file = Some t1 ∧ files w2 !! file = Some t2 ∧
    lines t2 ≡ₚ lines t1 ∧
    ((∀ a b, a ∈ lines text → b ∈ lines text → str_casefold a = str_casefold b → a = b) →
     t2 = t1 ∧ files w2 = files w1).
Proof.
  intros Hf w1 w2.
  destruct (sort_text_file_lines w file name text Hf) as (t1 & Hrun1 & Hel1 & Hnd1 & Hs1).
  assert (Hf1 : files w1 !! file = Some t1).
  { unfold w1. rewrite Hrun1. simpl. by rewrite lookup_insert_eq. }
  destruct (sort_text_file_lines w1 file name t1 Hf1) as (t2 & Hrun2 & Hel2 & Hnd2 & Hs2).
  exists t1, t2. split; [done|]. split.
  { unfold w2. rewrite Hrun2. simpl. by rewrite lookup_insert_eq. }
  assert (Hperm : lines t2 ≡ₚ lines t1) by (by apply NoDup_Permutation).
  split; [done|]. intros Hinj.
  assert (Hlines : lines t2 = lines t1).
  { eapply (StronglySorted_unique_strong (λ a b, casefold_leb a b = true)); try done.
    intros a b Ha Hb Hab Hba. apply Hinj.
    - by apply Hel1, Hel2.
    - by apply Hel1.
    - unfold casefold_leb, Str.leb in *. by apply String.leb_antisym. }
  assert (Ht : t2 = t1).
  { rewrite <-(join_lines t2), <-(join_lines t1). by rewrite Hlines. }
  split; [done|]. unfold w2. rewrite Hrun2. simpl. rewrite Ht.
  apply insert_id. done.
Qed.

End SortTextFile.

Lemma sort_text_file_effect_witness :
  (sort_text_file rejected_file "rejected games list"
     (mkWorld None ∅ {[ rejected_file := "b" +:+ Str.nl +:+ "A" +:+ Str.nl +:+ "b" ]} [])).1 = Ok ().
Proof.
  pose (w := mkWorld None ∅ {[ rejected_file := "b" +:+ Str.nl +:+ "A" +:+ Str.nl +:+ "b" ]} []).
  assert (Hf : files w !! rejected_file = Some ("b" +:+ Str.nl +:+ "A" +:+ Str.nl +:+ "b"))
    by (vm_compute; reflexivity).
  destruct (proj1 (sort_text_file_effect (H := Sample.env) w rejected_file "rejected games list") _ Hf)
    as (t & Hrun & _).
  fold w. rewrite Hrun. reflexivity.
Defined.

Lemma sort_text_file_twice_witness :
  let w := mkWorld None ∅ {[ rejected_file := "b" +:+ Str.nl +:+ "A" +:+ Str.nl +:+ "b" ]} [] in
  ∃ t1 t2, files (sort_text_file rejected_file "r" w).2 !! rejected_file = Some t1 ∧
    files (sort_text_file rejected_file "r" (sort_text_file rejected_file "r" w).2).2 !! rejected_file = Some t2 ∧
    lines t2 ≡ₚ lines t1.
Proof.
  intros w.
  assert (Hf : files w !! rejected_file = Some ("b" +:+ Str.nl +:+ "A" +:+ Str.nl +:+ "b"))
    by (vm_compute; reflexivity).
  destruct (sort_text_file_twice (H := Sample.env) w rejected_file "r" _ Hf)
    as (t1 & t2 & H1 & H2 & H3 & _).
  exists t1, t2. split; [exact H1|]. split; [exact H2|exact H3].
Defined.

(** ** Links *)

Lemma drop_app a b : Text.drop (String.length a) (a +:+ b) = b.
Proof. induction a as [|c a IH]; [by destruct b|]. rewrite app_cons. simpl. exact IH. Qed.

Lemma endswith_app a x : Text.endswith (a +:+ x) x = true.
Proof.
  unfold Text.endswith. rewrite length_str_app.
  rewrite bool_decide_true by lia.
  replace (String.length a + String.length x - String.length x)%nat with (String.length a) by lia.
  rewrite drop_app. by rewrite bool_decide_true.
Qed.

Lemma drop_end_app a x : Text.drop_end (String.length x) (a +:+ x) = a.
Proof.
  unfold Text.drop_end. rewrite length_str_app.
  replace (String.length a + String.length x - String.length x)%nat with (String.length a) by lia.
  apply take_app.
Qed.

Lemma take_drop n s : re.take n s +:+ Text.drop n s = s.
Proof.
  revert s. induction n as [|n IH]; intros [|a s]; simpl; try done.
  rewrite app_cons. by rewrite IH.
Qed.

Lemma endswith_inv s x : Text.endswith s x = true → ∃ a, s = a +:+ x.
Proof.
  unfold Text.endswith. intros [_ Hd%bool_decide_eq_true]%andb_true_iff.
  set (n := (String.length s - String.length x)%nat) in *.
  exists (re.take n s). rewrite <-Hd. by rewrite take_drop.
Qed.

Lemma str_app_inj_last a b x y : a +:+ String x "" = b +:+ String y "" → a = b ∧ x = y.
Proof.
  revert b. induction a as [|c a IH]; intros [|d b]; rewrite ?app_cons, ?app_empty_l.
  - by intros [= ->].
  - intros [= -> Hb]. by destruct b.
  - intros [= -> Ha]. by destruct a.
  - intros [= -> Hab]. apply IH in Hab as [-> ->]. done.
Qed.

(** A text that ends with a slash does not end with [.git]. *)
Lemma endswith_slash_git s : Text.endswith (s +:+ "/") ".git" = false.
Proof.
  destruct (Text.endswith (s +:+ "/") ".git") eqn:E; [|done].
  apply endswith_inv in E as [a Ha].
  change ".git" with (".gi" +:+ "t") in Ha. rewrite <-str_app_assoc in Ha.
  by apply str_app_inj_last in Ha as [_ ?].
Qed.

Lemma startswith_any_app url l1 l2 :
  startswith_any url (l1 ++ l2) = startswith_any url l1 || startswith_any url l2.
Proof. unfold startswith_any. apply existsb_app. Qed.

(** X13: a link that is not empty, begins with none of the prefixes the
    rules name and does not contain the path of the Bazaar repositories is
    checked as it is, except that one ending [.git] is removed; so
    [base.git] is checked as [base]. *)
Theorem normalize_link_ordinary (url : string) :
  url ≠ "" →
  startswith_any url special_prefixes = false →
  Str.contains url "bzr.sourceforge.net/bzrroot/" = false →
  normalize_link url = Some (if Text.endswith url ".git" then Text.drop_end 4 url else url) ∧
  (∀ base, url = base +:+ ".git" → normalize_link url = Some base).
Proof.
  intros Hne Hsp Hbzr.
  unfold special_prefixes in Hsp. rewrite !startswith_any_app, !orb_false_iff in Hsp.
  destruct Hsp as (Hign & Hslash & Hmid & Hkeep).
  unfold startswith_any in Hmid. simpl in Hmid. rewrite !orb_false_iff in Hmid.
  destruct Hmid as (Hbb & Hsvn & Hcvs1 & Hcvs2 & _).
  assert (Hn : normalize_link url = Some (if Text.endswith url ".git" then Text.drop_end 4 url else url)).
  { unfold normalize_link. rewrite bool_decide_true by done. rewrite Hign, Hbzr.
    cbn [negb andb]. cbv zeta. rewrite Hslash, Hbb. cbn [andb].
    rewrite Hsvn, Hcvs1, Hcvs2, Hkeep. cbn [negb]. by rewrite andb_true_r. }
  split; [done|]. intros base ->. rewrite Hn, endswith_app.
  f_equal. exact (drop_end_app base ".git").
Qed.

Lemma normalize_link_ordinary_witness :
  normalize_link "https://example.com/repo.git" = Some "https://example.com/repo".
Proof.
  apply (proj2 (normalize_link_ordinary "https://example.com/repo.git"
                  ltac:(discriminate) ltac:(vm_compute; reflexivity) ltac:(vm_compute; reflexivity))).
  reflexivity.
Defined.

(** X14: a link into a Subversion repository of SourceForge is checked
    over [http] with a slash added, and the clone address of a Bitbucket
    repository is checked as the page of its commits. *)
Theorem normalize_link_hosts (rest : string) :
  (Str.contains ("https://svn.code.sf.net/p/" +:+ rest) "bzr.sourceforge.net/bzrroot/" = false →
   normalize_link ("https://svn.code.sf.net/p/" +:+ rest)
   = Some ("http://svn.code.sf.net/p/" +:+ rest +:+ "/")) ∧
  (Str.contains ("https://bitbucket.org/" +:+ rest +:+ ".git") "bzr.sourceforge.net/bzrroot/" = false →
   normalize_link ("https://bitbucket.org/" +:+ rest +:+ ".git")
   = Some ("https://bitbucket.org/" +:+ rest +:+ "/commits/")).
Proof.
  split; intros Hbzr.
  - unfold normalize_link. rewrite Hbzr.
    rewrite bool_decide_true by done.
    replace (startswith_any _ ignored_urls) with false by (vm_compute; reflexivity).
    cbn [negb andb]. cbv zeta.
    replace (startswith_any _ slash_prefixes) with false by (vm_compute; reflexivity).
    replace (Str.startswith _ "https://bitbucket.org/") with false by (vm_compute; reflexivity).
    cbn [andb].
    replace (Str.startswith _ "https://svn.code.sf.net/p/") with true by (vm_compute; reflexivity).
    change ("http" +:+ Text.drop 5 ("https://svn.code.sf.net/p/" +:+ rest) +:+ "/")
      with ("http://svn.code.sf.net/p/" +:+ rest +:+ "/").
    replace (Str.startswith _ "http://cvs.savannah.nongnu.org:/sources/") with false
      by (vm_compute; reflexivity).
    replace (Str.startswith _ "http://cvs.savannah.gnu.org:/sources/") with false
      by (vm_compute; reflexivity).
    rewrite <-(str_app_assoc "http://svn.code.sf.net/p/" rest "/"), endswith_slash_git.
    reflexivity.
  - unfold normalize_link. rewrite Hbzr.
    rewrite bool_decide_true by done.
    replace (startswith_any _ ignored_urls) with false by (vm_compute; reflexivity).
    cbn [negb andb]. cbv zeta.
    replace (startswith_any _ slash_prefixes) with false by (vm_compute; reflexivity).
    replace (Str.startswith _ "https://bitbucket.org/") with true by (vm_compute; reflexivity).
    rewrite <-(str_app_assoc "https://bitbucket.org/" rest ".git"), endswith_app.
    cbn [andb]. rewrite (drop_end_app _ ".git").
    replace (Str.startswith _ "https://svn.code.sf.net/p/") with false by (vm_compute; reflexivity).
    replace (Str.startswith _ "http://cvs.savannah.nongnu.org:/sources/") with false
      by (vm_compute; reflexivity).
    replace (Str.startswith _ "http://cvs.savannah.gnu.org:/sources/") with false
      by (vm_compute; reflexivity).
    change "/commits/" with ("/commits" +:+ "/").
    rewrite <-(str_app_assoc _ "/commits" "/"), endswith_slash_git.
    cbn [andb]. by rewrite !str_app_assoc.
Qed.

Lemma normalize_link_hosts_witness :
  normalize_link "https://svn.code.sf.net/p/openrails/code" = Some "http://svn.code.sf.net/p/openrails/code/".
Proof.
  apply (proj1 (normalize_link_hosts "openrails/code")). vm_compute. reflexivity.
Defined.

(** ** [clean_backlog] *)

Example rejected_urls_check `{HH : Helpers} :
  rejected_urls (H := Sample2.helpers) ("- Foo (http://a.org, https://b.org/x): no" +:+ Str.nl +:+ "- Bar (no link)" +:+ Str.nl
                 +:+ "- Baz (http://c.org" +:+ Str.nl +:+ ")")
  = ["http://a.org"; "https://b.org/x"].
Proof. vm_compute. reflexivity. Qed.

Lemma bind2_inr {A B} (m : M2 A) (f : A → M2 B) w a w' :
  m w = (inr a, w') → (m ≫= f) w = f a w'.
Proof. unfold mbind, M2_bind. by intros ->. Qed.

Lemma bind2_inl {A B} (m : M2 A) (f : A → M2 B) w e w' :
  m w = (inl e, w') → (m ≫= f) w = (inl e, w').
Proof. unfold mbind, M2_bind. by intros ->. Qed.

Lemma lift2_read_text path w t :
  files w !! path = Some t → lift2 (read_text path) w = (inr t, w).
Proof. intros Hf. unfold lift2. by rewrite (read_text_run path w t Hf). Qed.

Lemma drop_add n m s : Text.drop (n + m) s = Text.drop m (Text.drop n s).
Proof.
  revert s. induction n as [|n IH]; intros s; [done|].
  destruct s as [|a s]; simpl; [by destruct m|]. apply IH.
Qed.

Lemma length_take_le n s : (String.length (re.take n s) ≤ n)%nat.
Proof.
  revert s. induction n as [|n IH]; intros [|a s]; simpl; try lia.
  specialize (IH s). lia.
Qed.

Lemma length_take_drop n s : Text.drop n s ≠ "" → String.length (re.take n s) = n.
Proof.
  revert s. induction n as [|n IH]; intros [|a s]; simpl; try done.
  intros Hd. by rewrite IH.
Qed.

(** X15: the original address taken from an archive link is the end of
    the link that begins at an [http] found after its first five
    characters; when there is no such [http] the lookup fails. *)
Theorem original_url_suffix (url : string) :
  (∀ u, original_url url = Some u →
     ∃ a, url = a +:+ u ∧ (5 ≤ String.length a)%nat ∧ Str.startswith u "http" = true) ∧
  (original_url url = None ↔ Str.find_sub "http" (Text.drop 5 url) = None).
Proof.
  unfold original_url, Text.index_from.
  destruct (Str.find_sub "http" (Text.drop 5 url)) as [[before after]|] eqn:E.
  - split; [|done]. intros u Hu.
    assert (Heq : Text.drop (5 + String.length before) url = u) by congruence.
    clear Hu. rewrite (drop_add 5) in Heq. subst u.
    apply find_sub_Some in E.
    exists (re.take 5 url +:+ before).
    rewrite E, drop_app.
    split; [|split].
    + rewrite str_app_assoc, <-E. by rewrite take_drop.
    + rewrite length_str_app, length_take_drop; [lia|].
      rewrite E. by destruct before.
    + unfold Str.startswith. rewrite strip_prefix_app. by apply bool_decide_eq_true.
  - split; [done|]. done.
Qed.

Lemma original_url_suffix_witness :
  ∃ a, "https://web.archive.org/web/2015/http://a.org" = a +:+ "http://a.org" ∧ (5 ≤ String.length a)%nat.
Proof.
  destruct (proj1 (original_url_suffix "https://web.archive.org/web/2015/http://a.org") "http://a.org")
    as (a & Ha & Hlen & _).
  - vm_compute. reflexivity.
  - exists a. split; [exact Ha|exact Hlen].
Defined.

Lemma more_urls_None l :
  more_urls l = None ↔
  ∃ url, url ∈ l ∧ Str.startswith url "https://web.archive.org/web" = true ∧ original_url url = None.
Proof.
  induction l as [|url l IH]; simpl.
  - split; [done|]. by intros (? & ?%elem_of_nil & _).
  - destruct (Str.startswith url "https://web.archive.org/web") eqn:Hs.
    + destruct (original_url url) as [u|] eqn:Ho.
      * destruct (more_urls l) as [more|].
        -- split; [done|]. intros (x & [->|Hx]%elem_of_cons & H1 & H2); [congruence|].
           assert (None = None → @None (list string) = None) by done.
           destruct IH as [_ IH]. discriminate IH. eauto.
        -- split; [|done]. intros _. destruct IH as [IH _].
           destruct (IH eq_refl) as (x & Hx & ?). exists x. split; [by right|done].
      * split; [|done]. intros _. exists url. split; [left|done].
    + rewrite IH. split.
      * intros (x & Hx & ?). exists x. split; [by right|done].
      * intros (x & [->|Hx]%elem_of_cons & H1 & H2); [congruence|]. eauto.
Qed.

Section BacklogFacts.
Context `{EnvLaws} `{Helpers}.

(** X16: with both files there and every archive link holding its original
    address, [clean_backlog] rewrites the backlog with the lines it had whose
    stripped address is the stripped address of no entry, no rejected address
    and no original of an archive link; these lines are written once each in
    ascending order of their case-folded text, so no line is ever added. If
    an archive link holds no original address the run fails with a
    [ValueError] and the backlog is left as it was. *)
Theorem clean_backlog_steps_result (w : World) (es : list Entry) (rejected backlog : string) :
  files w !! rejected_file = Some rejected →
  files w !! backlog_file = Some backlog →
  let included := (osg_all_urls es ++ rejected_urls rejected)%list in
  (∀ more, more_urls included = Some more →
     ∃ l, clean_backlog_steps es w =
            (inr (), mkWorld (entries w) (tocs w) (<[backlog_file := Str.join Str.nl l]> (files w))
                       (stdout w ++ ["backlog contains " +:+ pretty (length l) +:+ " items";
                                     "backlog cleaned"])) ∧
          (∀ x, x ∈ l ↔ x ∈ lines backlog ∧
                        utils_strip_url x ∉ utils_strip_url <$> (included ++ more)%list) ∧
          NoDup l ∧
          StronglySorted (λ a b, casefold_leb a b = true) l ∧
          (l ≠ [] → lines (Str.join Str.nl l) = l)) ∧
  (more_urls included = None →
   clean_backlog_steps es w = (inl (ValueError "substring not found"), w)).
Proof.
  intros Hr Hb included. split.
  - intros more Hmore.
    exists (sorted_unique (backlog_kept (included ++ more)%list backlog)).
    split; [|split; [|split; [|split]]].
    + unfold clean_backlog_steps.
      erewrite bind2_inr by (by apply lift2_read_text). cbv zeta. fold included. rewrite Hmore.
      erewrite bind2_inr by (by apply lift2_read_text).
      erewrite bind2_inr by reflexivity.
      erewrite bind2_inr by reflexivity.
      unfold lift2, print. cbn [entries tocs files stdout].
      by rewrite <-app_assoc.
    + intros x. rewrite sorted_unique_elem. unfold backlog_kept.
      rewrite list_elem_of_filter. tauto.
    + apply sorted_unique_NoDup.
    + apply sorted_unique_sorted.
    + intros Hne. apply lines_join; [done|]. apply Forall_forall. intros x Hx.
      apply (proj1 (sorted_unique_elem _ _)) in Hx.
      unfold backlog_kept in Hx. apply list_elem_of_filter in Hx as [_ Hx].
      destruct (lines_free backlog) as [_ Hfree]. rewrite Forall_forall in Hfree. by apply Hfree.
  - intros Hmore. unfold clean_backlog_steps.
    erewrite bind2_inr by (by apply lift2_read_text). cbv zeta. fold included. by rewrite Hmore.
Qed.

End BacklogFacts.

Example sample_clean_backlog :
  (clean_backlog_steps Sample.store Sample2.world).1 = inr () ∧
  files (clean_backlog_steps Sample.store Sample2.world).2 !! backlog_file = Some "https://new.example.org".
Proof. split; vm_compute; reflexivity. Qed.

Example sample_update_repos :
  (update_repos_steps Sample.store Sample2.world).1 = Ok () ∧
  stdout (update_repos_steps Sample.store Sample2.world).2 !! 0%nat
  = Some ("Entry " +:+ Str.dq +:+ "web_game.md" +:+ Str.dq +:+ " unconsumed repo: https://web.example.org/src").
Proof. split; vm_compute; reflexivity. Qed.

Example sample_template_leftovers :
  stdout (check_template_leftovers Sample2.world).2
  = ["b.md: found _Description_"; "checked for template leftovers"].
Proof. vm_compute. reflexivity. Qed.

(** ** [update_repos] and [collect_git_repos] *)

Lemma StronglySorted_strict {A} (R : relation A) l :
  StronglySorted R l → NoDup l → StronglySorted (λ a b, R a b ∧ a ≠ b) l.
Proof.
  induction 1 as [|x l Hl IH Hx]; intros Hnd; constructor.
  - apply IH. by apply NoDup_cons in Hnd as [_ ?].
  - apply NoDup_cons in Hnd as [Hxl _]. apply Forall_forall. intros y Hy. split.
    + rewrite Forall_forall in Hx. by apply Hx.
    + by intros ->.
Qed.

Lemma leb_trans a b d : Str.leb a b = true → Str.leb b d = true → Str.leb a d = true.
Proof.
  unfold Str.leb. intros H1%Is_true_true H2%Is_true_true. apply Is_true_true.
  change (String.le a d). by trans b.
Qed.

Section RepoFacts.
Context `{HE : Env} `{!EnvLaws} `{Helpers}.

Lemma sorted_set_elem v x : x ∈ sorted_set v ↔ x ∈ v.
Proof. unfold sorted_set. rewrite sort_by_Permutation. apply pyset_elem. Qed.

Lemma sorted_set_strict v :
  StronglySorted (λ a b, Str.leb a b = true ∧ a ≠ b) (sorted_set v).
Proof.
  apply StronglySorted_strict.
  - apply sort_by_sorted; [apply leb_total|apply leb_trans].
  - unfold sorted_set. rewrite sort_by_Permutation. apply pyset_NoDup.
Qed.

Lemma elem_of_repos_of_store es e repo :
  (e, repo) ∈ repos_of_store es ↔ e ∈ es ∧ repo ∈ considered_repos e.
Proof.
  unfold repos_of_store. rewrite list_elem_of_bind. split.
  - intros (e' & (r & [= -> ->] & Hr)%list_elem_of_fmap & He). done.
  - intros [He Hr]. exists e. split; [|done]. apply list_elem_of_fmap. by exists repo.
Qed.

(** X17: the manifest of [update_repos] lists under [git] the addresses
    [osg.git_repo] gives for a repository looked at, under [svn] those
    [osg.svn_repo] gives for a repository that is no Git repository, and
    under [hg] those [osg.hg_repo] gives for a repository that is neither.
    Each list is strictly ascending, so it holds no address twice. *)
Theorem archives_lists (es : list Entry) :
  (∀ url, url ∈ git_urls es ↔
     ∃ e repo, e ∈ es ∧ repo ∈ considered_repos e ∧ osg_git_repo repo = Some url) ∧
  (∀ url, url ∈ svn_urls es ↔
     ∃ e repo, e ∈ es ∧ repo ∈ considered_repos e ∧
               osg_git_repo repo = None ∧ osg_svn_repo repo = Some url) ∧
  (∀ url, url ∈ hg_urls es ↔
     ∃ e repo, e ∈ es ∧ repo ∈ considered_repos e ∧
               osg_git_repo repo = None ∧ osg_svn_repo repo = None ∧ osg_hg_repo repo = Some url) ∧
  StronglySorted (λ a b, Str.leb a b = true ∧ a ≠ b) (git_urls es) ∧
  StronglySorted (λ a b, Str.leb a b = true ∧ a ≠ b) (svn_urls es) ∧
  StronglySorted (λ a b, Str.leb a b = true ∧ a ≠ b) (hg_urls es).
Proof.
  split; [|split; [|split; [|split; [|split]]]]; try apply sorted_set_strict.
  - intros url. unfold git_urls. rewrite sorted_set_elem, list_elem_of_omap. split.
    + intros ([e repo] & [He Hr]%elem_of_repos_of_store & Hc). exists e, repo.
      split; [done|]. split; [done|]. revert Hc. unfold classify. simpl.
      destruct (osg_git_repo repo); [congruence|].
      destruct (osg_svn_repo repo); [done|]. by destruct (osg_hg_repo repo).
    + intros (e & repo & He & Hr & Hg). exists (e, repo).
      split; [by apply elem_of_repos_of_store|]. unfold classify. simpl. by rewrite Hg.
  - intros url. unfold svn_urls. rewrite sorted_set_elem, list_elem_of_omap. split.
    + intros ([e repo] & [He Hr]%elem_of_repos_of_store & Hc). exists e, repo.
      split; [done|]. split; [done|]. revert Hc. unfold classify. simpl.
      destruct (osg_git_repo repo); [done|].
      destruct (osg_svn_repo repo); [by intros [= ->]|]. by destruct (osg_hg_repo repo).
    + intros (e & repo & He & Hr & Hg & Hs). exists (e, repo).
      split; [by apply elem_of_repos_of_store|]. unfold classify. simpl. by rewrite Hg, Hs.
  - intros url. unfold hg_urls. rewrite sorted_set_elem, list_elem_of_omap. split.
    + intros ([e repo] & [He Hr]%elem_of_repos_of_store & Hc). exists e, repo.
      split; [done|]. split; [done|]. revert Hc. unfold classify. simpl.
      destruct (osg_git_repo repo); [done|].
      destruct (osg_svn_repo repo); [done|].
      destruct (osg_hg_repo repo); [by intros [= ->]|done].
    + intros (e & repo & He & Hr & Hg & Hs & Hh). exists (e, repo).
      split; [by apply elem_of_repos_of_store|]. unfold classify. simpl. by rewrite Hg, Hs, Hh.
Qed.

(** X18: [update_repos] past its guard prints a line for each repository
    looked at that none of the three recognisers accepts, and for no other,
    then the number of Git addresses and their number per domain; it writes
    the manifest and nothing else. *)
Theorem update_repos_steps_run (w : World) (es : list Entry) :
  update_repos_steps es w =
    (Ok (), mkWorld (entries w) (tocs w)
              (<[archives_file :=
                   json_dumps_dict [("git", git_urls es); ("svn", svn_urls es); ("hg", hg_urls es)]]>
                 (files w))
              (stdout w ++ unconsumed_lines es
                 ++ [pretty (length (git_urls es)) +:+ " Git repositories"]
                 ++ (domain_line (git_urls es) <$> archive_domains)
                 ++ ["Repositories updated"])) ∧
  (∀ line, line ∈ unconsumed_lines es ↔
     ∃ e repo, e ∈ es ∧ repo ∈ considered_repos e ∧ line = unconsumed_line (e, repo) ∧
               osg_git_repo repo = None ∧ osg_svn_repo repo = None ∧ osg_hg_repo repo = None) ∧
  (∀ e, considered_repos e = [] ↔ Code_repository e = []).
Proof.
  split; [|split].
  - unfold update_repos_steps.
    erewrite bind_Ok; last first.
    { apply (for_each_lines _
        (λ p, option_list (match classify p.2 with Unconsumed => Some (unconsumed_line p) | _ => None end))).
      intros p w'. destruct (classify p.2); simpl; try (by rewrite printed_all_nil). done. }
    erewrite bind_Ok by apply print_printed.
    erewrite bind_Ok; last first.
    { apply (for_each_lines _ (λ domain, [domain_line (git_urls es) domain])). done. }
    erewrite bind_Ok by reflexivity.
    rewrite print_printed. unfold printed_all. cbn [entries tocs files stdout].
    rewrite bind_option_list, bind_singleton. unfold unconsumed_lines.
    by rewrite <-!app_assoc.
  - intros line. unfold unconsumed_lines. rewrite list_elem_of_omap. split.
    + intros ([e repo] & [He Hr]%elem_of_repos_of_store & Hc). exists e, repo.
      split; [done|]. split; [done|]. revert Hc. unfold classify. simpl.
      destruct (osg_git_repo repo); [done|].
      destruct (osg_svn_repo repo); [done|].
      destruct (osg_hg_repo repo); [done|]. by intros [= <-].
    + intros (e & repo & He & Hr & -> & Hg & Hs & Hh). exists (e, repo).
      split; [by apply elem_of_repos_of_store|]. unfold classify. simpl. by rewrite Hg, Hs, Hh.
  - intros e. unfold considered_repos, values.
    destruct (Code_repository e) as [|v vs]; simpl; [done|]. split; done.
Qed.

(** X19: [collect_git_repos] has no guard. Before the entries are read it
    fails on the iteration over [None] and writes nothing; with a store, even
    an empty one, it writes the list of the repositories [osg.git_repo]
    recognises, as the entries write them, once each. *)
Theorem collect_git_repos_run (w : World) :
  (entries w = None →
   collect_git_repos w = (Raise (TypeError "'NoneType' object is not iterable"), w)) ∧
  (∀ es, entries w = Some es →
     collect_git_repos w =
       (Ok (), mkWorld (entries w) (tocs w)
                 (<[git_repositories_file := json_dumps_list (collected_git_repos es)]> (files w))
                 (stdout w)) ∧
     (∀ repo, repo ∈ collected_git_repos es ↔
        is_Some (osg_git_repo repo) ∧
        ∃ e v, e ∈ es ∧ v ∈ Code_repository e ∧ repo = repo_address (value v)) ∧
     NoDup (collected_git_repos es)) ∧
  collected_git_repos [] = [].
Proof.
  split; [|split].
  - intros He. unfold collect_git_repos.
    erewrite bind_Raise; [reflexivity|]. unfold iter_entries. rewrite He. by destruct w.
  - intros es He. split; [|split].
    + unfold collect_git_repos.
      erewrite bind_Ok; [|unfold iter_entries; by rewrite He]. reflexivity.
    + intros repo. unfold collected_git_repos.
      rewrite sorted_unique_elem, list_elem_of_filter, list_elem_of_fmap.
      unfold values. split.
      * intros [Hg (x & -> & (v & -> & (e & Hv & He')%list_elem_of_bind)%list_elem_of_fmap)].
        split; [done|]. by exists e, v.
      * intros [Hg (e & v & He' & Hv & ->)]. split; [done|].
        exists (value v). split; [done|]. apply list_elem_of_fmap. exists v. split; [done|].
        apply list_elem_of_bind. by exists e.
    + apply sorted_unique_NoDup.
  - unfold collected_git_repos, sorted_unique. simpl. by rewrite pyset_nil.
Qed.

(** ** [check_template_leftovers] *)

(** X20: [check_template_leftovers] reports, for each entry file in turn,
    the lines of the template its content holds, in the order of the
    template; the empty lines and the lines that begin with [##] are never
    reported. Without the template file nothing is printed. *)
Theorem check_template_leftovers_run (w : World) :
  (∀ template, files w !! template_file = Some template →
     check_template_leftovers w =
       (Ok (), printed_all ((osg_entry_iterator ≫= leftovers_of (check_strings template))
                            ++ ["checked for template leftovers"]) w) ∧
     (∀ item line, item ∈ osg_entry_iterator →
        line ∈ leftovers_of (check_strings template) item ↔
        ∃ s, line = leftover_line item.1.2 s ∧ s ∈ lines template ∧ s ≠ "" ∧
             Str.startswith s "##" = false ∧ Str.contains item.2 s = true)) ∧
  (files w !! template_file = None →
   check_template_leftovers w = (Raise (FileNotFoundError template_file), w)).
Proof.
  split.
  - intros template Hf. split.
    + unfold check_template_leftovers.
      erewrite bind_Ok by (by apply read_text_run). cbv zeta.
      erewrite bind_Ok; last first.
      { apply (for_each_lines _ (leftovers_of (check_strings template))).
        intros item w'.
        rewrite (for_each_lines _
          (λ s, option_list (if Str.contains item.2 s then Some (leftover_line item.1.2 s) else None))).
        - f_equal. f_equal. rewrite bind_option_list. unfold leftovers_of.
          induction (check_strings template) as [|s l IH]; [done|].
          rewrite filter_cons. cbn [omap list_omap].
          destruct (Str.contains item.2 s) eqn:Hc.
          + case_decide; [|done]. by rewrite fmap_cons, <-IH.
          + case_decide; [done|]. exact IH.
        - intros s w''. destruct (Str.contains item.2 s); simpl; [done|].
          by rewrite printed_all_nil. }
      rewrite print_printed. by rewrite printed_all_app.
    + intros item line _. unfold leftovers_of, check_strings.
      rewrite list_elem_of_fmap. split.
      * intros (s & -> & [Hc [[Hne Hh] Hs]%list_elem_of_filter]%list_elem_of_filter). by exists s.
      * intros (s & -> & Hs & Hne & Hh & Hc). exists s. split; [done|].
        apply list_elem_of_filter. split; [done|]. by apply list_elem_of_filter.
  - intros Hf. unfold check_template_leftovers.
    erewrite bind_Raise; [reflexivity|]. unfold read_text. by rewrite Hf.
Qed.

End RepoFacts.

(** ** The properties on the sample data *)

Lemma clean_backlog_steps_result_witness :
  ∃ l, (clean_backlog_steps Sample.store Sample2.world).1 = inr () ∧
       files (clean_backlog_steps Sample.store Sample2.world).2 !! backlog_file = Some (Str.join Str.nl l) ∧
       NoDup l.
Proof.
  assert (Hr : files Sample2.world !! rejected_file = Some Sample2.rejected) by (vm_compute; reflexivity).
  assert (Hb : files Sample2.world !! backlog_file = Some Sample2.backlog) by (vm_compute; reflexivity).
  destruct (proj1 (clean_backlog_steps_result Sample2.world Sample.store _ _ Hr Hb)
              ["http://old.example.org"]) as (l & Hrun & _ & Hnd & _).
  - vm_compute. reflexivity.
  - exists l. rewrite Hrun. split; [reflexivity|]. split; [|exact Hnd].
    cbn [snd files]. apply lookup_insert_eq.
Defined.


Lemma archives_lists_witness :
  "https://github.com/example/toolkit.git" ∈ git_urls Sample.store ∧
  StronglySorted (λ a b, Str.leb a b = true ∧ a ≠ b) (git_urls Sample.store).
Proof.
  destruct (archives_lists (HE := Sample.env) Sample.store) as (Hgit & _ & _ & Hs & _).
  split; [|exact Hs].
  apply Hgit. exists Sample.toolkit, "https://github.com/example/toolkit.git".
  split; [left|]. split; [left|reflexivity].
Defined.

Lemma update_repos_steps_run_witness :
  unconsumed_line (Sample.web_game, "https://web.example.org/src") ∈ unconsumed_lines Sample.store.
Proof.
  destruct (update_repos_steps_run (HE := Sample.env) Sample2.world Sample.store) as (_ & Hun & _).
  apply Hun. exists Sample.web_game, "https://web.example.org/src".
  split; [do 2 right; left|]. split; [left|]. repeat split; reflexivity.
Defined.

Lemma collect_git_repos_run_witness :
  collect_git_repos (mkWorld None ∅ ∅ [])
  = (Raise (TypeError "'NoneType' object is not iterable"), mkWorld None ∅ ∅ []) ∧
  (collect_git_repos (mkWorld (Some []) ∅ ∅ [])).1 = Ok ().
Proof.
  split.
  - apply (proj1 (collect_git_repos_run (HE := Sample.env) (mkWorld None ∅ ∅ []))). reflexivity.
  - destruct (proj1 (proj2 (collect_git_repos_run (HE := Sample.env) (mkWorld (Some []) ∅ ∅ []))) [] eq_refl)
      as (Hrun & _).
    by rewrite Hrun.
Defined.

Lemma check_template_leftovers_run_witness :
  stdout (check_template_leftovers Sample2.world).2
  = ["b.md: found _Description_"; "checked for template leftovers"].
Proof.
  assert (Hf : files Sample2.world !! template_file
               = Some ("# {NAME}" +:+ Str.nl +:+ Str.nl +:+ "_Description_" +:+ Str.nl +:+ "## Building"))
    by (vm_compute; reflexivity).
  destruct (proj1 (check_template_leftovers_run Sample2.world) _ Hf) as (Hrun & _).
  rewrite Hrun. vm_compute. reflexivity.
Defined.

(** ** The second run of [update_readme_tocs] *)

Lemma strip_prefix_is_Some_app m p x y :
  (String.length m ≤ String.length p)%nat →
  is_Some (Str.strip_prefix m (p +:+ x)) → is_Some (Str.strip_prefix m (p +:+ y)).
Proof.
  revert p. induction m as [|a m IH]; intros p Hlen; simpl; [eauto|].
  destruct p as [|b p]; simpl in Hlen; [lia|]. rewrite !app_cons.
  destruct (decide (a = b)); [|done]. apply IH. lia.
Qed.

(** The first occurrence of a text stays where it is when what follows it changes. *)
Lemma find_sub_change_tail m a t t' :
  Str.find_sub m (a +:+ m +:+ t) = Some (a, t) → Str.find_sub m (a +:+ m +:+ t') = Some (a, t').
Proof.
  induction a as [|c a IH].
  - intros _. rewrite app_empty_l, find_sub_unfold. by rewrite strip_prefix_app.
  - rewrite !app_cons, !(find_sub_unfold m (String c _)).
    destruct (Str.strip_prefix m (String c (a +:+ m +:+ t))) as [r|] eqn:E; [done|].
    destruct (Str.strip_prefix m (String c (a +:+ m +:+ t'))) as [r'|] eqn:E'.
    + exfalso. assert (Hs : is_Some (Str.strip_prefix m (String c (a +:+ m +:+ t)))).
      { rewrite <-app_cons, <-str_app_assoc. rewrite <-app_cons, <-str_app_assoc in E'.
        apply (strip_prefix_is_Some_app m _ t' t); [|by rewrite E'].
        rewrite length_str_app. lia. }
      rewrite E in Hs. by destruct Hs.
    + destruct (Str.find_sub m (a +:+ m +:+ t)) as [[a' b']|] eqn:Ea; [|done].
      intros [= -> ->]. by rewrite IH.
Qed.

Lemma d_closed_app a b : d_closed a = true → d_closed b = true → d_closed (a +:+ b) = true.
Proof.
  induction a as [|c a IH]; [done|]. rewrite app_cons. simpl.
  destruct (decide (c = "d"%char)); [|exact IH].
  destruct a as [|c' a]; [done|]. rewrite app_cons.
  intros [Hc Ha]%andb_true_iff Hb. rewrite Hc. by apply IH.
Qed.

Lemma d_closed_join sep l :
  d_closed sep = true → Forall (λ x, d_closed x = true) l → d_closed (Str.join sep l) = true.
Proof.
  intros Hsep. induction 1 as [|x l Hx Hl IH]; [done|].
  destruct l as [|y l]; [done|]. rewrite join_cons.
  apply d_closed_app; [done|]. by apply d_closed_app.
Qed.

Lemma d_closed_pretty_N_go x s : d_closed s = true → d_closed (pretty.pretty_N_go x s) = true.
Proof.
  revert s. induction (N.lt_wf_0 x) as [x _ IH]; intros s Hs.
  assert (x = 0 ∨ 0 < x)%N as [->|?] by lia.
  - by rewrite pretty.pretty_N_go_0.
  - rewrite pretty.pretty_N_go_step by done. apply IH.
    { by apply N.div_lt. }
    unfold pretty.pretty_N_char. by repeat case_match.
Qed.

Lemma d_closed_pretty (n : nat) : d_closed (pretty n) = true.
Proof.
  unfold pretty, pretty.pretty_nat, pretty, pretty.pretty_N.
  destruct (decide (N.of_nat n = 0%N)); [done|]. by apply d_closed_pretty_N_go.
Qed.

Lemma toc_link_head title file anchor n :
  toc_link title file anchor n = link_head title file anchor +:+ pretty n +:+ ")".
Proof. unfold toc_link, link_head. by rewrite !str_app_assoc. Qed.

Lemma d_closed_toc_link title file anchor n :
  d_closed (link_head title file anchor) = true → d_closed (toc_link title file anchor n) = true.
Proof.
  intros Hh. rewrite toc_link_head. apply d_closed_app; [done|].
  apply d_closed_app; [apply d_closed_pretty|done].
Qed.

Lemma d_closed_links (f : string → string) (g : string → string * string * string * nat) l :
  (∀ k, f k = toc_link (g k).1.1.1 (g k).1.1.2 (g k).1.2 (g k).2) →
  Forall (λ k, d_closed (link_head (g k).1.1.1 (g k).1.1.2 (g k).1.2) = true) l →
  Forall (λ x, d_closed x = true) (f <$> l).
Proof.
  intros Hf Hl. apply Forall_fmap. eapply Forall_impl; [exact Hl|].
  intros k Hk. simpl. rewrite Hf. by apply d_closed_toc_link.
Qed.

Lemma d_closed_category_links es :
  Forall (λ x, d_closed x = true) (sort_by Str.leb (category_link es <$> c.recommended_keywords)).
Proof.
  rewrite sort_by_Permutation.
  apply (d_closed_links _
           (λ k, (Str.capitalize k, category_file k, Str.replace_char " " "-" k,
                  length (by_keyword k es)))); [done|].
  simpl. apply Forall_forall. intros k Hk. revert k Hk. apply Forall_forall.
  repeat constructor.
Qed.

Lemma d_closed_platform_links es :
  Forall (λ x, d_closed x = true) (platform_link es <$> c.valid_platforms).
Proof.
  apply (d_closed_links _
           (λ k, (k, platform_file k, Str.lower k, length (by_platform k es)))); [done|].
  simpl. repeat constructor.
Qed.

Lemma d_closed_tocs_text es : d_closed (tocs_text es) = true.
Proof.
  unfold tocs_text.
  repeat first
    [ apply d_closed_toc_link; reflexivity
    | apply d_closed_join; [reflexivity|first [apply d_closed_category_links|apply d_closed_platform_links]]
    | reflexivity
    | apply d_closed_app ].
Qed.

(** In a text where no [d] is followed by a space the end mark comes first where it is put. *)
Lemma find_sub_end_mark_d_closed x after :
  d_closed x = true → Str.find_sub end_mark (x +:+ end_mark +:+ after) = Some (x, after).
Proof.
  induction x as [|c x IH]; intros Hx.
  - rewrite app_empty_l, find_sub_unfold. by rewrite strip_prefix_app.
  - rewrite app_cons, find_sub_unfold.
    assert (Hnone : Str.strip_prefix end_mark (String c (x +:+ end_mark +:+ after)) = None).
    { destruct x as [|c1 [|c2 [|c3 x]]]; rewrite ?app_cons, ?app_empty_l.
      - unfold end_mark. cbn. repeat (case_decide; [|done]). subst. done.
      - unfold end_mark. cbn. repeat (case_decide; [|done]). subst. done.
      - unfold end_mark. cbn. repeat (case_decide; [|done]). subst. done.
      - unfold end_mark. cbn -[String.app]. repeat (case_decide; [|done]). subst.
        exfalso. revert Hx. cbn. done. }
    rewrite Hnone, IH; [done|].
    revert Hx. simpl. destruct (decide (c = "d"%char)); [|done].
    destruct x; [done|]. by intros [_ ?]%andb_true_iff.
Qed.

(** The end mark does not begin in what follows the start mark on the start line. *)
Lemma find_sub_end_mark_start_tail y :
  Str.find_sub end_mark (start_tail +:+ y)
  = match Str.find_sub end_mark y with
    | Some (a, b) => Some (start_tail +:+ a, b)
    | None => None
    end.
Proof.
  unfold start_tail.
  repeat (rewrite app_cons, find_sub_unfold;
          replace (Str.strip_prefix end_mark (String _ _)) with (@None string)
            by (unfold end_mark; cbn; repeat (case_decide; [|done]); done)).
  rewrite app_empty_l. destruct (Str.find_sub end_mark y) as [[a b]|]; [|done].
  by rewrite !app_cons, app_empty_l.
Qed.

(** The readme written by [update_readme_tocs] is cut at the same places as the one read. *)
Lemma split_region_new_readme text before region after es :
  split_region text = Some (before, region, after) →
  split_region (new_readme before after es)
  = Some (before, start_line +:+ Str.nl +:+ tocs_text es +:+ Str.nl +:+ end_line, after).
Proof.
  unfold split_region, split_at.
  destruct (Str.find_sub start_mark text) as [[b t]|] eqn:E1; [|done].
  destruct (Str.find_sub end_mark t) as [[mid a]|] eqn:E2; [|done].
  intros [= -> <- ->].
  pose proof (find_sub_Some _ _ _ _ E1) as ->.
  assert (Hn : new_readme before after es
               = before +:+ start_mark +:+ start_tail +:+
                   (Str.nl +:+ tocs_text es +:+ Str.nl +:+ end_head) +:+ end_mark +:+ after).
  { unfold new_readme. change start_line with (start_mark +:+ start_tail).
    change end_line with (end_head +:+ end_mark). by rewrite !str_app_assoc. }
  rewrite Hn, (find_sub_change_tail _ _ _ _ E1), find_sub_end_mark_start_tail.
  rewrite find_sub_end_mark_d_closed.
  - change start_line with (start_mark +:+ start_tail).
    change end_line with (end_head +:+ end_mark). by rewrite !str_app_assoc.
  - apply d_closed_app; [reflexivity|]. apply d_closed_app; [apply d_closed_tocs_text|].
    reflexivity.
Qed.

(** X21: running [update_readme_tocs] a second time changes nothing but the
    output: with the entries loaded and a readme in which the regular
    expression finds a region, the second run succeeds, finds the region
    the first run wrote, and leaves the entries, the tables of contents and
    every file as the first run left them; it prints its message once more. *)
Theorem update_readme_tocs_idempotent `{HE : Env} (w : World) (es : list Entry)
    (text before region after : string) :
  entries w = Some es →
  files w !! c.readme_file = Some text →
  split_region text = Some (before, region, after) →
  let w1 := (update_readme_tocs w).2 in
  let w2 := (update_readme_tocs w1).2 in
  (update_readme_tocs w).1 = Ok () ∧
  (update_readme_tocs w1).1 = Ok () ∧
  files w1 !! c.readme_file = Some (new_readme before after es) ∧
  split_region (new_readme before after es)
  = Some (before, start_line +:+ Str.nl +:+ tocs_text es +:+ Str.nl +:+ end_line, after) ∧
  entries w2 = entries w1 ∧ tocs w2 = tocs w1 ∧ files w2 = files w1 ∧
  stdout w2 = (stdout w1 ++ ["Readme and TOCs updated"])%list.
Proof.
  intros He Hf Hs w1 w2. subst w2 w1.
  pose proof (split_region_new_readme text before region after es Hs) as Hs'.
  rewrite (update_readme_tocs_run w text before region after es Hf Hs He). cbn [fst snd].
  erewrite (update_readme_tocs_run _ (new_readme before after es) before _ after es);
    [|cbn [files]; apply lookup_insert_eq|exact Hs'|reflexivity].
  cbn [fst snd entries tocs files stdout].
  rewrite insert_insert_eq.
  split; [reflexivity|]. split; [reflexivity|]. split; [apply lookup_insert_eq|].
  split; [exact Hs'|]. repeat split; reflexivity.
Qed.

Lemma update_readme_tocs_idempotent_witness :
  let w1 := (update_readme_tocs (Sample.world (Some Sample.store) Sample.readme)).2 in
  let w2 := (update_readme_tocs w1).2 in
  (update_readme_tocs w1).1 = Ok () ∧ tocs w2 = tocs w1 ∧ files w2 = files w1.
Proof.
  pose (w := Sample.world (Some Sample.store) Sample.readme).
  destruct (update_readme_tocs_idempotent w Sample.store Sample.readme
              ("# Open Source Games" +:+ Str.nl)
              (start_line +:+ Str.nl +:+ "old" +:+ Str.nl +:+ end_line)
              (Str.nl +:+ "A collection") eq_refl eq_refl)
    as (_ & H2 & _ & _ & _ & Ht & Hfi & _).
  - vm_compute. reflexivity.
  - exact (conj H2 (conj Ht Hfi)).
Defined.
